(** * Bank compliance auditor: classification, scoring, threshold checks
      and the report-download route

    A shallow embedding of [src/auditor.js] (class [AccessibilityAuditor]),
    [src/complianceChecker.js] (class [ComplianceChecker]) and the
    [/reports/:filename] route of [src/server.js], followed by the
    properties the specification states about them. The embedding then
    covers the rest of [src/server.js], the JSON report of
    [src/reportGenerator.js], [src/config.js] and the compliance-check
    script, with the properties that this code shows of itself.

    Conventions of the embedding:
    - a JavaScript number that holds an integer (array lengths, summary
      counts) is a [Z], and arithmetic on such numbers is exact (they stay
      far below [2^53]); the one place where the source leaves the
      integers, the quotient and the product in [_calculateCompliance], is
      computed in double precision by [Double.div] and [Double.mul], which
      round the exact rational result to the nearest double;
    - a threshold of the configuration is what [parseInt] returns in
      [config.js], an integer or [NaN]: a [JS.number], compared as
      JavaScript compares numbers ([JS.leb], [JS.gtb]);
    - the logger writes a record only when its level is enabled by the
      level of the configuration ([enabled]);
    - [Array.prototype.sort] without a comparison function orders strings
      by their UTF-16 code units ([Lib.leb]);
    - a method of a class takes the [config] object of [this] as its first
      argument;
    - code that can throw returns a [Completion];
    - code that reads the clock takes a [World], and code that writes to
      the logger returns the [World] it leaves. *)

From Stdlib Require Import ZArith QArith Qround Qabs Qpower.
From Stdlib Require Import String Ascii List Bool Lia Lqa DecimalString.
From Stdlib Require Floats.PrimFloat Floats.SpecFloat Floats.FloatOps.
From Stdlib Require DecimalPos.
Import ListNotations.

Local Open Scope string_scope.
Local Open Scope list_scope.
Local Open Scope Z_scope.

(** ** JavaScript values and primitives used by the sources *)

Module JS.

(** The one-character string holding a double quote. *)
Definition dquote : string := String (ascii_of_nat 34) EmptyString.

(** Template-literal rendering [`${n}`] of an integer-valued number. *)
Definition num_to_string (n : Z) : string :=
  NilZero.string_of_int (Z.to_int n).

(** A number as a threshold of [config.js] can be: what [parseInt]
    returns, an integer or [NaN]. *)
Inductive number : Type :=
| Num (n : Z)
| NaN.

(** [x <= y] and [x > y] on numbers: with [NaN] on either side both are
    [false]. *)
Definition leb (x y : number) : bool :=
  match x, y with
  | Num a, Num b => a <=? b
  | _, _ => false
  end.

Definition gtb (x y : number) : bool :=
  match x, y with
  | Num a, Num b => a >? b
  | _, _ => false
  end.

Definition le (x y : number) : Prop := leb x y = true.
Definition gt (x y : number) : Prop := gtb x y = true.

(** Template-literal rendering [`${x}`] of a number. *)
Definition number_to_string (x : number) : string :=
  match x with
  | Num n => num_to_string n
  | NaN => "NaN"
  end.

(** An exception: its constructor and its message. *)
Inductive Error : Type :=
| TypeError (message : string)
| OtherError (message : string).

(** The result of a call: a value, or an exception thrown. *)
Inductive Completion (A : Type) : Type :=
| Return (a : A)
| Throw (e : Error).
Arguments Return {A} a.
Arguments Throw {A} e.

Definition bind {A B} (c : Completion A) (k : A -> Completion B)
  : Completion B :=
  match c with
  | Return a => k a
  | Throw e => Throw e
  end.

(** The own properties of [Object.prototype]. An object literal
    [{ k: v, ... }] inherits them, so [obj[key]] finds them when [key] is
    not an own property of the literal. *)
Definition Object_prototype_names : list string :=
  [ "constructor"; "__defineGetter__"; "__defineSetter__";
    "hasOwnProperty"; "__lookupGetter__"; "__lookupSetter__";
    "isPrototypeOf"; "propertyIsEnumerable"; "toString"; "valueOf";
    "__proto__"; "toLocaleString" ].

Definition inherited (key : string) : bool :=
  existsb (String.eqb key) Object_prototype_names.

(** What a property read on a literal whose own values are strings can
    yield: one of those strings, or the member of [Object.prototype] of
    the given name (a function, or for [__proto__] the prototype object
    itself). [None] stands for [undefined]. *)
Inductive value : Type :=
| Str (s : string)
| Proto (name : string).

Fixpoint own_property (own : list (string * string)) (key : string)
  : option string :=
  match own with
  | [] => None
  | (k, v) :: rest => if String.eqb k key then Some v else own_property rest key
  end.

(** [obj[key]] for an object literal with the own properties [own]. *)
Definition get (own : list (string * string)) (key : string) : option value :=
  match own_property own key with
  | Some v => Some (Str v)
  | None => if inherited key then Some (Proto key) else None
  end.

Definition truthy (v : option value) : bool :=
  match v with
  | None => false
  | Some (Str s) => negb (String.eqb s EmptyString)
  | Some (Proto _) => true
  end.

(** [v || d] with a string literal [d] on the right. *)
Definition or_else (v : option value) (d : string) : value :=
  match v with
  | Some x => if truthy v then x else Str d
  | None => Str d
  end.

(** [ToPropertyKey]: the string under which a value is used as a key.
    Functions and objects go through their [toString]. *)
Definition to_property_key (v : value) : string :=
  match v with
  | Str s => s
  | Proto name =>
      if String.eqb name "__proto__" then "[object Object]"
      else ("function "
              ++ (if String.eqb name "constructor" then "Object" else name)
              ++ "() { [native code] }")%string
  end.

(** [String(v)], as a template literal applies it. *)
Definition to_string (v : value) : string := to_property_key v.

(** [error.message]. *)
Definition error_message (e : Error) : string :=
  match e with
  | TypeError m => m
  | OtherError m => m
  end.

(** [Math.round]: the nearest integer, ties towards plus infinity. *)
Definition Math_round (q : Q) : Z := Qfloor (q + (1 # 2)).

(** An instant of the system clock, in milliseconds since the epoch, and
    its ISO-8601 rendering [Date.prototype.toISOString], kept as the
    instant it renders. *)
Inductive IsoString : Type := Iso (epoch_ms : Z).

Definition toISOString (t : Z) : IsoString := Iso t.

End JS.

Export JS (Completion, Return, Throw, TypeError, OtherError).

(** ** Double-precision arithmetic

    A double is a rational [m * 2^s] with [|m| < 2^53]. An arithmetic
    operation returns the double nearest to the exact result, ties to the
    even [m] (IEEE 754 binary64, round to nearest even). The exponent range
    is not modelled: the definitions are those of binary64 for magnitudes
    between [2^-1022] and [2^1024], which holds of every value the scoring
    computes from arrays of fewer than [2^32] elements. *)

Module Double.

(** [2^k] for an integer exponent. *)
Definition pow2 (k : Z) : Q := Qpower (inject_Z 2) k.

(** The binade of [x > 0]: the [e] with [2^e <= x < 2^(e+1)]. *)
Definition ilog2 (x : Q) : Z :=
  let e0 := Z.log2 (Qnum x) - Z.log2 (Zpos (Qden x)) in
  if Qle_bool (pow2 e0) x then e0 else e0 - 1.

(** Nearest integer, ties to even. *)
Definition rne (x : Q) : Z :=
  let f := Qfloor x in
  match (x - inject_Z f ?= 1 # 2)%Q with
  | Lt => f
  | Gt => f + 1
  | Eq => if Z.even f then f else f + 1
  end.

(** The double nearest to [x]: [x] is scaled so that it lies between
    [2^52] and [2^53], rounded to an integer and scaled back. *)
Definition round (x : Q) : Q :=
  match Qnum x with
  | Z0 => 0%Q
  | _ =>
      let s := ilog2 (Qabs x) - 52 in
      (inject_Z (rne (x / pow2 s)) * pow2 s)%Q
  end.

(** [x / y] and [x * y] on numbers. *)
Definition div (x y : Q) : Q := round (x / y).
Definition mul (x y : Q) : Q := round (x * y).

(** Half a unit in the last place, relative to the value: [2^-53]. *)
Definition eps : Q := 1 # 9007199254740992.

(** A bound on the error of a quotient of at most 1 multiplied by 100. *)
Definition eta : Q := 1 # 1000000000000.

End Double.

(** ** The same operations on the primitive floats

    The primitive type [float] is IEEE 754 binary64 as the processor
    computes it. It serves to run the quotient and the product of the
    scoring on concrete numbers and to compare them with [Double]. *)

Module Hardware.

Import Floats.PrimFloat Floats.SpecFloat Floats.FloatOps.

(** The float of an integer below [2^53] in magnitude. *)
Definition of_Z (z : Z) : float :=
  SF2Prim (binary_normalize prec emax z 0 false).

(** The rational a finite float stands for. *)
Definition to_Q (x : float) : Q :=
  match Prim2SF x with
  | S754_finite s m e =>
      let v := (inject_Z (Zpos m) * Qpower (inject_Z 2) e)%Q in
      if s then Qopp v else v
  | _ => 0%Q
  end.

(** [(a / b) * 100] on floats. *)
Definition percentage (a b : Z) : Q :=
  to_Q (mul (div (of_Z a) (of_Z b)) (of_Z 100)).

(** The numerators [0, 5, ..., 5 * (n - 1)]. *)
Fixpoint numerators (n : nat) : list Z :=
  match n with
  | O => []
  | S n' => numerators n' ++ [5 * Z.of_nat n']
  end.

(** Every pair of a numerator [maxPoints - points] and a denominator
    [maxPoints] that issue sets of 1 to [n] issues can give. *)
Fixpoint quotients (n : nat) : list (Z * Z) :=
  match n with
  | O => []
  | S n' =>
      quotients n'
      ++ map (fun a => (a, 100 * Z.of_nat n)) (numerators (19 * n + 1))
  end.

End Hardware.

(** ** The world outside the pure computations: clock and logger *)

Inductive LogValue : Type :=
| LBool (b : bool)
| LNum (n : Z)
| LStr (s : string).

Record LogRecord : Type := {
  log_level : string;
  log_message : string;
  log_meta : list (string * LogValue)
}.

Record World : Type := {
  clock : Z;                 (* what [new Date()] reads *)
  logLevel : string;         (* [config.logLevel], the level [logger.js]
                                creates the logger with *)
  logged : list LogRecord    (* what [logger] has written, oldest first *)
}.

(** The priorities of the levels of the logger (winston's default ones):
    a lower number is more severe. A string that names no level has
    none. *)
Definition priority (level : string) : option Z :=
  if String.eqb level "error" then Some 0
  else if String.eqb level "warn" then Some 1
  else if String.eqb level "info" then Some 2
  else if String.eqb level "http" then Some 3
  else if String.eqb level "verbose" then Some 4
  else if String.eqb level "debug" then Some 5
  else if String.eqb level "silly" then Some 6
  else None.

(** A record of the given level is written when the level of the logger
    is at least as verbose; the two transports, file and console, have no
    level of their own. *)
Definition enabled (level : string) (w : World) : bool :=
  match priority level, priority (logLevel w) with
  | Some p, Some q => p <=? q
  | _, _ => false
  end.

Definition logger_log (level m : string) (meta : list (string * LogValue))
    (w : World) : World :=
  if enabled level w then
    {| clock := clock w;
       logLevel := logLevel w;
       logged := logged w ++ [ {| log_level := level; log_message := m;
                                  log_meta := meta |} ] |}
  else w.

Definition logger_info (m : string) (meta : list (string * LogValue)) (w : World)
  : World := logger_log "info" m meta w.

Definition logger_error (m : string) (meta : list (string * LogValue)) (w : World)
  : World := logger_log "error" m meta w.

(** Time passing between two calls. *)
Definition elapse (dt : Z) (w : World) : World :=
  {| clock := clock w + dt; logLevel := logLevel w; logged := logged w |}.

(** ** config.js *)

Module Config.
Record t : Type := {
  wcagLevel : string;
  wcagVersion : string;
  maxCriticalIssues : JS.number;
  maxSeriousIssues : JS.number;
  maxModerateIssues : JS.number;
  failOnSerious : bool;
  reportOutputDir : string;
  notificationWebhook : option string
}.
End Config.

(** ** Data exchanged between the components *)

(** What the scan engine (pa11y) resolves to, and one finding in it. *)
Module Pa11y.
Record issue : Type := {
  code : string;
  message : string;
  type : string;
  selector : option string
}.

Record result : Type := {
  documentTitle : string;
  pageUrl : string;
  issues : list issue
}.
End Pa11y.

(** The object pushed into a bucket by [_processResults]. *)
Module Issue.
Record t : Type := {
  code : string;
  message : string;
  type : string;
  selector : option string;
  wcagLevel : JS.value;
  wcagCriteria : JS.value
}.
End Issue.

Module IssueSet.
Record t : Type := {
  critical : list Issue.t;
  serious : list Issue.t;
  moderate : list Issue.t;
  minor : list Issue.t
}.

Definition empty : t :=
  {| critical := []; serious := []; moderate := []; minor := [] |}.

(** [Object.values(issues)]: the buckets in insertion order. *)
Definition Object_values (issues : t) : list (list Issue.t) :=
  [critical issues; serious issues; moderate issues; minor issues].

(** [issues[key].push(x)]. The four own keys hold arrays. Any other key
    reads [undefined] (or, for a name of [Object.prototype], a function
    that has no [push]), and the call ends in a [TypeError]. *)
Definition push (issues : t) (key : string) (x : Issue.t) : Completion t :=
  if String.eqb key "critical" then
    Return {| critical := critical issues ++ [x]; serious := serious issues;
              moderate := moderate issues; minor := minor issues |}
  else if String.eqb key "serious" then
    Return {| critical := critical issues; serious := serious issues ++ [x];
              moderate := moderate issues; minor := minor issues |}
  else if String.eqb key "moderate" then
    Return {| critical := critical issues; serious := serious issues;
              moderate := moderate issues ++ [x]; minor := minor issues |}
  else if String.eqb key "minor" then
    Return {| critical := critical issues; serious := serious issues;
              moderate := moderate issues; minor := minor issues ++ [x] |}
  else Throw (TypeError "Cannot read properties of undefined (reading 'push')").
End IssueSet.

Module Summary.
Record t : Type := {
  total : Z;
  critical : Z;
  serious : Z;
  moderate : Z;
  minor : Z
}.
End Summary.

Inductive Status : Type := PASSED | FAILED.

Module AuditResult.
Record t : Type := {
  url : string;
  timestamp : JS.IsoString;
  wcagLevel : string;
  wcagVersion : string;
  summary : Summary.t;
  issues : IssueSet.t;
  status : Status;
  compliance : Z
}.
End AuditResult.

(** [arr.length] as a number. *)
Definition len {A} (arr : list A) : Z := Z.of_nat (length arr).

(** ** auditor.js: class AccessibilityAuditor *)

Module AccessibilityAuditor.

Definition severityMap : list (string * string) :=
  [ ("error", "critical"); ("warning", "serious");
    ("notice", "moderate"); ("info", "minor") ].

Definition levelMap : list (string * string) :=
  [ ("image-alt", "A"); ("color-contrast", "AA"); ("heading-order", "A");
    ("label", "A"); ("button-name", "A"); ("link-name", "A");
    ("form-field-multiple-labels", "A"); ("duplicate-id", "A");
    ("aria-required-attr", "A"); ("aria-valid-attr", "A");
    ("select-name", "A"); ("textarea-name", "A") ].

Definition criteriaMap : list (string * string) :=
  [ ("image-alt", "WCAG 2.1 Level A - 1.1.1 Non-text Content");
    ("color-contrast", "WCAG 2.1 Level AA - 1.4.3 Contrast (Minimum)");
    ("heading-order", "WCAG 2.1 Level A - 1.3.1 Info and Relationships");
    ("label", "WCAG 2.1 Level A - 1.3.1 Info and Relationships");
    ("button-name", "WCAG 2.1 Level A - 4.1.2 Name, Role, Value");
    ("link-name", "WCAG 2.1 Level A - 4.1.2 Name, Role, Value");
    ("form-field-multiple-labels",
      "WCAG 2.1 Level A - 1.3.1 Info and Relationships");
    ("duplicate-id", "WCAG 2.1 Level A - 4.1.1 Parsing");
    ("aria-required-attr", "WCAG 2.1 Level A - 4.1.2 Name, Role, Value");
    ("aria-valid-attr", "WCAG 2.1 Level A - 4.1.2 Name, Role, Value");
    ("select-name", "WCAG 2.1 Level A - 4.1.2 Name, Role, Value");
    ("textarea-name", "WCAG 2.1 Level A - 4.1.2 Name, Role, Value") ].

Definition _getWCAGLevel (code : string) : JS.value :=
  JS.or_else (JS.get levelMap code) "AA".

Definition _getWCAGCriteria (code : string) : JS.value :=
  JS.or_else (JS.get criteriaMap code)
             "WCAG 2.1 Level A - General Accessibility".

Definition _determineStatus (config : Config.t) (issues : IssueSet.t)
  : Status :=
  if JS.gtb (JS.Num (len (IssueSet.critical issues)))
            (Config.maxCriticalIssues config)
  then FAILED
  else if Config.failOnSerious config
          && JS.gtb (JS.Num (len (IssueSet.serious issues)))
                    (Config.maxSeriousIssues config)
  then FAILED
  else PASSED.

Definition _calculateCompliance (issues : IssueSet.t) : Z :=
  let total :=
    fold_left (fun sum arr => sum + len arr) (IssueSet.Object_values issues) 0 in
  if total =? 0 then 100
  else
    let points :=
      len (IssueSet.critical issues) * 100 +
      len (IssueSet.serious issues) * 50 +
      len (IssueSet.moderate issues) * 20 +
      len (IssueSet.minor issues) * 5 in
    let maxPoints := total * 100 in
    JS.Math_round
      (Double.mul
         (Double.div (inject_Z (maxPoints - points)) (inject_Z maxPoints))
         (inject_Z 100)).

(** The callback of [auditResult.issues.forEach]. *)
Definition categorize (issues : IssueSet.t) (issue : Pa11y.issue)
  : Completion IssueSet.t :=
  let category := JS.or_else (JS.get severityMap (Pa11y.type issue)) "minor" in
  IssueSet.push issues (JS.to_property_key category)
    {| Issue.code := Pa11y.code issue;
       Issue.message := Pa11y.message issue;
       Issue.type := Pa11y.type issue;
       Issue.selector := Pa11y.selector issue;
       Issue.wcagLevel := _getWCAGLevel (Pa11y.code issue);
       Issue.wcagCriteria := _getWCAGCriteria (Pa11y.code issue) |}.

(** [arr.forEach(f)] for a callback that updates [issues] and may throw:
    the first exception ends the loop. *)
Fixpoint forEach (arr : list Pa11y.issue) (issues : IssueSet.t)
  : Completion IssueSet.t :=
  match arr with
  | [] => Return issues
  | issue :: rest =>
      JS.bind (categorize issues issue) (forEach rest)
  end.

Definition _processResults (config : Config.t) (auditResult : Pa11y.result)
    (w : World) : Completion AuditResult.t :=
  JS.bind (forEach (Pa11y.issues auditResult) IssueSet.empty) (fun issues =>
  Return
    {| AuditResult.url := Pa11y.documentTitle auditResult;
       AuditResult.timestamp := JS.toISOString (clock w);
       AuditResult.wcagLevel := Config.wcagLevel config;
       AuditResult.wcagVersion := Config.wcagVersion config;
       AuditResult.summary :=
         {| Summary.total := len (Pa11y.issues auditResult);
            Summary.critical := len (IssueSet.critical issues);
            Summary.serious := len (IssueSet.serious issues);
            Summary.moderate := len (IssueSet.moderate issues);
            Summary.minor := len (IssueSet.minor issues) |};
       AuditResult.issues := issues;
       AuditResult.status := _determineStatus config issues;
       AuditResult.compliance := _calculateCompliance issues |}).

(** [audit(url)]. The scan engine is a collaborator: [pa11y url standard]
    resolves to a result or rejects, and time passes while it runs. The
    value returned is also stored in [this.results]; the stack trace that
    goes to the log with a failure is left out. *)
Definition audit (config : Config.t)
    (pa11y : string -> string -> World -> Completion Pa11y.result * World)
    (url : string) (w : World) : Completion AuditResult.t * World :=
  let w1 :=
    logger_info ("Starting accessibility audit for: " ++ url)%string [] w in
  let (scan, w2) := pa11y url (Config.wcagLevel config) w1 in
  match JS.bind scan (fun auditResult => _processResults config auditResult w2)
  with
  | Return results =>
      (Return results,
       logger_info ("Audit completed for: " ++ url)%string
         [ ("issuesFound",
             LNum (Summary.total (AuditResult.summary results))) ] w2)
  | Throw error =>
      (Throw error,
       logger_error
         ("Audit failed for " ++ url ++ ": " ++ JS.error_message error)%string
         [] w2)
  end.

End AccessibilityAuditor.

(** ** complianceChecker.js: class ComplianceChecker *)

Module ThresholdCheck.
Record t : Type := {
  metric : string;
  current : Z;
  threshold : JS.number;
  passed : bool;
  message : string
}.
End ThresholdCheck.

Module WCAGCheck.
Record t : Type := {
  metric : string;
  currentLevel : string;
  compliant : bool;
  passed : bool;
  message : string
}.
End WCAGCheck.

Module Checks.
Record t : Type := {
  criticalIssues : ThresholdCheck.t;
  seriousIssues : ThresholdCheck.t;
  moderateIssues : ThresholdCheck.t;
  wcagCompliance : WCAGCheck.t;
  complianceScore : Z
}.

(** A value of the [checks] object: one of the two shapes of check, or the
    number stored under [complianceScore]. *)
Inductive entry : Type :=
| Threshold (c : ThresholdCheck.t)
| WCAG (c : WCAGCheck.t)
| Number (n : Z).

(** [Object.values(checks)], in insertion order. *)
Definition Object_values (checks : t) : list entry :=
  [ Threshold (criticalIssues checks); Threshold (seriousIssues checks);
    Threshold (moderateIssues checks); WCAG (wcagCompliance checks);
    Number (complianceScore checks) ].

(** [check.message] and [check.passed]; a number has neither property,
    the read gives [undefined] ([None]). *)
Definition message (e : entry) : option string :=
  match e with
  | Threshold c => Some (ThresholdCheck.message c)
  | WCAG c => Some (WCAGCheck.message c)
  | Number _ => None
  end.

Definition passed (e : entry) : option bool :=
  match e with
  | Threshold c => Some (ThresholdCheck.passed c)
  | WCAG c => Some (WCAGCheck.passed c)
  | Number _ => None
  end.

(** Truthiness of what a callback of [filter] or [every] returns. *)
Definition truthy_string (v : option string) : bool :=
  match v with
  | Some s => negb (String.eqb s EmptyString)
  | None => false
  end.

Definition truthy_bool (v : option bool) : bool :=
  match v with
  | Some b => b
  | None => false
  end.
End Checks.

Module Report.
Record t : Type := {
  summary : list (option string);
  details : list Checks.entry;
  allChecksPassed : bool
}.
End Report.

Module ComplianceResult.
Record t : Type := {
  passed : bool;
  checks : Checks.t;
  timestamp : JS.IsoString;
  report : Report.t
}.
End ComplianceResult.

(** The body posted to the webhook. *)
Module Notification.
Record field : Type := {
  title : string;
  value : string;
  short : bool
}.

Record attachment : Type := {
  color : string;
  heading : string;          (* the [title] of the attachment *)
  text : string;
  fields : list field;
  ts : Z
}.

Record t : Type := { attachments : list attachment }.
End Notification.

Definition status_string (s : Status) : string :=
  match s with
  | PASSED => "PASSED"
  | FAILED => "FAILED"
  end.

Module ComplianceChecker.

Definition _checkCriticalIssues (config : Config.t)
    (auditResults : AuditResult.t) : ThresholdCheck.t :=
  let count := Summary.critical (AuditResult.summary auditResults) in
  let passed := JS.leb (JS.Num count) (Config.maxCriticalIssues config) in
  {| ThresholdCheck.metric := "Critical Issues";
     ThresholdCheck.current := count;
     ThresholdCheck.threshold := Config.maxCriticalIssues config;
     ThresholdCheck.passed := passed;
     ThresholdCheck.message :=
       (if passed
        then "✓ Critical issues within threshold (" ++ JS.num_to_string count
             ++ "/" ++ JS.number_to_string (Config.maxCriticalIssues config) ++ ")"
        else "✗ Critical issues exceed threshold (" ++ JS.num_to_string count
             ++ "/" ++ JS.number_to_string (Config.maxCriticalIssues config) ++ ")"
       )%string |}.

Definition _checkSeriousIssues (config : Config.t)
    (auditResults : AuditResult.t) : ThresholdCheck.t :=
  let count := Summary.serious (AuditResult.summary auditResults) in
  let passed := JS.leb (JS.Num count) (Config.maxSeriousIssues config) in
  {| ThresholdCheck.metric := "Serious Issues";
     ThresholdCheck.current := count;
     ThresholdCheck.threshold := Config.maxSeriousIssues config;
     ThresholdCheck.passed := passed;
     ThresholdCheck.message :=
       (if passed
        then "✓ Serious issues within threshold (" ++ JS.num_to_string count
             ++ "/" ++ JS.number_to_string (Config.maxSeriousIssues config) ++ ")"
        else "✗ Serious issues exceed threshold (" ++ JS.num_to_string count
             ++ "/" ++ JS.number_to_string (Config.maxSeriousIssues config) ++ ")"
       )%string |}.

Definition _checkModerateIssues (config : Config.t)
    (auditResults : AuditResult.t) : ThresholdCheck.t :=
  let count := Summary.moderate (AuditResult.summary auditResults) in
  let passed := JS.leb (JS.Num count) (Config.maxModerateIssues config) in
  {| ThresholdCheck.metric := "Moderate Issues";
     ThresholdCheck.current := count;
     ThresholdCheck.threshold := Config.maxModerateIssues config;
     ThresholdCheck.passed := passed;
     ThresholdCheck.message :=
       (if passed
        then "✓ Moderate issues within threshold (" ++ JS.num_to_string count
             ++ "/" ++ JS.number_to_string (Config.maxModerateIssues config) ++ ")"
        else "✗ Moderate issues exceed threshold (" ++ JS.num_to_string count
             ++ "/" ++ JS.number_to_string (Config.maxModerateIssues config) ++ ")"
       )%string |}.

Definition _checkWCAGCompliance (config : Config.t)
    (auditResults : AuditResult.t) : WCAGCheck.t :=
  let passed := Summary.critical (AuditResult.summary auditResults) =? 0 in
  {| WCAGCheck.metric := "WCAG 2.1 Level AA Compliance";
     WCAGCheck.currentLevel := Config.wcagLevel config;
     WCAGCheck.compliant := passed;
     WCAGCheck.passed := passed;
     WCAGCheck.message :=
       (if passed
        then "✓ WCAG 2.1 Level " ++ Config.wcagLevel config ++ " Compliant"
        else "✗ WCAG 2.1 Level " ++ Config.wcagLevel config
             ++ " Non-Compliant ("
             ++ JS.num_to_string
                  (Summary.critical (AuditResult.summary auditResults))
             ++ " critical issues)")%string |}.

Definition _determineOverallPass (config : Config.t) (checks : Checks.t)
  : bool :=
  if negb (ThresholdCheck.passed (Checks.criticalIssues checks)) then false
  else if Config.failOnSerious config
          && negb (ThresholdCheck.passed (Checks.seriousIssues checks))
  then false
  else true.

Definition _generateComplianceReport (checks : Checks.t) : Report.t :=
  let checkResults :=
    filter (fun check => Checks.truthy_string (Checks.message check))
           (Checks.Object_values checks) in
  {| Report.summary := map Checks.message checkResults;
     Report.details := checkResults;
     Report.allChecksPassed :=
       forallb (fun check => Checks.truthy_bool (Checks.passed check))
               checkResults |}.

(** The [checks] object built at the start of [check]. *)
Definition run_checks (config : Config.t) (auditResults : AuditResult.t)
  : Checks.t :=
  {| Checks.criticalIssues := _checkCriticalIssues config auditResults;
     Checks.seriousIssues := _checkSeriousIssues config auditResults;
     Checks.moderateIssues := _checkModerateIssues config auditResults;
     Checks.wcagCompliance := _checkWCAGCompliance config auditResults;
     Checks.complianceScore := AuditResult.compliance auditResults |}.

Definition check (config : Config.t) (auditResults : AuditResult.t)
    (w : World) : ComplianceResult.t * World :=
  let checks := run_checks config auditResults in
  let passed := _determineOverallPass config checks in
  let w1 :=
    logger_info "Compliance check completed"
      [ ("passed", LBool passed);
        ("criticalPassed",
          LBool (ThresholdCheck.passed (Checks.criticalIssues checks)));
        ("seriousPassed",
          LBool (ThresholdCheck.passed (Checks.seriousIssues checks)));
        ("scorePercentage",
          LStr (JS.num_to_string (Checks.complianceScore checks) ++ "%")%string) ]
      w in
  ({| ComplianceResult.passed := passed;
      ComplianceResult.checks := checks;
      ComplianceResult.timestamp := JS.toISOString (clock w1);
      ComplianceResult.report := _generateComplianceReport checks |},
   w1).

Definition newline : string := String (ascii_of_nat 10) EmptyString.

(** [arr.join(sep)]; an [undefined] element contributes nothing. *)
Definition join (sep : string) (arr : list (option string)) : string :=
  String.concat sep
    (map (fun x => match x with Some s => s | None => EmptyString end) arr).

Definition _buildNotificationMessage (config : Config.t)
    (complianceResult : ComplianceResult.t) (auditResults : AuditResult.t)
    (w : World) : Notification.t :=
  let statusEmoji :=
    if ComplianceResult.passed complianceResult then "✅" else "❌" in
  let statusColor :=
    if ComplianceResult.passed complianceResult then "#2ecc71" else "#e74c3c" in
  {| Notification.attachments :=
      [ {| Notification.color := statusColor;
           Notification.heading :=
             (statusEmoji ++ " Accessibility Audit Report")%string;
           Notification.text :=
             if ComplianceResult.passed complianceResult
             then "All compliance checks passed!"
             else "Compliance check failed - Deployment blocked";
           Notification.fields :=
             [ {| Notification.title := "Status";
                  Notification.value :=
                    status_string (AuditResult.status auditResults);
                  Notification.short := true |};
               {| Notification.title := "Compliance Score";
                  Notification.value :=
                    (JS.num_to_string (AuditResult.compliance auditResults)
                     ++ "%")%string;
                  Notification.short := true |};
               {| Notification.title := "Critical Issues";
                  Notification.value :=
                    (JS.num_to_string
                       (Summary.critical (AuditResult.summary auditResults))
                     ++ " (Max: "
                     ++ JS.number_to_string (Config.maxCriticalIssues config)
                     ++ ")")%string;
                  Notification.short := true |};
               {| Notification.title := "Serious Issues";
                  Notification.value :=
                    (JS.num_to_string
                       (Summary.serious (AuditResult.summary auditResults))
                     ++ " (Max: "
                     ++ JS.number_to_string (Config.maxSeriousIssues config)
                     ++ ")")%string;
                  Notification.short := true |};
               {| Notification.title := "Total Issues";
                  Notification.value :=
                    JS.num_to_string
                      (Summary.total (AuditResult.summary auditResults));
                  Notification.short := true |};
               {| Notification.title := "Checks Summary";
                  Notification.value :=
                    join newline
                      (Report.summary
                         (ComplianceResult.report complianceResult));
                  Notification.short := false |} ];
           Notification.ts := clock w / 1000 |} ] |}.

End ComplianceChecker.

(** ** reportGenerator.js: the JSON report *)

Module JsonReport.
Record metadata : Type := {
  title : string;
  generatedAt : JS.IsoString;
  generatedBy : string;
  organization : string;
  auditType : string
}.

Record configuration : Type := {
  wcagVersion : string;
  wcagLevel : string;
  maxCriticalIssues : JS.number;
  maxSeriousIssues : JS.number;
  maxModerateIssues : JS.number
}.

Record auditResults : Type := {
  url : string;
  timestamp : JS.IsoString;
  status : Status;
  complianceScore : Z
}.

Record summary : Type := {
  total_issues : Z;
  critical : Z;
  serious : Z;
  moderate : Z;
  minor : Z
}.

(** The two shapes of recommendation: one per non-empty bucket, one per
    leading critical issue. *)
Inductive recommendation : Type :=
| Bucket (priority issue action impact : string)
| Specific (priority issue : string) (wcagCriteria : JS.value)
           (action : string) (affectedElement : option string).

Record legal_compliance : Type := {
  wcag_2_1_level_aa : bool;
  ada_compliant : bool;
  section_508_compliant : bool
}.

Record certification : Type := {
  passed : bool;
  certificationLevel : string;
  validUntil : JS.IsoString
}.

Record t : Type := {
  r_metadata : metadata;
  r_configuration : configuration;
  r_auditResults : auditResults;
  r_summary : summary;
  r_issues : IssueSet.t;
  r_recommendations : list recommendation;
  r_legal_compliance : legal_compliance;
  r_certification : certification
}.
End JsonReport.

Module ReportGenerator.

Definition suggestions : list (string * string) :=
  [ ("image-alt", "Add descriptive alt text to all images");
    ("color-contrast",
      "Increase color contrast ratio to at least 4.5:1 for AA compliance");
    ("heading-order", "Use proper heading hierarchy (h1, h2, h3, etc.)");
    ("label", "Associate form labels with inputs using for/id attributes");
    ("button-name", "Ensure all buttons have accessible names");
    ("link-name",
      ("Provide meaningful link text (avoid " ++ JS.dquote ++ "click here"
       ++ JS.dquote ++ ")")%string);
    ("form-field-multiple-labels", "Use only one label per form field");
    ("duplicate-id", "Remove duplicate ID attributes from elements");
    ("aria-required-attr", "Add required ARIA attributes");
    ("aria-valid-attr", "Use valid ARIA attribute values");
    ("select-name", "Add accessible names to select elements");
    ("textarea-name", "Add accessible names to textarea elements") ].

Definition _getFixSuggestion (code : string) : JS.value :=
  JS.or_else (JS.get suggestions code)
             "Review WCAG 2.1 guidelines for this issue type".

Definition _getCertificationLevel (auditResults : AuditResult.t) : string :=
  let compliance := AuditResult.compliance auditResults in
  if compliance >=? 95 then "Gold - Excellent Accessibility"
  else if compliance >=? 85 then "Silver - Good Accessibility"
  else if compliance >=? 70 then "Bronze - Fair Accessibility"
  else "Non-Compliant".

Definition _generateRecommendations (auditResults : AuditResult.t)
  : list JsonReport.recommendation :=
  let s := AuditResult.summary auditResults in
  (if Summary.critical s >? 0 then
     [ JsonReport.Bucket "CRITICAL"
         (JS.num_to_string (Summary.critical s)
          ++ " critical accessibility issues found")%string
         "IMMEDIATE: Fix all critical issues before deployment"
         "Legal compliance, user access blocked" ]
   else [])
  ++ (if Summary.serious s >? 0 then
        [ JsonReport.Bucket "HIGH"
            (JS.num_to_string (Summary.serious s)
             ++ " serious accessibility issues found")%string
            "Fix serious issues within 2 weeks"
            "Significant accessibility barriers for users" ]
      else [])
  ++ (if Summary.moderate s >? 0 then
        [ JsonReport.Bucket "MEDIUM"
            (JS.num_to_string (Summary.moderate s)
             ++ " moderate accessibility issues found")%string
            "Fix moderate issues within 30 days"
            "Minor accessibility challenges for some users" ]
      else [])
  ++ map (fun issue =>
            JsonReport.Specific "CRITICAL" (Issue.message issue)
              (Issue.wcagCriteria issue)
              ("Fix: " ++ JS.to_string (_getFixSuggestion (Issue.code issue)))%string
              (Issue.selector issue))
         (firstn 3 (IssueSet.critical (AuditResult.issues auditResults))).

Definition _buildReport (config : Config.t) (auditResults : AuditResult.t)
    (w : World) : JsonReport.t :=
  let now := clock w in
  let s := AuditResult.summary auditResults in
  {| JsonReport.r_metadata :=
       {| JsonReport.title := "Accessibility & Compliance Audit Report";
          JsonReport.generatedAt := JS.toISOString now;
          JsonReport.generatedBy := "Bank Compliance Auditor v1.0.0";
          JsonReport.organization := "Banking Institution";
          JsonReport.auditType := "WCAG 2.1 Compliance" |};
     JsonReport.r_configuration :=
       {| JsonReport.wcagVersion := Config.wcagVersion config;
          JsonReport.wcagLevel := Config.wcagLevel config;
          JsonReport.maxCriticalIssues := Config.maxCriticalIssues config;
          JsonReport.maxSeriousIssues := Config.maxSeriousIssues config;
          JsonReport.maxModerateIssues := Config.maxModerateIssues config |};
     JsonReport.r_auditResults :=
       {| JsonReport.url := AuditResult.url auditResults;
          JsonReport.timestamp := AuditResult.timestamp auditResults;
          JsonReport.status := AuditResult.status auditResults;
          JsonReport.complianceScore := AuditResult.compliance auditResults |};
     JsonReport.r_summary :=
       {| JsonReport.total_issues := Summary.total s;
          JsonReport.critical := Summary.critical s;
          JsonReport.serious := Summary.serious s;
          JsonReport.moderate := Summary.moderate s;
          JsonReport.minor := Summary.minor s |};
     JsonReport.r_issues := AuditResult.issues auditResults;
     JsonReport.r_recommendations := _generateRecommendations auditResults;
     JsonReport.r_legal_compliance :=
       {| JsonReport.wcag_2_1_level_aa := Summary.critical s =? 0;
          JsonReport.ada_compliant := Summary.critical s =? 0;
          JsonReport.section_508_compliant :=
            (Summary.critical s =? 0) && (Summary.serious s <=? 2) |};
     JsonReport.r_certification :=
       {| JsonReport.passed :=
            match AuditResult.status auditResults with
            | PASSED => true
            | FAILED => false
            end;
          JsonReport.certificationLevel :=
            _getCertificationLevel auditResults;
          JsonReport.validUntil :=
            JS.toISOString (now + 90 * 24 * 60 * 60 * 1000) |} |}.

End ReportGenerator.

(** ** Node's [path.join] on POSIX paths, as the route uses it *)

Module path.

Definition slash : ascii := "/"%char.

(** [p.split('/')]. *)
Fixpoint split (p : string) : list string :=
  match p with
  | EmptyString => [EmptyString]
  | String c rest =>
      if Ascii.eqb c slash then EmptyString :: split rest
      else match split rest with
           | seg :: segs => String c seg :: segs
           | [] => [String c EmptyString]
           end
  end.

Definition starts_with_slash (p : string) : bool :=
  match p with
  | String c _ => Ascii.eqb c slash
  | EmptyString => false
  end.

Fixpoint ends_with_slash (p : string) : bool :=
  match p with
  | EmptyString => false
  | String c EmptyString => Ascii.eqb c slash
  | String _ rest => ends_with_slash rest
  end.

(** [normalizeString]: [res] is the stack of segments kept so far, last
    one first. Empty and [.] segments are skipped, [..] removes the segment
    before it, and is kept only where there is nothing to remove and the
    path is relative. *)
Fixpoint normalizeString (allowAboveRoot : bool) (segs res : list string)
  : list string :=
  match segs with
  | [] => rev res
  | seg :: rest =>
      if String.eqb seg EmptyString || String.eqb seg "." then
        normalizeString allowAboveRoot rest res
      else if String.eqb seg ".." then
        match res with
        | last :: before =>
            if String.eqb last ".." then
              normalizeString allowAboveRoot rest
                (if allowAboveRoot then ".." :: res else res)
            else normalizeString allowAboveRoot rest before
        | [] =>
            normalizeString allowAboveRoot rest
              (if allowAboveRoot then [".."] else [])
        end
      else normalizeString allowAboveRoot rest (seg :: res)
  end.

Definition normalize (p : string) : string :=
  if String.eqb p EmptyString then "."
  else
    let isAbsolute := starts_with_slash p in
    let trailingSeparator := ends_with_slash p in
    let body :=
      String.concat "/" (normalizeString (negb isAbsolute) (split p) []) in
    if String.eqb body EmptyString then
      if isAbsolute then "/" else if trailingSeparator then "./" else "."
    else
      let body := if trailingSeparator then (body ++ "/")%string else body in
      if isAbsolute then ("/" ++ body)%string else body.

Definition join (args : list string) : string :=
  match filter (fun arg => negb (String.eqb arg EmptyString)) args with
  | [] => "."
  | parts => normalize (String.concat "/" parts)
  end.

(** [path.resolve(p)] for an absolute path [p]: the normalized path
    without a trailing slash. A relative path is resolved against the
    working directory of the process, which is not part of this model. *)
Definition resolve (p : string) : string :=
  ("/" ++ String.concat "/" (normalizeString false (split p) []))%string.

End path.

(** ** server.js: the report-download route *)

Module Server.

(** What the handler does with [res]: it answers with a status and an
    error, or [res.download(filepath)] goes ahead and sends the file at
    [filepath]. *)
Inductive Response : Type :=
| StatusJson (status : Z) (error : string)
| Download (filepath : string).

(** The directory the reports are written to and listed from
    ([/api/reports]). *)
Definition reportsDir (__dirname : string) (config : Config.t) : string :=
  path.join [__dirname; ".."; Config.reportOutputDir config].

(** [p] names something below the directory [dir]. *)
Definition inside (dir p : string) : bool :=
  String.prefix (dir ++ "/")%string p.

(** A path segment that names a dot-file: it starts with a dot and has
    more than one character. *)
Definition dotfile (part : string) : bool :=
  match part with
  | String c (String _ _) => Ascii.eqb c "."
  | _ => false
  end.

Definition starts_with_dot (part : string) : bool :=
  match part with
  | String c _ => Ascii.eqb c "."
  | EmptyString => false
  end.

(** Whether [res.download(filepath)], called without options, refuses the
    path: the library that sends the file (Express 4 with [send]) ignores a
    resolved path that contains a dot-file and whose last segment starts
    with a dot. *)
Definition refused (filepath : string) : bool :=
  let parts := path.split (path.resolve filepath) in
  existsb dotfile parts && starts_with_dot (last parts EmptyString).

(** [app.get('/reports/:filename', ...)]; [filename] is
    [req.params.filename], [existsSync] the state of the file system.
    Neither [path.join] on strings nor [fs.existsSync] throws, so the
    [catch] branch is not reached. When [res.download] refuses the path,
    the error goes to the error handler at the end of [server.js], which
    answers 500; otherwise [Download] stands for the file at [filepath]
    being sent, as [res.download] does with a regular file that can be
    read, which is what a report is ([existsSync] does not tell a
    directory from a file; a directory is not sent). *)
Definition get_report (__dirname : string) (config : Config.t)
    (existsSync : string -> bool) (filename : string) : Response :=
  let filepath :=
    path.join [__dirname; ".."; Config.reportOutputDir config; filename] in
  if negb (existsSync filepath)
  then StatusJson 404 "Report not found"
  else if refused filepath
  then StatusJson 500 "Internal server error"
  else Download filepath.

End Server.

(** ** Notions of the specification

    The severity mapping in the words of the specification, and the
    quantities its properties of the score are stated with. *)

Module Spec.

(** The mapping of section 4.1: error to critical, warning to serious,
    notice to moderate, info to minor, and any other engine severity to
    minor. *)
Definition bucket (engineSeverity : string) : string :=
  if String.eqb engineSeverity "error" then "critical"
  else if String.eqb engineSeverity "warning" then "serious"
  else if String.eqb engineSeverity "notice" then "moderate"
  else "minor".

(** Number of issues held by an issue set. *)
Definition size (issues : IssueSet.t) : Z :=
  len (IssueSet.critical issues) + len (IssueSet.serious issues)
  + len (IssueSet.moderate issues) + len (IssueSet.minor issues).

(** The weighted penalty of an issue set. *)
Definition points (issues : IssueSet.t) : Z :=
  100 * len (IssueSet.critical issues) + 50 * len (IssueSet.serious issues)
  + 20 * len (IssueSet.moderate issues) + 5 * len (IssueSet.minor issues).

(** The percentage before rounding, in exact arithmetic. *)
Definition exact_percentage (issues : IssueSet.t) : Q :=
  (inject_Z (100 * size issues - points issues)
   / inject_Z (100 * size issues) * inject_Z 100)%Q.

(** The rounding of section 4.2: to the nearest integer, a tie (a value
    halfway between two integers) going up or to the even neighbour. *)
Definition round_half_up (q : Q) : Z := Qfloor (q + (1 # 2)).

Definition round_half_even (q : Q) : Z := Double.rne q.

Definition tie (q : Q) : Prop := (q - inject_Z (Qfloor q) == 1 # 2)%Q.

(** An issue set with one more critical issue, and with one more minor
    issue. *)
Definition add_critical (issues : IssueSet.t) (x : Issue.t) : IssueSet.t :=
  {| IssueSet.critical := IssueSet.critical issues ++ [x];
     IssueSet.serious := IssueSet.serious issues;
     IssueSet.moderate := IssueSet.moderate issues;
     IssueSet.minor := IssueSet.minor issues |}.

Definition add_minor (issues : IssueSet.t) (x : Issue.t) : IssueSet.t :=
  {| IssueSet.critical := IssueSet.critical issues;
     IssueSet.serious := IssueSet.serious issues;
     IssueSet.moderate := IssueSet.moderate issues;
     IssueSet.minor := IssueSet.minor issues ++ [x] |}.

End Spec.

(** ** Inputs used to run the definitions *)

Module Sample.

(** The configuration of the test suites. *)
Definition test_config : Config.t :=
  {| Config.wcagLevel := "AA";
     Config.wcagVersion := "2.1";
     Config.maxCriticalIssues := JS.Num 0;
     Config.maxSeriousIssues := JS.Num 5;
     Config.maxModerateIssues := JS.Num 15;
     Config.failOnSerious := true;
     Config.reportOutputDir := "./reports";
     Config.notificationWebhook := None |}.

(** The defaults of [config.js] when the environment sets nothing. *)
Definition default_config : Config.t :=
  {| Config.wcagLevel := "AA";
     Config.wcagVersion := "2.1";
     Config.maxCriticalIssues := JS.Num 0;
     Config.maxSeriousIssues := JS.Num 5;
     Config.maxModerateIssues := JS.Num 15;
     Config.failOnSerious := false;
     Config.reportOutputDir := "./reports";
     Config.notificationWebhook := None |}.

(** [MAX_CRITICAL_ISSUES=2] on top of the defaults. *)
Definition lenient_config : Config.t :=
  {| Config.wcagLevel := "AA";
     Config.wcagVersion := "2.1";
     Config.maxCriticalIssues := JS.Num 2;
     Config.maxSeriousIssues := JS.Num 5;
     Config.maxModerateIssues := JS.Num 15;
     Config.failOnSerious := false;
     Config.reportOutputDir := "./reports";
     Config.notificationWebhook := None |}.

(** An audit result carrying the given counts, in the way the test suite
    and the compliance-check script build one. *)
Definition audit (critical serious moderate minor compliance : Z)
    (status : Status) : AuditResult.t :=
  {| AuditResult.url := "Online Banking";
     AuditResult.timestamp := JS.toISOString 1767225600000;
     AuditResult.wcagLevel := "AA";
     AuditResult.wcagVersion := "2.1";
     AuditResult.summary :=
       {| Summary.total := critical + serious + moderate + minor;
          Summary.critical := critical;
          Summary.serious := serious;
          Summary.moderate := moderate;
          Summary.minor := minor |};
     AuditResult.issues := IssueSet.empty;
     AuditResult.status := status;
     AuditResult.compliance := compliance |}.

Definition world (now : Z) : World :=
  {| clock := now; logLevel := "info"; logged := [] |}.

Definition finding (severity rule : string) : Pa11y.issue :=
  {| Pa11y.code := rule;
     Pa11y.message := "Fix any of the following";
     Pa11y.type := severity;
     Pa11y.selector := Some "main > form" |}.

Definition issue : Issue.t :=
  {| Issue.code := "label";
     Issue.message := "Form elements must have labels";
     Issue.type := "error";
     Issue.selector := None;
     Issue.wcagLevel := JS.Str "A";
     Issue.wcagCriteria := JS.Str "WCAG 2.1 Level A - 1.3.1 Info and Relationships" |}.

(** What the engine returns for a page titled "Online Banking - Login"
    reached at [https://bank.example/login]. *)
Definition scan (findings : list Pa11y.issue) : Pa11y.result :=
  {| Pa11y.documentTitle := "Online Banking - Login";
     Pa11y.pageUrl := "https://bank.example/login";
     Pa11y.issues := findings |}.

(** An issue set with the given number of issues in each bucket. *)
Definition issues (critical serious moderate minor : nat) : IssueSet.t :=
  {| IssueSet.critical := repeat issue critical;
     IssueSet.serious := repeat issue serious;
     IssueSet.moderate := repeat issue moderate;
     IssueSet.minor := repeat issue minor |}.

(** A deployment: the sources live in [/app/src], and next to the
    reports the application directory holds its [.env] file. *)
Definition dirname : string := "/app/src".

Definition existsSync (p : string) : bool :=
  String.eqb p "/app/reports/compliance-report-2026-01-01.json"
  || String.eqb p "/app/.env"
  || String.eqb p "/app/outside.txt".

End Sample.

(** ** More of the JavaScript library, for the remaining sources *)

Module Lib.

(** [s.startsWith(p)], [s.endsWith(p)] and [s.includes(p)]. *)
Definition startsWith (s p : string) : bool := String.prefix p s.

Definition endsWith (s p : string) : bool :=
  let n := String.length s in
  let m := String.length p in
  (m <=? n)%nat && String.eqb (String.substring (n - m) m s) p.

Fixpoint includes (s p : string) : bool :=
  String.prefix p s
  || match s with
     | EmptyString => false
     | String _ rest => includes rest p
     end.

(** [arr.slice(-n)]: the last [n] elements, all of them when there are
    fewer. *)
Definition slice_last {A} (n : nat) (arr : list A) : list A :=
  skipn (length arr - n) arr.

(** A continuation byte of UTF-8, as the six bits it carries. *)
Definition continuation (c : ascii) : option N :=
  let b := N_of_ascii c in
  if ((128 <=? b) && (b <? 192))%N then Some (b - 128)%N else None.

(** The UTF-16 code units of a string. A string of the sources is held
    here in UTF-8: a character of the basic plane is one unit, a character
    beyond it is a pair of surrogates. Bytes that form no character are
    read as a UTF-8 decoder reads them: the longest start of a character
    counts as one U+FFFD, and reading goes on at the byte that does not
    continue it. *)
Fixpoint units (s : string) : list N :=
  match s with
  | EmptyString => []
  | String c rest =>
      let b := N_of_ascii c in
      if (b <? 128)%N then b :: units rest
      else if (b <? 194)%N then 65533%N :: units rest
      else if (b <? 224)%N then
        match rest with
        | String c1 rest1 =>
            match continuation c1 with
            | Some x1 => ((b - 192) * 64 + x1)%N :: units rest1
            | None => 65533%N :: units rest
            end
        | EmptyString => 65533%N :: units rest
        end
      else if (b <? 240)%N then
        match rest with
        | String c1 rest1 =>
            match continuation c1 with
            | Some x1 =>
                let high := ((b - 224) * 4096 + x1 * 64)%N in
                if ((2048 <=? high)
                    && negb ((55296 <=? high) && (high <? 57344)))%N
                then
                  match rest1 with
                  | String c2 rest2 =>
                      match continuation c2 with
                      | Some x2 => (high + x2)%N :: units rest2
                      | None => 65533%N :: units rest1
                      end
                  | EmptyString => 65533%N :: units rest1
                  end
                else 65533%N :: units rest
            | None => 65533%N :: units rest
            end
        | EmptyString => 65533%N :: units rest
        end
      else if (b <? 245)%N then
        match rest with
        | String c1 rest1 =>
            match continuation c1 with
            | Some x1 =>
                let high := ((b - 240) * 262144 + x1 * 4096)%N in
                if ((65536 <=? high) && (high <? 1114112))%N
                then
                  match rest1 with
                  | String c2 rest2 =>
                      match continuation c2 with
                      | Some x2 =>
                          match rest2 with
                          | String c3 rest3 =>
                              match continuation c3 with
                              | Some x3 =>
                                  let cp := (high + x2 * 64 + x3)%N in
                                  (55296 + (cp - 65536) / 1024)%N
                                  :: (56320 + (cp - 65536) mod 1024)%N
                                  :: units rest3
                              | None => 65533%N :: units rest2
                              end
                          | EmptyString => 65533%N :: units rest2
                          end
                      | None => 65533%N :: units rest1
                      end
                  | EmptyString => 65533%N :: units rest1
                  end
                else 65533%N :: units rest
            | None => 65533%N :: units rest
            end
        | EmptyString => 65533%N :: units rest
        end
      else 65533%N :: units rest
  end.

(** The order of strings: that of their code units, the first difference
    deciding and a proper prefix coming first. *)
Fixpoint compare_units (a b : list N) : comparison :=
  match a, b with
  | [], [] => Eq
  | [], _ :: _ => Lt
  | _ :: _, [] => Gt
  | x :: a', y :: b' =>
      match (x ?= y)%N with
      | Eq => compare_units a' b'
      | other => other
      end
  end.

Definition compare (s1 s2 : string) : comparison :=
  compare_units (units s1) (units s2).

(** [s1 <= s2] on strings. *)
Definition leb (s1 s2 : string) : bool :=
  match compare s1 s2 with
  | Gt => false
  | _ => true
  end.

(** [arr.sort()] on strings: ascending in the order of the code units. *)
Fixpoint sort_insert (x : string) (sorted : list string) : list string :=
  match sorted with
  | [] => [x]
  | y :: rest =>
      if leb x y then x :: sorted else y :: sort_insert x rest
  end.

Fixpoint sort (arr : list string) : list string :=
  match arr with
  | [] => []
  | x :: rest => sort_insert x (sort rest)
  end.

(** Decimal digits of [n >= 0], padded with zeros on the left to [width]
    characters. *)
Definition pad (width : nat) (n : Z) : string :=
  let digits := JS.num_to_string n in
  (String.concat EmptyString
     (repeat "0" (width - String.length digits)) ++ digits)%string.

(** Year, month and day of the day that lies [days] days after
    1970-01-01, in the proleptic Gregorian calendar. *)
Definition civil_from_days (days : Z) : Z * Z * Z :=
  let z := days + 719468 in
  let era := z / 146097 in
  let doe := z - era * 146097 in
  let yoe := (doe - doe / 1460 + doe / 36524 - doe / 146096) / 365 in
  let doy := doe - (365 * yoe + yoe / 4 - yoe / 100) in
  let mp := (5 * doy + 2) / 153 in
  let d := doy - (153 * mp + 2) / 5 + 1 in
  let m := if mp <? 10 then mp + 3 else mp - 9 in
  let y := yoe + era * 400 + (if m <=? 2 then 1 else 0) in
  (y, m, d).

(** [new Date(t).toISOString().replace(/[:.]/g, '-').split('T')[0]]: the
    date part of the ISO rendering of the instant [t], in UTC. Years
    outside 0..9999 are written with a sign and six digits. *)
Definition isoDate (t : Z) : string :=
  let '(y, m, d) := civil_from_days (t / 86400000) in
  let year :=
    if (0 <=? y) && (y <=? 9999) then pad 4 y
    else if y <? 0 then ("-" ++ pad 6 (- y))%string
    else ("+" ++ pad 6 y)%string in
  (year ++ "-" ++ pad 2 m ++ "-" ++ pad 2 d)%string.

End Lib.

(** ** auditor.js: the state of an auditor object *)

Module AuditorObject.

(** [this.results]: [null] until an audit has succeeded. *)
Definition state : Type := option AuditResult.t.

Definition initial : state := None.

(** [audit(url)] on the object: the result of a successful audit is kept in
    [this.results]; when the scan or the classification throws, the
    assignment is not reached. *)
Definition audit (config : Config.t)
    (pa11y : string -> string -> World -> Completion Pa11y.result * World)
    (url : string) (this : state) (w : World)
  : Completion AuditResult.t * state * World :=
  let (outcome, w') := AccessibilityAuditor.audit config pa11y url w in
  match outcome with
  | Return results => (Return results, Some results, w')
  | Throw error => (Throw error, this, w')
  end.

(** [isPassed()]: [this.results && this.results.status === 'PASSED'];
    [None] is the [null] it returns while there are no results. *)
Definition isPassed (this : state) : option bool :=
  match this with
  | None => None
  | Some results =>
      Some (match AuditResult.status results with
            | PASSED => true
            | FAILED => false
            end)
  end.

(** [getSummary()] and [getIssues()]. *)
Definition getSummary (this : state) : option Summary.t :=
  match this with
  | None => None
  | Some results => Some (AuditResult.summary results)
  end.

Definition getIssues (this : state) : option IssueSet.t :=
  match this with
  | None => None
  | Some results => Some (AuditResult.issues results)
  end.

End AuditorObject.

(** ** The file system, as the report generator, the compliance-check
    script and the server use it

    The functions of Node's [fs] module as the sources call them: paths
    and directory entries are the strings the sources pass and receive. *)

Module Fs.
Record t : Type := {
  existsSync : string -> bool;
  mkdirSync : string -> Completion unit;
  (* [writeFileSync(path, JSON.stringify(report, null, 2))] *)
  writeReport : string -> JsonReport.t -> Completion unit;
  readdirSync : string -> Completion (list string);
  (* [statSync(path).mtime], in milliseconds *)
  mtime : string -> Completion Z;
  (* [JSON.parse(readFileSync(path, 'utf-8'))], read as a report *)
  readReport : string -> Completion JsonReport.t
}.
End Fs.

(** ** reportGenerator.js: writing the JSON report *)

Module ReportFiles.

(** [ensureOutputDir()], run by the constructor. *)
Definition ensureOutputDir (__dirname : string) (config : Config.t)
    (fs : Fs.t) (w : World) : Completion unit * World :=
  let outputDir := path.join [__dirname; ".."; Config.reportOutputDir config] in
  if negb (Fs.existsSync fs outputDir) then
    match Fs.mkdirSync fs outputDir with
    | Return _ =>
        (Return tt,
         logger_info ("Created report output directory: " ++ outputDir)%string
           [] w)
    | Throw error => (Throw error, w)
    end
  else (Return tt, w).

(** The name of the JSON report written at the instant [t]. *)
Definition jsonReportName (t : Z) : string :=
  ("compliance-report-" ++ Lib.isoDate t ++ ".json")%string.

(** The name of the HTML report written at the instant [t]. *)
Definition htmlReportName (t : Z) : string :=
  ("compliance-report-" ++ Lib.isoDate t ++ ".html")%string.

(** [generateReport(auditResults)]: the path written and the report. *)
Definition generateReport (__dirname : string) (config : Config.t)
    (fs : Fs.t) (auditResults : AuditResult.t) (w : World)
  : Completion (string * JsonReport.t) * World :=
  let filename := jsonReportName (clock w) in
  let filepath :=
    path.join [__dirname; ".."; Config.reportOutputDir config; filename] in
  let report := ReportGenerator._buildReport config auditResults w in
  match Fs.writeReport fs filepath report with
  | Return _ =>
      (Return (filepath, report),
       logger_info ("Report generated: " ++ filepath)%string [] w)
  | Throw error =>
      (Throw error,
       logger_error
         ("Failed to generate report: " ++ JS.error_message error)%string [] w)
  end.

End ReportFiles.

(** ** The compliance-check script of the pipeline *)

Module CheckScript.

(** What the process leaves: its exit code and the lines it printed. *)
Record outcome : Type := {
  exitCode : Z;
  printed : list string
}.

Definition isReportName (f : string) : bool :=
  Lib.startsWith f "compliance-report" && Lib.endsWith f ".json".

(** [readdirSync(dir).filter(...).sort().reverse()]. *)
Definition candidates (names : list string) : list string :=
  rev (Lib.sort (filter isReportName names)).

(** The audit results the script rebuilds from a report. The object it
    builds has no [timestamp], [wcagLevel] or [wcagVersion]; [absent]
    stands for them, and nothing the script calls reads them. *)
Definition rebuild (absent : JS.IsoString * string * string)
    (report : JsonReport.t) : AuditResult.t :=
  {| AuditResult.url := JsonReport.url (JsonReport.r_auditResults report);
     AuditResult.timestamp := fst (fst absent);
     AuditResult.wcagLevel := snd (fst absent);
     AuditResult.wcagVersion := snd absent;
     AuditResult.summary :=
       {| Summary.total := JsonReport.total_issues (JsonReport.r_summary report);
          Summary.critical := JsonReport.critical (JsonReport.r_summary report);
          Summary.serious := JsonReport.serious (JsonReport.r_summary report);
          Summary.moderate := JsonReport.moderate (JsonReport.r_summary report);
          Summary.minor := JsonReport.minor (JsonReport.r_summary report) |};
     AuditResult.issues := JsonReport.r_issues report;
     AuditResult.status := JsonReport.status (JsonReport.r_auditResults report);
     AuditResult.compliance :=
       JsonReport.complianceScore (JsonReport.r_auditResults report) |}.

Definition rule : string :=
  "═══════════════════════════════════════".

(** What the [catch] of the script does with an exception. *)
Definition failed (error : JS.Error) (w : World) : outcome * World :=
  ({| exitCode := 1;
      printed := [("❌ Error: " ++ JS.error_message error)%string] |},
   logger_error
     ("Compliance check error: " ++ JS.error_message error)%string [] w).

(** [checkCompliance()]. *)
Definition checkCompliance (__dirname : string) (config : Config.t)
    (fs : Fs.t) (absent : JS.IsoString * string * string) (w : World)
  : outcome * World :=
  let reportsDir := path.join [__dirname; ".."; Config.reportOutputDir config] in
  if negb (Fs.existsSync fs reportsDir) then
    ({| exitCode := 1;
        printed := ["❌ No reports directory found. Run audit first."] |}, w)
  else
    match Fs.readdirSync fs reportsDir with
    | Throw error => failed error w
    | Return names =>
        match candidates names with
        | [] =>
            ({| exitCode := 1;
                printed :=
                  ["❌ No compliance reports found. Run audit first."] |}, w)
        | latest :: _ =>
            let latestReportPath := path.join [reportsDir; latest] in
            match Fs.readReport fs latestReportPath with
            | Throw error => failed error w
            | Return report =>
                let auditResults := rebuild absent report in
                let (complianceResult, w') :=
                  ComplianceChecker.check config auditResults w in
                ({| exitCode :=
                      if ComplianceResult.passed complianceResult then 0 else 1;
                    printed :=
                      [ (ComplianceChecker.newline ++ rule)%string;
                        "COMPLIANCE CHECK RESULTS";
                        (rule ++ ComplianceChecker.newline)%string;
                        ("Status: "
                         ++ (if ComplianceResult.passed complianceResult
                             then "✅ PASSED" else "❌ FAILED")
                         ++ ComplianceChecker.newline)%string ]
                      ++ map (fun msg =>
                                ("  " ++ match msg with
                                         | Some m => m
                                         | None => "undefined"
                                         end)%string)
                             (Report.summary
                                (ComplianceResult.report complianceResult))
                      ++ [ (ComplianceChecker.newline ++ rule
                            ++ ComplianceChecker.newline)%string ] |},
                 w')
            end
        end
    end.

End CheckScript.

(** ** server.js: the state of the service and its other routes *)

Module Api.

Record AuditRecord : Type := {
  id : string;
  timestamp : JS.IsoString;
  url : string;
  status : Status;
  complianceScore : Z;
  summary : Summary.t;
  compliancePassed : bool;
  reportPath : string
}.

(** [latestAudit] and [auditHistory]. *)
Record State : Type := {
  latestAudit : option AuditRecord;
  auditHistory : list AuditRecord
}.

Definition initial : State := {| latestAudit := None; auditHistory := [] |}.

Record ReportEntry : Type := {
  name : string;
  path : string;
  created : Z
}.

(** What a handler sends. *)
Inductive Body : Type :=
| Health (status message : string)
| Error (error : string)
| Audit (record : AuditRecord)
| History (records : list AuditRecord)
| Ran (success : bool) (audit : AuditRecord)
      (compliance : ComplianceResult.t) (auditDetails : AuditResult.t)
| Thresholds (wcagLevel : string)
             (maxCriticalIssues maxSeriousIssues maxModerateIssues : JS.number)
| Reports (reports : list ReportEntry)
| File (filepath : string).

Record Response : Type := {
  code : Z;
  body : Body
}.

(** What the process was started with. *)
Record Env : Type := {
  __dirname : string;
  config : Config.t;
  fs : Fs.t;
  pa11y : string -> string -> World -> Completion Pa11y.result * World
}.

(** [GET /api/health] *)
Definition health : Response :=
  {| code := 200; body := Health "ok" "Auditor API running" |}.

(** [GET /api/audit/latest] *)
Definition latest (st : State) : Response :=
  match latestAudit st with
  | None => {| code := 404; body := Error "No audit results available" |}
  | Some record => {| code := 200; body := Audit record |}
  end.

(** [GET /api/audit/history] *)
Definition history (st : State) : Response :=
  {| code := 200; body := History (Lib.slice_last 20 (auditHistory st)) |}.

(** [GET /api/audit/:id] *)
Definition byId (st : State) (wanted : string) : Response :=
  match find (fun a => String.eqb (id a) wanted) (auditHistory st) with
  | None => {| code := 404; body := Error "Audit not found" |}
  | Some audit => {| code := 200; body := Audit audit |}
  end.

(** The [catch] of [POST /api/audit/run]. *)
Definition runFailed (error : JS.Error) (st : State) (w : World)
  : Response * State * World :=
  ({| code := 500; body := Error (JS.error_message error) |},
   st,
   logger_error ("Audit API error: " ++ JS.error_message error)%string [] w).

(** [POST /api/audit/run]; [url] is [req.body.url], [None] when the body
    has none. *)
Definition run (env : Env) (url : option string) (st : State) (w : World)
  : Response * State * World :=
  match url with
  | None => ({| code := 400; body := Error "URL is required" |}, st, w)
  | Some url =>
      if String.eqb url EmptyString then
        ({| code := 400; body := Error "URL is required" |}, st, w)
      else
        let w0 := logger_info ("API request to audit: " ++ url)%string [] w in
        let (audited, w1) :=
          AccessibilityAuditor.audit (config env) (pa11y env) url w0 in
        match audited with
        | Throw error => runFailed error st w1
        | Return auditResults =>
            let (complianceResult, w2) :=
              ComplianceChecker.check (config env) auditResults w1 in
            let (made, w3) :=
              ReportFiles.ensureOutputDir (__dirname env) (config env)
                (fs env) w2 in
            match made with
            | Throw error => runFailed error st w3
            | Return _ =>
                let (written, w4) :=
                  ReportFiles.generateReport (__dirname env) (config env)
                    (fs env) auditResults w3 in
                match written with
                | Throw error => runFailed error st w4
                | Return (filepath, _) =>
                    let auditRecord :=
                      {| id := JS.num_to_string (clock w4);
                         timestamp := JS.toISOString (clock w4);
                         url := url;
                         status := AuditResult.status auditResults;
                         complianceScore :=
                           AuditResult.compliance auditResults;
                         summary := AuditResult.summary auditResults;
                         compliancePassed :=
                           ComplianceResult.passed complianceResult;
                         reportPath := filepath |} in
                    ({| code := 200;
                        body := Ran true auditRecord complianceResult
                                    auditResults |},
                     {| latestAudit := Some auditRecord;
                        auditHistory := auditHistory st ++ [auditRecord] |},
                     w4)
                end
            end
        end
  end.

(** [GET /api/config/thresholds] *)
Definition thresholds (env : Env) : Response :=
  {| code := 200;
     body := Thresholds (Config.wcagLevel (config env))
               (Config.maxCriticalIssues (config env))
               (Config.maxSeriousIssues (config env))
               (Config.maxModerateIssues (config env)) |}.

(** [reports.sort((a, b) => b.created - a.created)]: newest first, entries
    of the same instant in their order of arrival. *)
Fixpoint insertNewestFirst (x : ReportEntry) (sorted : list ReportEntry)
  : list ReportEntry :=
  match sorted with
  | [] => [x]
  | y :: rest =>
      if created y <=? created x then x :: sorted
      else y :: insertNewestFirst x rest
  end.

Fixpoint newestFirst (reports : list ReportEntry) : list ReportEntry :=
  match reports with
  | [] => []
  | x :: rest => insertNewestFirst x (newestFirst rest)
  end.

(** [files.map(file => ({ name, path, created }))], which stops at the
    first [statSync] that throws. *)
Fixpoint entries (fs : Fs.t) (reportsDir : string) (files : list string)
  : Completion (list ReportEntry) :=
  match files with
  | [] => Return []
  | file :: rest =>
      JS.bind (Fs.mtime fs (path.join [reportsDir; file])) (fun time =>
      JS.bind (entries fs reportsDir rest) (fun others =>
      Return ({| name := file;
                 path := ("/reports/" ++ file)%string;
                 created := time |} :: others)))
  end.

(** [GET /api/reports] *)
Definition reports (env : Env) : Response :=
  let reportsDir :=
    path.join [__dirname env; ".."; Config.reportOutputDir (config env)] in
  if negb (Fs.existsSync (fs env) reportsDir) then
    {| code := 200; body := Reports [] |}
  else
    match
      JS.bind (Fs.readdirSync (fs env) reportsDir) (fun names =>
        entries (fs env) reportsDir
          (filter (fun f => Lib.endsWith f ".json") names))
    with
    | Return listed => {| code := 200; body := Reports (newestFirst listed) |}
    | Throw error => {| code := 500; body := Error (JS.error_message error) |}
    end.

(** [GET /reports/:filename], in the terms of this module. The error
    handler that answers 500 logs the error it was passed, the 404 of
    the refusal. *)
Definition download (env : Env) (filename : string) (w : World)
  : Response * World :=
  match Server.get_report (__dirname env) (config env)
          (Fs.existsSync (fs env)) filename with
  | Server.StatusJson status error =>
      ({| code := status; body := Error error |},
       if status =? 500 then logger_error "Express error: Not Found" [] w
       else w)
  | Server.Download filepath => ({| code := 200; body := File filepath |}, w)
  end.

(** A request, once routed. *)
Inductive Request : Type :=
| GetHealth
| GetLatest
| GetHistory
| GetAudit (id : string)
| PostRun (url : option string)
| GetThresholds
| GetReports
| GetReport (filename : string).

Definition handle (env : Env) (request : Request) (st : State) (w : World)
  : Response * State * World :=
  match request with
  | GetHealth => (health, st, w)
  | GetLatest => (latest st, st, w)
  | GetHistory => (history st, st, w)
  | GetAudit wanted => (byId st wanted, st, w)
  | PostRun url => run env url st w
  | GetThresholds => (thresholds env, st, w)
  | GetReports => (reports env, st, w)
  | GetReport filename =>
      let (response, w') := download env filename w in (response, st, w')
  end.

(** The service after a sequence of requests, the clock moving by
    [elapsed] before each one. *)
Fixpoint serve (env : Env) (requests : list (Z * Request)) (st : State)
    (w : World) : State * World :=
  match requests with
  | [] => (st, w)
  | (elapsed, request) :: rest =>
      let '(_, st', w') := handle env request st (elapse elapsed w) in
      serve env rest st' w'
  end.

End Api.

(** ** config.js: the configuration read from the environment *)

Module EnvConfig.

(** [process.env]: a variable is a string or is not set. *)
Definition env : Type := string -> option string.

(** [v || d] on a string that may be [undefined]. *)
Definition or_default (v : option string) (d : string) : string :=
  match v with
  | Some s => if String.eqb s EmptyString then d else s
  | None => d
  end.

(** [v === 'true']. *)
Definition is_true (v : option string) : bool :=
  match v with
  | Some s => String.eqb s "true"
  | None => false
  end.

(** The white space and line terminators that [parseInt] skips, in their
    UTF-8 bytes. *)
Fixpoint skipWhiteSpace (s : string) : string :=
  match s with
  | String c rest =>
      let b := nat_of_ascii c in
      if (b =? 9)%nat || (b =? 10)%nat || (b =? 11)%nat || (b =? 12)%nat
         || (b =? 13)%nat || (b =? 32)%nat
      then skipWhiteSpace rest
      else
        match rest with
        | String c2 rest2 =>
            let b2 := nat_of_ascii c2 in
            if (b =? 194)%nat && (b2 =? 160)%nat then skipWhiteSpace rest2
            else
              match rest2 with
              | String c3 rest3 =>
                  let b3 := nat_of_ascii c3 in
                  if ((b =? 225)%nat && (b2 =? 154)%nat && (b3 =? 128)%nat)
                     || ((b =? 226)%nat && (b2 =? 128)%nat
                         && ((128 <=? b3)%nat && (b3 <=? 138)%nat
                             || (b3 =? 168)%nat || (b3 =? 169)%nat
                             || (b3 =? 175)%nat))
                     || ((b =? 226)%nat && (b2 =? 129)%nat && (b3 =? 159)%nat)
                     || ((b =? 227)%nat && (b2 =? 128)%nat && (b3 =? 128)%nat)
                     || ((b =? 239)%nat && (b2 =? 187)%nat && (b3 =? 191)%nat)
                  then skipWhiteSpace rest3
                  else s
              | EmptyString => s
              end
        | EmptyString => s
        end
  | EmptyString => s
  end.

(** The value of a character as a digit of the radix, if it is one. *)
Definition digit (radix : Z) (c : ascii) : option Z :=
  let b := Z.of_nat (nat_of_ascii c) in
  let v :=
    if (48 <=? b) && (b <=? 57) then b - 48
    else if (97 <=? b) && (b <=? 122) then b - 87
    else if (65 <=? b) && (b <=? 90) then b - 55
    else radix in
  if v <? radix then Some v else None.

(** The digits at the head of [s], read in the radix: nothing when there
    is none. *)
Fixpoint digits (radix : Z) (s : string) (acc : option Z) : option Z :=
  match s with
  | String c rest =>
      match digit radix c with
      | Some v =>
          digits radix rest
            (Some (match acc with Some a => a * radix + v | None => v end))
      | None => acc
      end
  | EmptyString => acc
  end.

(** [parseInt(s)] without a radix: white space, a sign, [0x] or [0X] for
    radix 16, then the longest run of digits. The integer read is exact;
    the source's number is the double nearest to it, the same below
    [2^53]. *)
Definition parseInt (s : string) : JS.number :=
  let s := skipWhiteSpace s in
  let (negative, s) :=
    match s with
    | String c rest =>
        if Ascii.eqb c "-" then (true, rest)
        else if Ascii.eqb c "+" then (false, rest)
        else (false, s)
    | EmptyString => (false, s)
    end in
  let (radix, s) :=
    match s with
    | String c1 (String c2 rest) =>
        if Ascii.eqb c1 "0" && (Ascii.eqb c2 "x" || Ascii.eqb c2 "X")
        then (16, rest) else (10, s)
    | _ => (10, s)
    end in
  match digits radix s None with
  | Some n => JS.Num (if negative then - n else n)
  | None => JS.NaN
  end.

(** The exported [config] object. *)
Record t : Type := {
  auditUrl : string;
  wcagLevel : string;
  wcagVersion : string;
  apiKey : option string;
  apiSecret : option string;
  apiEndpoint : option string;
  maxCriticalIssues : JS.number;
  maxSeriousIssues : JS.number;
  maxModerateIssues : JS.number;
  reportFormat : string;
  reportOutputDir : string;
  includeScreenshots : bool;
  logLevel : string;
  logFile : string;
  failOnCritical : bool;
  failOnSerious : bool;
  notificationWebhook : option string;
  nodeEnv : string;
  strictMode : bool
}.

(** The object literal of [config.js], over the environment that
    [dotenv] has completed. *)
Definition load (e : env) : t :=
  {| auditUrl := or_default (e "AUDIT_URL") "http://localhost:3000";
     wcagLevel := or_default (e "WCAG_LEVEL") "AA";
     wcagVersion := or_default (e "WCAG_VERSION") "2.1";
     apiKey := e "API_KEY";
     apiSecret := e "API_SECRET";
     apiEndpoint := e "API_ENDPOINT";
     maxCriticalIssues := parseInt (or_default (e "MAX_CRITICAL_ISSUES") "0");
     maxSeriousIssues := parseInt (or_default (e "MAX_SERIOUS_ISSUES") "5");
     maxModerateIssues := parseInt (or_default (e "MAX_MODERATE_ISSUES") "15");
     reportFormat := or_default (e "REPORT_FORMAT") "json";
     reportOutputDir := or_default (e "REPORT_OUTPUT_DIR") "./reports";
     includeScreenshots := is_true (e "INCLUDE_SCREENSHOTS");
     logLevel := or_default (e "LOG_LEVEL") "info";
     logFile := or_default (e "LOG_FILE") "./logs/audit.log";
     failOnCritical := is_true (e "FAIL_ON_CRITICAL");
     failOnSerious := is_true (e "FAIL_ON_SERIOUS");
     notificationWebhook := e "NOTIFICATION_WEBHOOK";
     nodeEnv := or_default (e "NODE_ENV") "development";
     strictMode := is_true (e "STRICT_MODE") |}.

(** Truthiness of a string that may be [undefined]. *)
Definition present (v : option string) : bool :=
  match v with
  | Some s => negb (String.eqb s EmptyString)
  | None => false
  end.

(** [validateConfig()]: [true], or the error with the messages joined by
    line feeds. *)
Definition validateConfig (config : t) : Completion bool :=
  let errors :=
    (if String.eqb (auditUrl config) EmptyString
     then ["AUDIT_URL environment variable is required"] else [])
    ++ (if strictMode config && negb (present (apiKey config))
        then ["API_KEY environment variable is required in strict mode"]
        else []) in
  if (0 <? Z.of_nat (length errors)) then
    Throw (OtherError
             ("Configuration validation failed:" ++ ComplianceChecker.newline
              ++ String.concat ComplianceChecker.newline errors)%string)
  else Return true.

(** The fields that the auditor, the checker, the report generator and the
    server read. *)
Definition runtime (config : t) : Config.t :=
  {| Config.wcagLevel := wcagLevel config;
     Config.wcagVersion := wcagVersion config;
     Config.maxCriticalIssues := maxCriticalIssues config;
     Config.maxSeriousIssues := maxSeriousIssues config;
     Config.maxModerateIssues := maxModerateIssues config;
     Config.failOnSerious := failOnSerious config;
     Config.reportOutputDir := reportOutputDir config;
     Config.notificationWebhook := notificationWebhook config |}.

End EnvConfig.

(** ** Notions used to state the properties of the remaining sources *)

Module Notions.

(** The object that [_processResults] pushes for a finding. *)
Definition enrich (issue : Pa11y.issue) : Issue.t :=
  {| Issue.code := Pa11y.code issue;
     Issue.message := Pa11y.message issue;
     Issue.type := Pa11y.type issue;
     Issue.selector := Pa11y.selector issue;
     Issue.wcagLevel := AccessibilityAuditor._getWCAGLevel (Pa11y.code issue);
     Issue.wcagCriteria :=
       AccessibilityAuditor._getWCAGCriteria (Pa11y.code issue) |}.

(** The finding is one that [severityMap[issue.type] || 'minor'] sends to
    the bucket of the given name. *)
Definition lands_in (bucket : string) (issue : Pa11y.issue) : bool :=
  match JS.or_else (JS.get AccessibilityAuditor.severityMap (Pa11y.type issue))
                   "minor" with
  | JS.Str category => String.eqb category bucket
  | JS.Proto _ => false
  end.

(** The rule codes the lookup tables know. *)
Definition knownCodes : list string :=
  map fst AccessibilityAuditor.levelMap.

Fixpoint has_slash (s : string) : bool :=
  match s with
  | EmptyString => false
  | String c rest => Ascii.eqb c path.slash || has_slash rest
  end.

(** A file name as a directory listing gives it: not empty, neither [.]
    nor [..], and without a slash. *)
Definition plain (name : string) : bool :=
  negb (String.eqb name EmptyString) && negb (String.eqb name ".")
  && negb (String.eqb name "..") && negb (has_slash name).

(** The last element of an array, if there is one. *)
Definition last_of {A} (arr : list A) : option A := hd_error (rev arr).

(** Every character of the string is an ASCII character. *)
Fixpoint ascii_only (s : string) : bool :=
  match s with
  | EmptyString => true
  | String c rest => (N_of_ascii c <? 128)%N && ascii_only rest
  end.

(** A list of strings in ascending order. *)
Fixpoint ascending (arr : list string) : Prop :=
  match arr with
  | [] => True
  | x :: rest =>
      (forall y, In y rest -> Lib.leb x y = true) /\ ascending rest
  end.

(** The two variables of the server agree: the latest audit is the last
    record of the history. *)
Definition in_step (st : Api.State) : Prop :=
  Api.latestAudit st = last_of (Api.auditHistory st).

(** The name of the JSON report written on the day that lies [day] days
    after 1970-01-01. *)
Definition day_name (day : Z) : string :=
  ReportFiles.jsonReportName (day * 86400000).

(** The names of the JSON reports of [n] consecutive days, from the day
    after [day] on, each come after the one before, [previous] being the
    name of [day]. *)
Fixpoint names_ascend (n : nat) (day : Z) (previous : string) : bool :=
  match n with
  | O => true
  | S k =>
      let next := ReportFiles.jsonReportName ((day + 1) * 86400000) in
      match String.compare previous next with
      | Lt => names_ascend k (day + 1) next
      | _ => false
      end
  end.


(** A file system on which every operation succeeds: the reports
    directory of [Sample.dirname] holds one report and one other file. *)
Definition disk : Fs.t :=
  {| Fs.existsSync := fun p =>
       String.eqb p "/app/reports" || Sample.existsSync p;
     Fs.mkdirSync := fun _ => Return tt;
     Fs.writeReport := fun _ _ => Return tt;
     Fs.readdirSync := fun _ =>
       Return ["compliance-report-2026-01-01.json"; "notes.txt"];
     Fs.mtime := fun _ => Return 1767225600000;
     Fs.readReport := fun _ =>
       Return (ReportGenerator._buildReport Sample.default_config
                 (Sample.audit 0 0 0 0 100 PASSED)
                 (Sample.world 1767225600000)) |}.

(** The thresholds that the two pass/fail decisions read are numbers:
    the critical one, and the serious one when [failOnSerious] is set. *)
Definition decisive_thresholds_are_numbers (config : Config.t) : Prop :=
  Config.maxCriticalIssues config <> JS.NaN
  /\ (Config.failOnSerious config = true ->
      Config.maxSeriousIssues config <> JS.NaN).

(** An environment in which the critical threshold is set to a word. *)
Definition misconfigured : EnvConfig.env :=
  fun name =>
    if String.eqb name "MAX_CRITICAL_ISSUES" then Some "abc" else None.

(** The audit result with another [url]. *)
Definition with_url (url : string) (results : AuditResult.t) : AuditResult.t :=
  {| AuditResult.url := url;
     AuditResult.timestamp := AuditResult.timestamp results;
     AuditResult.wcagLevel := AuditResult.wcagLevel results;
     AuditResult.wcagVersion := AuditResult.wcagVersion results;
     AuditResult.summary := AuditResult.summary results;
     AuditResult.issues := AuditResult.issues results;
     AuditResult.status := AuditResult.status results;
     AuditResult.compliance := AuditResult.compliance results |}.

(** The request asks for an audit to be run. *)
Definition is_run (request : Z * Api.Request) : bool :=
  match snd request with
  | Api.PostRun _ => true
  | _ => false
  end.

End Notions.

(** * Properties *)

(** ** Comparisons with a threshold *)

Lemma leb_Num (a b : Z) : JS.leb (JS.Num a) (JS.Num b) = (a <=? b).
Proof. reflexivity. Qed.

Lemma gtb_Num (a b : Z) : JS.gtb (JS.Num a) (JS.Num b) = (a >? b).
Proof. reflexivity. Qed.

Lemma le_Num (a b : Z) : JS.le (JS.Num a) (JS.Num b) <-> a <= b.
Proof. unfold JS.le. rewrite leb_Num. apply Z.leb_le. Qed.

Lemma gt_Num (a b : Z) : JS.gt (JS.Num a) (JS.Num b) <-> a > b.
Proof. unfold JS.gt. rewrite gtb_Num, Z.gtb_ltb, Z.ltb_lt. lia. Qed.

(** No two numbers are both [<=] and [>]. *)
Lemma gtb_excludes_leb (x y : JS.number) :
  JS.gtb x y = true -> JS.leb x y = false.
Proof.
  destruct x as [a |], y as [b |]; cbn; try discriminate.
  rewrite Z.gtb_ltb, Z.ltb_lt, Z.leb_gt. lia.
Qed.

(** Against a threshold that is a number, [>] is the negation of [<=]. *)
Lemma gtb_negb_leb (a : Z) (y : JS.number) :
  y <> JS.NaN -> JS.gtb (JS.Num a) y = negb (JS.leb (JS.Num a) y).
Proof.
  destruct y as [b |]; [intros _ | intros H; now elim H].
  cbn. rewrite Z.gtb_ltb. apply Z.ltb_antisym.
Qed.

(** Against [NaN] both comparisons fail. *)
Lemma compare_with_NaN (x : JS.number) :
  JS.leb x JS.NaN = false /\ JS.gtb x JS.NaN = false.
Proof. destruct x; split; reflexivity. Qed.

(** ** Threshold checker *)

Section CheckerFacts.

Variable config : Config.t.
Variable auditResults : AuditResult.t.

Let s := AuditResult.summary auditResults.
Let checks := ComplianceChecker.run_checks config auditResults.

Lemma critical_check_passed :
  ThresholdCheck.passed (Checks.criticalIssues checks)
  = JS.leb (JS.Num (Summary.critical s)) (Config.maxCriticalIssues config).
Proof. reflexivity. Qed.

Lemma serious_check_passed :
  ThresholdCheck.passed (Checks.seriousIssues checks)
  = JS.leb (JS.Num (Summary.serious s)) (Config.maxSeriousIssues config).
Proof. reflexivity. Qed.

Lemma moderate_check_passed :
  ThresholdCheck.passed (Checks.moderateIssues checks)
  = JS.leb (JS.Num (Summary.moderate s)) (Config.maxModerateIssues config).
Proof. reflexivity. Qed.

Lemma wcag_check_passed :
  WCAGCheck.passed (Checks.wcagCompliance checks)
  = (Summary.critical s =? 0).
Proof. reflexivity. Qed.

Lemma overall_pass_bool :
  ComplianceChecker._determineOverallPass config checks
  = JS.leb (JS.Num (Summary.critical s)) (Config.maxCriticalIssues config)
    && (negb (Config.failOnSerious config)
        || JS.leb (JS.Num (Summary.serious s)) (Config.maxSeriousIssues config)).
Proof.
  unfold ComplianceChecker._determineOverallPass.
  rewrite critical_check_passed, serious_check_passed.
  destruct (JS.leb (JS.Num (Summary.critical s)) (Config.maxCriticalIssues config)),
           (Config.failOnSerious config),
           (JS.leb (JS.Num (Summary.serious s)) (Config.maxSeriousIssues config));
    reflexivity.
Qed.

Lemma check_passed_field (w : World) :
  ComplianceResult.passed (fst (ComplianceChecker.check config auditResults w))
  = ComplianceChecker._determineOverallPass config checks.
Proof. reflexivity. Qed.

Lemma check_checks_field (w : World) :
  ComplianceResult.checks (fst (ComplianceChecker.check config auditResults w))
  = checks.
Proof. reflexivity. Qed.

End CheckerFacts.

(** The message of every check is a non-empty string, so the [filter] of
    [_generateComplianceReport] keeps the four checks and drops the score. *)
Lemma checkResults_are_the_four_checks (config : Config.t)
    (auditResults : AuditResult.t) :
  let checks := ComplianceChecker.run_checks config auditResults in
  Report.details (ComplianceChecker._generateComplianceReport checks)
  = [ Checks.Threshold (Checks.criticalIssues checks);
      Checks.Threshold (Checks.seriousIssues checks);
      Checks.Threshold (Checks.moderateIssues checks);
      Checks.WCAG (Checks.wcagCompliance checks) ].
Proof.
  intros checks. subst checks.
  unfold ComplianceChecker._generateComplianceReport,
    ComplianceChecker.run_checks, Checks.Object_values,
    ComplianceChecker._checkCriticalIssues,
    ComplianceChecker._checkSeriousIssues,
    ComplianceChecker._checkModerateIssues,
    ComplianceChecker._checkWCAGCompliance.
  cbn [Report.details].
  destruct (JS.leb (JS.Num (Summary.critical (AuditResult.summary auditResults)))
                   (Config.maxCriticalIssues config)),
           (JS.leb (JS.Num (Summary.serious (AuditResult.summary auditResults)))
                   (Config.maxSeriousIssues config)),
           (JS.leb (JS.Num (Summary.moderate (AuditResult.summary auditResults)))
                   (Config.maxModerateIssues config)),
           (Summary.critical (AuditResult.summary auditResults) =? 0);
    reflexivity.
Qed.

Lemma allChecksPassed_bool (config : Config.t) (auditResults : AuditResult.t) :
  let checks := ComplianceChecker.run_checks config auditResults in
  Report.allChecksPassed (ComplianceChecker._generateComplianceReport checks)
  = ThresholdCheck.passed (Checks.criticalIssues checks)
    && ThresholdCheck.passed (Checks.seriousIssues checks)
    && ThresholdCheck.passed (Checks.moderateIssues checks)
    && WCAGCheck.passed (Checks.wcagCompliance checks).
Proof.
  intros checks.
  pose proof (checkResults_are_the_four_checks config auditResults) as H.
  cbv zeta in H. fold checks in H.
  unfold ComplianceChecker._generateComplianceReport in *.
  cbn [Report.details Report.allChecksPassed] in *.
  rewrite H. cbn [forallb Checks.passed Checks.truthy_bool].
  rewrite andb_true_r, !andb_assoc. reflexivity.
Qed.

(** C1. The overall [passed] of [check] holds exactly when the critical
    count is within [maxCriticalIssues] and, if [failOnSerious] is set, the
    serious count is within [maxSeriousIssues]. It is false whenever the
    critical count exceeds its threshold, whatever [failOnSerious] is, and
    replacing the moderate-issues check, the WCAG check or the score inside
    [checks] by anything else leaves the decision unchanged. The
    comparisons are those of the source on numbers ([JS.le] and [JS.gt],
    the order of the integers when the threshold is one): against a
    threshold that is [NaN] a count is neither within nor above it, and
    [passed] is false. *)
Theorem check_passed_iff_thresholds :
  forall (config : Config.t) (auditResults : AuditResult.t) (w : World),
    (ComplianceResult.passed
       (fst (ComplianceChecker.check config auditResults w)) = true
     <->
     JS.le (JS.Num (Summary.critical (AuditResult.summary auditResults)))
           (Config.maxCriticalIssues config)
     /\ (Config.failOnSerious config = false
         \/ JS.le (JS.Num (Summary.serious (AuditResult.summary auditResults)))
                  (Config.maxSeriousIssues config)))
    /\ (JS.gt (JS.Num (Summary.critical (AuditResult.summary auditResults)))
              (Config.maxCriticalIssues config) ->
        ComplianceResult.passed
          (fst (ComplianceChecker.check config auditResults w)) = false)
    /\ (forall (m : ThresholdCheck.t) (wc : WCAGCheck.t) (score : Z),
          let checks :=
            ComplianceResult.checks
              (fst (ComplianceChecker.check config auditResults w)) in
          ComplianceChecker._determineOverallPass config
            {| Checks.criticalIssues := Checks.criticalIssues checks;
               Checks.seriousIssues := Checks.seriousIssues checks;
               Checks.moderateIssues := m;
               Checks.wcagCompliance := wc;
               Checks.complianceScore := score |}
          = ComplianceResult.passed
              (fst (ComplianceChecker.check config auditResults w)))
    /\ (forall maxCritical maxSerious : Z,
          Config.maxCriticalIssues config = JS.Num maxCritical ->
          Config.maxSeriousIssues config = JS.Num maxSerious ->
          (ComplianceResult.passed
             (fst (ComplianceChecker.check config auditResults w)) = true
           <->
           Summary.critical (AuditResult.summary auditResults) <= maxCritical
           /\ (Config.failOnSerious config = false
               \/ Summary.serious (AuditResult.summary auditResults)
                  <= maxSerious))).
Proof.
  intros config auditResults w.
  rewrite check_passed_field, overall_pass_bool. unfold JS.le, JS.gt.
  assert (Hiff :
            JS.leb (JS.Num (Summary.critical (AuditResult.summary auditResults)))
                   (Config.maxCriticalIssues config)
            && (negb (Config.failOnSerious config)
                || JS.leb
                     (JS.Num (Summary.serious (AuditResult.summary auditResults)))
                     (Config.maxSeriousIssues config)) = true
            <->
            JS.leb (JS.Num (Summary.critical (AuditResult.summary auditResults)))
                   (Config.maxCriticalIssues config) = true
            /\ (Config.failOnSerious config = false
                \/ JS.leb
                     (JS.Num (Summary.serious (AuditResult.summary auditResults)))
                     (Config.maxSeriousIssues config) = true)).
  { rewrite andb_true_iff, orb_true_iff, negb_true_iff. tauto. }
  split; [exact Hiff |]. split; [| split].
  - intros Hgt. rewrite (gtb_excludes_leb _ _ Hgt). reflexivity.
  - intros m wc score.
    rewrite check_checks_field, <- overall_pass_bool. reflexivity.
  - intros maxCritical maxSerious Hc Hs. rewrite Hiff, Hc, Hs, !leb_Num.
    rewrite !Z.leb_le. tauto.
Qed.

(** C6. The WCAG check of [check] passes exactly when there is no critical
    issue, whatever [maxCriticalIssues] is; with a threshold of 2 and one
    critical issue the critical-issues check passes and the WCAG check
    fails. *)
Theorem wcag_check_is_zero_tolerance :
  (forall (config : Config.t) (auditResults : AuditResult.t) (w : World),
      WCAGCheck.passed
        (Checks.wcagCompliance
           (ComplianceResult.checks
              (fst (ComplianceChecker.check config auditResults w)))) = true
      <-> Summary.critical (AuditResult.summary auditResults) = 0)
  /\ (exists (config : Config.t) (auditResults : AuditResult.t) (w : World)
             (maxCritical : Z),
        Config.maxCriticalIssues config = JS.Num maxCritical
        /\ maxCritical > 0
        /\ 0 < Summary.critical (AuditResult.summary auditResults)
             <= maxCritical
        /\ ThresholdCheck.passed
             (Checks.criticalIssues
                (ComplianceResult.checks
                   (fst (ComplianceChecker.check config auditResults w))))
           = true
        /\ WCAGCheck.passed
             (Checks.wcagCompliance
                (ComplianceResult.checks
                   (fst (ComplianceChecker.check config auditResults w))))
           = false).
Proof.
  split.
  - intros config auditResults w.
    rewrite check_checks_field, wcag_check_passed. apply Z.eqb_eq.
  - exists Sample.lenient_config, (Sample.audit 1 0 0 0 0 PASSED),
      (Sample.world 0), 2.
    cbn. repeat split; try reflexivity; lia.
Qed.

(** C9. [report.allChecksPassed] holds exactly when the four checks all
    passed. It is stricter than the overall [passed]: with 20 moderate
    issues against a threshold of 15, no critical issue, two serious ones
    and [failOnSerious] off, [passed] is true and [allChecksPassed] is
    false. *)
Theorem allChecksPassed_iff_four_checks :
  (forall (config : Config.t) (auditResults : AuditResult.t) (w : World),
      let r := fst (ComplianceChecker.check config auditResults w) in
      Report.allChecksPassed (ComplianceResult.report r) = true
      <->
      ThresholdCheck.passed
        (Checks.criticalIssues (ComplianceResult.checks r)) = true
      /\ ThresholdCheck.passed
           (Checks.seriousIssues (ComplianceResult.checks r)) = true
      /\ ThresholdCheck.passed
           (Checks.moderateIssues (ComplianceResult.checks r)) = true
      /\ WCAGCheck.passed
           (Checks.wcagCompliance (ComplianceResult.checks r)) = true)
  /\ (exists (config : Config.t) (auditResults : AuditResult.t) (w : World)
             (maxCritical maxSerious maxModerate : Z),
        let r := fst (ComplianceChecker.check config auditResults w) in
        Config.maxCriticalIssues config = JS.Num maxCritical
        /\ Config.maxSeriousIssues config = JS.Num maxSerious
        /\ Config.maxModerateIssues config = JS.Num maxModerate
        /\ Config.failOnSerious config = false
        /\ Summary.moderate (AuditResult.summary auditResults) > maxModerate
        /\ Summary.critical (AuditResult.summary auditResults) <= maxCritical
        /\ Summary.serious (AuditResult.summary auditResults) <= maxSerious
        /\ ComplianceResult.passed r = true
        /\ Report.allChecksPassed (ComplianceResult.report r) = false).
Proof.
  split.
  - intros config auditResults w r. subst r.
    change (ComplianceResult.report
              (fst (ComplianceChecker.check config auditResults w)))
      with (ComplianceChecker._generateComplianceReport
              (ComplianceChecker.run_checks config auditResults)).
    rewrite check_checks_field, allChecksPassed_bool.
    rewrite !andb_true_iff. tauto.
  - exists Sample.default_config, (Sample.audit 0 2 20 10 87 PASSED),
      (Sample.world 0), 0, 5, 15.
    cbn. repeat split; try reflexivity; lia.
Qed.

(** ** The two pass/fail decisions *)

(** [_determineStatus] as one boolean test. *)
Lemma determineStatus_bool (config : Config.t) (issues : IssueSet.t) :
  AccessibilityAuditor._determineStatus config issues
  = if JS.gtb (JS.Num (len (IssueSet.critical issues)))
              (Config.maxCriticalIssues config)
       || (Config.failOnSerious config
           && JS.gtb (JS.Num (len (IssueSet.serious issues)))
                     (Config.maxSeriousIssues config))
    then FAILED else PASSED.
Proof.
  unfold AccessibilityAuditor._determineStatus.
  destruct (JS.gtb (JS.Num (len (IssueSet.critical issues)))
                   (Config.maxCriticalIssues config)),
           (Config.failOnSerious config),
           (JS.gtb (JS.Num (len (IssueSet.serious issues)))
                   (Config.maxSeriousIssues config));
    reflexivity.
Qed.

(** With thresholds that are numbers, the status computed by the auditor
    and the overall pass computed by the checker follow the same rule. *)
Lemma status_agrees_for_numeric_thresholds (config : Config.t)
    (issues : IssueSet.t) (auditResults : AuditResult.t) :
  Notions.decisive_thresholds_are_numbers config ->
  Summary.critical (AuditResult.summary auditResults)
    = len (IssueSet.critical issues) ->
  Summary.serious (AuditResult.summary auditResults)
    = len (IssueSet.serious issues) ->
  (AccessibilityAuditor._determineStatus config issues = PASSED
   <->
   ComplianceChecker._determineOverallPass config
     (ComplianceChecker.run_checks config auditResults) = true).
Proof.
  intros [Hnc Hns] Hc Hs.
  rewrite determineStatus_bool, overall_pass_bool, Hc, Hs.
  rewrite (gtb_negb_leb _ _ Hnc).
  destruct (Config.failOnSerious config).
  - rewrite (gtb_negb_leb _ _ (Hns eq_refl)).
    destruct (JS.leb (JS.Num (len (IssueSet.critical issues))) _),
             (JS.leb (JS.Num (len (IssueSet.serious issues))) _);
      cbn; split; congruence.
  - destruct (JS.leb (JS.Num (len (IssueSet.critical issues))) _);
      cbn; split; congruence.
Qed.

(** With a critical threshold that is not a number and [failOnSerious]
    off, the auditor passes every issue set and the checker fails every
    audit result. *)
Lemma decisions_with_NaN_threshold (config : Config.t) (issues : IssueSet.t)
    (auditResults : AuditResult.t) :
  Config.maxCriticalIssues config = JS.NaN ->
  Config.failOnSerious config = false ->
  AccessibilityAuditor._determineStatus config issues = PASSED
  /\ ComplianceChecker._determineOverallPass config
       (ComplianceChecker.run_checks config auditResults) = false.
Proof.
  intros Hnan Hf.
  rewrite determineStatus_bool, overall_pass_bool, Hnan, Hf.
  split; reflexivity.
Qed.

(** C5 fails on the code when a threshold is not a number. [config.js]
    reads the thresholds with [parseInt] and does not validate them: with
    [MAX_CRITICAL_ISSUES=abc] the critical threshold is [NaN], against
    which a count is neither [>] nor [<=]. [_determineStatus] then
    answers [PASSED] for every issue set and [_determineOverallPass]
    answers [false] for every audit result, a page without findings
    included. With thresholds that are numbers the two rules agree. *)
Theorem status_and_overall_pass_diverge_on_NaN_threshold :
  let config := EnvConfig.runtime (EnvConfig.load Notions.misconfigured) in
  Config.maxCriticalIssues config = JS.NaN
  /\ (forall (issues : IssueSet.t) (auditResults : AuditResult.t),
        AccessibilityAuditor._determineStatus config issues = PASSED
        /\ ComplianceChecker._determineOverallPass config
             (ComplianceChecker.run_checks config auditResults) = false)
  /\ (exists results : AuditResult.t,
        AccessibilityAuditor._processResults config (Sample.scan [])
          (Sample.world 1767225600000) = Return results
        /\ AuditResult.status results = PASSED
        /\ ComplianceResult.passed
             (fst (ComplianceChecker.check config results
                     (Sample.world 1767225600000))) = false)
  /\ (forall (config : Config.t) (issues : IssueSet.t)
             (auditResults : AuditResult.t),
        Notions.decisive_thresholds_are_numbers config ->
        Summary.critical (AuditResult.summary auditResults)
          = len (IssueSet.critical issues) ->
        Summary.serious (AuditResult.summary auditResults)
          = len (IssueSet.serious issues) ->
        (AccessibilityAuditor._determineStatus config issues = PASSED
         <->
         ComplianceChecker._determineOverallPass config
           (ComplianceChecker.run_checks config auditResults) = true)).
Proof.
  intros config.
  assert (Hnan : Config.maxCriticalIssues config = JS.NaN) by reflexivity.
  assert (Hf : Config.failOnSerious config = false) by reflexivity.
  split; [exact Hnan |]. split; [| split].
  - intros issues auditResults.
    apply decisions_with_NaN_threshold; assumption.
  - eexists. split; [reflexivity |]. split; reflexivity.
  - intros config' issues auditResults.
    apply status_agrees_for_numeric_thresholds.
Qed.

(** For the audit result that [_processResults] builds, the [status] field
    and the [passed] of [check] under the same configuration agree when
    the thresholds are numbers. *)
Lemma status_field_agrees_with_check (config : Config.t)
    (auditResult : Pa11y.result) (w w' : World) (results : AuditResult.t) :
  Notions.decisive_thresholds_are_numbers config ->
  AccessibilityAuditor._processResults config auditResult w = Return results ->
  (AuditResult.status results = PASSED
   <->
   ComplianceResult.passed
     (fst (ComplianceChecker.check config results w')) = true).
Proof.
  intros Hnum H. rewrite check_passed_field.
  unfold AccessibilityAuditor._processResults in H.
  destruct (AccessibilityAuditor.forEach _ _) as [issues |];
    cbn [JS.bind] in H; [| discriminate H].
  injection H as <-.
  cbn [AuditResult.status].
  apply (status_agrees_for_numeric_thresholds config issues _ Hnum);
    reflexivity.
Qed.

(** ** Repeated invocation of [check] *)

(** C8, as stated, fails: a second call of [check] with the same audit
    result and configuration, one millisecond after the first, returns a
    result with another [timestamp]. *)
Lemma check_twice_differs :
  fst (ComplianceChecker.check Sample.test_config
         (Sample.audit 0 2 5 10 85 PASSED) (Sample.world 1767225600000))
  <> fst (ComplianceChecker.check Sample.test_config
            (Sample.audit 0 2 5 10 85 PASSED)
            (elapse 1
               (snd (ComplianceChecker.check Sample.test_config
                       (Sample.audit 0 2 5 10 85 PASSED)
                       (Sample.world 1767225600000))))).
Proof.
  intros H. apply (f_equal ComplianceResult.timestamp) in H.
  cbn in H. discriminate H.
Qed.

Lemma logger_log_clock (level m : string) (meta : list (string * LogValue))
    (w : World) :
  clock (logger_log level m meta w) = clock w.
Proof. unfold logger_log. destruct (enabled level w); reflexivity. Qed.

(** C8, amended. Two calls of [check] with the same audit result and
    configuration return the same [passed], [checks] and [report]; the
    [timestamp] is the reading of the clock at the call, so the two results
    are equal exactly when the clock reads the same. *)
Theorem check_deterministic_up_to_timestamp :
  forall (config : Config.t) (auditResults : AuditResult.t) (w1 w2 : World),
    let r1 := fst (ComplianceChecker.check config auditResults w1) in
    let r2 := fst (ComplianceChecker.check config auditResults w2) in
    ComplianceResult.passed r1 = ComplianceResult.passed r2
    /\ ComplianceResult.checks r1 = ComplianceResult.checks r2
    /\ ComplianceResult.report r1 = ComplianceResult.report r2
    /\ ComplianceResult.timestamp r1 = JS.toISOString (clock w1)
    /\ (r1 = r2 <-> clock w1 = clock w2).
Proof.
  intros config auditResults w1 w2 r1 r2. subst r1 r2.
  unfold ComplianceChecker.check. cbn [fst].
  unfold logger_info. rewrite !logger_log_clock.
  repeat match goal with |- _ /\ _ => split end; try reflexivity.
  split.
  - intros H. apply (f_equal ComplianceResult.timestamp) in H.
    cbn in H. now injection H.
  - intros H. rewrite H. reflexivity.
Qed.


(** ** Classification *)

Section Classification.

Import AccessibilityAuditor.

Lemma category_of_plain_severity (t : string) :
  JS.inherited t = false ->
  JS.or_else (JS.get severityMap t) "minor" = JS.Str (Spec.bucket t).
Proof.
  intros Hni. unfold JS.get, severityMap, Spec.bucket.
  cbn [JS.own_property].
  rewrite (String.eqb_sym "error" t), (String.eqb_sym "warning" t),
    (String.eqb_sym "notice" t), (String.eqb_sym "info" t).
  destruct (String.eqb t "error"); [reflexivity |].
  destruct (String.eqb t "warning"); [reflexivity |].
  destruct (String.eqb t "notice"); [reflexivity |].
  destruct (String.eqb t "info"); [reflexivity |].
  rewrite Hni. reflexivity.
Qed.

Lemma category_of_inherited_name (t : string) :
  JS.inherited t = true ->
  JS.or_else (JS.get severityMap t) "minor" = JS.Proto t.
Proof.
  unfold JS.inherited, JS.Object_prototype_names. cbn [existsb].
  intros H.
  repeat (apply orb_true_iff in H as [H | H];
          [apply String.eqb_eq in H; subst t; reflexivity |]).
  discriminate H.
Qed.

Lemma push_with_object_key_throws (issues : IssueSet.t) (name : string)
    (x : Issue.t) :
  exists e, IssueSet.push issues (JS.to_property_key (JS.Proto name)) x = Throw e.
Proof.
  unfold JS.to_property_key, IssueSet.push.
  destruct (String.eqb name "__proto__"); cbn; eexists; reflexivity.
Qed.


Lemma push_to_spec_bucket_returns (issues : IssueSet.t) (t : string) (x : Issue.t) :
  exists issues', IssueSet.push issues (Spec.bucket t) x = Return issues'.
Proof.
  unfold Spec.bucket.
  destruct (String.eqb t "error"); [eexists; reflexivity |].
  destruct (String.eqb t "warning"); [eexists; reflexivity |].
  destruct (String.eqb t "notice"); eexists; reflexivity.
Qed.

Lemma categorize_plain (issues : IssueSet.t) (issue : Pa11y.issue) :
  JS.inherited (Pa11y.type issue) = false ->
  exists issues', categorize issues issue = Return issues'.
Proof.
  intros Hni. unfold categorize.
  rewrite (category_of_plain_severity _ Hni). cbn [JS.to_property_key].
  apply push_to_spec_bucket_returns.
Qed.

(** A finding whose severity is no member name of [Object.prototype] is
    pushed into the bucket that the mapping of the specification names. *)
Lemma categorize_follows_spec (issues : IssueSet.t) (issue : Pa11y.issue) :
  JS.inherited (Pa11y.type issue) = false ->
  categorize issues issue
  = IssueSet.push issues (Spec.bucket (Pa11y.type issue))
      {| Issue.code := Pa11y.code issue;
         Issue.message := Pa11y.message issue;
         Issue.type := Pa11y.type issue;
         Issue.selector := Pa11y.selector issue;
         Issue.wcagLevel := _getWCAGLevel (Pa11y.code issue);
         Issue.wcagCriteria := _getWCAGCriteria (Pa11y.code issue) |}.
Proof.
  intros Hni. unfold categorize.
  rewrite (category_of_plain_severity _ Hni). reflexivity.
Qed.

Lemma categorize_inherited (issues : IssueSet.t) (issue : Pa11y.issue) :
  JS.inherited (Pa11y.type issue) = true ->
  exists e, categorize issues issue = Throw e.
Proof.
  intros Hi. unfold categorize.
  rewrite (category_of_inherited_name _ Hi).
  apply push_with_object_key_throws.
Qed.


Lemma forEach_plain_returns (arr : list Pa11y.issue) :
  Forall (fun issue => JS.inherited (Pa11y.type issue) = false) arr ->
  forall issues, exists issues', forEach arr issues = Return issues'.
Proof.
  induction 1 as [| issue rest Hni _ IH]; intros issues.
  - eexists; reflexivity.
  - cbn [forEach].
    destruct (categorize_plain issues issue Hni) as [mid ->].
    cbn [JS.bind]. apply IH.
Qed.

Lemma forEach_inherited_throws (arr : list Pa11y.issue) :
  Exists (fun issue => JS.inherited (Pa11y.type issue) = true) arr ->
  forall issues, exists e, forEach arr issues = Throw e.
Proof.
  induction 1 as [issue rest Hi | issue rest _ IH]; intros issues; cbn [forEach].
  - destruct (categorize_inherited issues issue Hi) as [e ->].
    exists e. reflexivity.
  - destruct (categorize issues issue) as [mid | e]; cbn [JS.bind].
    + apply IH.
    + exists e. reflexivity.
Qed.


(** For findings whose severity is no member name of [Object.prototype],
    classification returns and follows the mapping of the specification. *)
Lemma processResults_plain_returns (config : Config.t)
    (auditResult : Pa11y.result) (w : World) :
  Forall (fun issue => JS.inherited (Pa11y.type issue) = false)
         (Pa11y.issues auditResult) ->
  exists r, _processResults config auditResult w = Return r.
Proof.
  intros Hplain. unfold _processResults.
  destruct (forEach_plain_returns _ Hplain IssueSet.empty) as [issues ->].
  eexists. reflexivity.
Qed.

(** As soon as one severity names a member of [Object.prototype],
    classification throws. *)
Lemma processResults_inherited_throws (config : Config.t)
    (auditResult : Pa11y.result) (w : World) :
  Exists (fun issue => JS.inherited (Pa11y.type issue) = true)
         (Pa11y.issues auditResult) ->
  exists e, _processResults config auditResult w = Throw e.
Proof.
  intros Hex. unfold _processResults.
  destruct (forEach_inherited_throws _ Hex IssueSet.empty) as [e ->].
  exists e. reflexivity.
Qed.

End Classification.

(** C4 fails on the code for an engine severity that names a member of
    [Object.prototype]: [severityMap["constructor"]] is the inherited
    [Object] function, which is truthy, so the fallback to [minor] is not
    taken; [issues[Object]] is [undefined] and the [push] throws a
    [TypeError]. The finding is not classified and no result is produced. *)
Theorem processResults_throws_on_prototype_name :
  AccessibilityAuditor._processResults Sample.test_config
    (Sample.scan [ Sample.finding "error" "image-alt";
                   Sample.finding "constructor" "label" ])
    (Sample.world 1767225600000)
  = Throw (TypeError "Cannot read properties of undefined (reading 'push')").
Proof. reflexivity. Qed.

(** ** The [url] field of an audit result *)

(** The notification reads the status, the score and the counts of the
    audit result and the summary of the checks, which [check] computes from
    the counts: the [url] plays no part in it. *)
Lemma notification_ignores_url (config : Config.t) (results : AuditResult.t)
    (otherUrl : string) (w1 w2 w : World) :
  ComplianceChecker._buildNotificationMessage config
    (fst (ComplianceChecker.check config (Notions.with_url otherUrl results) w2))
    (Notions.with_url otherUrl results) w
  = ComplianceChecker._buildNotificationMessage config
      (fst (ComplianceChecker.check config results w1)) results w.
Proof. reflexivity. Qed.

Lemma notification_field_titles (config : Config.t)
    (complianceResult : ComplianceResult.t) (results : AuditResult.t)
    (w : World) :
  map (fun a => map Notification.title (Notification.fields a))
      (Notification.attachments
         (ComplianceChecker._buildNotificationMessage config complianceResult
            results w))
  = [ [ "Status"; "Compliance Score"; "Critical Issues";
        "Serious Issues"; "Total Issues"; "Checks Summary" ] ].
Proof. reflexivity. Qed.

(** C10, as stated, fails in its last clause: the webhook notification
    built for an audit result has the six fields Status, Compliance Score,
    Critical Issues, Serious Issues, Total Issues and Checks Summary, none
    of them a [url], and it stays the same when the page has another
    title. *)
Lemma notification_has_no_url_field :
  match
    AccessibilityAuditor._processResults Sample.test_config
      (Sample.scan [Sample.finding "warning" "label"])
      (Sample.world 1767225600000),
    AccessibilityAuditor._processResults Sample.test_config
      {| Pa11y.documentTitle := "Savings";
         Pa11y.pageUrl := "https://bank.example/login";
         Pa11y.issues := [Sample.finding "warning" "label"] |}
      (Sample.world 1767225600000)
  with
  | Return results, Return others =>
      let notification (r : AuditResult.t) :=
        ComplianceChecker._buildNotificationMessage Sample.test_config
          (fst (ComplianceChecker.check Sample.test_config r
                  (Sample.world 1767225600000)))
          r (Sample.world 1767225600000) in
      AuditResult.url results = "Online Banking - Login"
      /\ AuditResult.url others = "Savings"
      /\ map (fun a => map Notification.title (Notification.fields a))
             (Notification.attachments (notification results))
         = [ [ "Status"; "Compliance Score"; "Critical Issues";
               "Serious Issues"; "Total Issues"; "Checks Summary" ] ]
      /\ notification others = notification results
  | _, _ => False
  end.
Proof. vm_compute. repeat split. Qed.

(** C10, amended. Whenever [_processResults] returns, the [url] of the
    audit result is the document title the scan engine returned; the page
    URL plays no part in the result; and the JSON report built from the
    audit result carries that title as [auditResults.url]. The webhook
    notification has no [url] field, its fields being Status, Compliance
    Score, Critical Issues, Serious Issues, Total Issues and Checks
    Summary, and it is the same whatever the [url] of the audit result
    is. *)
Theorem processResults_url_is_document_title :
  forall (config : Config.t) (auditResult : Pa11y.result) (w : World)
         (results : AuditResult.t),
    AccessibilityAuditor._processResults config auditResult w = Return results ->
    AuditResult.url results = Pa11y.documentTitle auditResult
    /\ (forall otherUrl : string,
          AccessibilityAuditor._processResults config
            {| Pa11y.documentTitle := Pa11y.documentTitle auditResult;
               Pa11y.pageUrl := otherUrl;
               Pa11y.issues := Pa11y.issues auditResult |} w
          = Return results)
    /\ (forall w' : World,
          JsonReport.url
            (JsonReport.r_auditResults
               (ReportGenerator._buildReport config results w'))
          = Pa11y.documentTitle auditResult)
    /\ (forall (complianceResult : ComplianceResult.t) (w' : World),
          map (fun a => map Notification.title (Notification.fields a))
              (Notification.attachments
                 (ComplianceChecker._buildNotificationMessage config
                    complianceResult results w'))
          = [ [ "Status"; "Compliance Score"; "Critical Issues";
                "Serious Issues"; "Total Issues"; "Checks Summary" ] ])
    /\ (forall (otherTitle : string) (w1 w2 w' : World),
          ComplianceChecker._buildNotificationMessage config
            (fst (ComplianceChecker.check config
                    (Notions.with_url otherTitle results) w2))
            (Notions.with_url otherTitle results) w'
          = ComplianceChecker._buildNotificationMessage config
              (fst (ComplianceChecker.check config results w1)) results w').
Proof.
  intros config auditResult w results H.
  assert (Hurl : AuditResult.url results = Pa11y.documentTitle auditResult).
  { unfold AccessibilityAuditor._processResults in H.
    destruct (AccessibilityAuditor.forEach _ _); cbn [JS.bind] in H;
      [| discriminate H].
    injection H as <-. reflexivity. }
  split; [exact Hurl |]. split; [| split; [| split]].
  - intros otherUrl. exact H.
  - intros w'. exact Hurl.
  - intros complianceResult w'. apply notification_field_titles.
  - intros otherTitle w1 w2 w'. apply notification_ignores_url.
Qed.

Lemma processResults_url_is_document_title_witness :
  exists results,
    AccessibilityAuditor._processResults Sample.test_config
      (Sample.scan [Sample.finding "warning" "label"])
      (Sample.world 1767225600000) = Return results
    /\ AuditResult.url results = "Online Banking - Login"
    /\ Pa11y.pageUrl (Sample.scan [Sample.finding "warning" "label"])
       = "https://bank.example/login".
Proof.
  eexists. split; [reflexivity |].
  split; [| reflexivity].
  exact (proj1 (processResults_url_is_document_title Sample.test_config
                  (Sample.scan [Sample.finding "warning" "label"])
                  (Sample.world 1767225600000) _ eq_refl)).
Defined.

(** ** The report-download route *)

(** The handler never checks where the joined path lies: it answers 404
    when nothing exists at that path, and otherwise hands the path to
    [res.download], which refuses a dot-file (answered with 500 by the
    error handler) and sends anything else. *)
Lemma get_report_cases (__dirname : string) (config : Config.t)
    (existsSync : string -> bool) (filename : string) :
  let filepath :=
    path.join [__dirname; ".."; Config.reportOutputDir config; filename] in
  Server.get_report __dirname config existsSync filename
  = if existsSync filepath then
      if Server.refused filepath
      then Server.StatusJson 500 "Internal server error"
      else Server.Download filepath
    else Server.StatusJson 404 "Report not found".
Proof.
  intros filepath. unfold Server.get_report. fold filepath.
  destruct (existsSync filepath); reflexivity.
Qed.

(** C2 fails on the code. With the sources in [/app/src] and the default
    report directory, the reports live in [/app/reports]; for the file name
    [../outside.txt] (the request path [/reports/..%2Foutside.txt], whose
    parameter the router decodes) the handler sends [/app/outside.txt], a
    file outside that directory. What keeps [/app/.env] from being sent in
    the same way is only that [res.download] refuses dot-files. *)
Theorem get_report_serves_file_outside_report_directory :
  Server.reportsDir Sample.dirname Sample.default_config = "/app/reports"
  /\ Server.get_report Sample.dirname Sample.default_config Sample.existsSync
       "../outside.txt"
     = Server.Download "/app/outside.txt"
  /\ Server.inside "/app/reports" "/app/outside.txt" = false
  /\ Server.get_report Sample.dirname Sample.default_config Sample.existsSync
       "../.env"
     = Server.StatusJson 500 "Internal server error"
  /\ Server.get_report Sample.dirname Sample.default_config Sample.existsSync
       "compliance-report-2026-01-01.json"
     = Server.Download "/app/reports/compliance-report-2026-01-01.json".
Proof. repeat split. Qed.

(** ** Double-precision rounding *)

Section DoubleFacts.
Import Double.
Local Open Scope Q_scope.

Lemma two_nonzero : ~ inject_Z 2 == 0.
Proof. discriminate. Qed.

Lemma pow2_pos (k : Z) : 0 < pow2 k.
Proof. apply Qpower_0_lt. reflexivity. Qed.

Lemma pow2_add (a b : Z) : pow2 (a + b) == pow2 a * pow2 b.
Proof. apply Qpower_plus, two_nonzero. Qed.

Lemma pow2_succ (a : Z) : pow2 (a + 1) == 2 * pow2 a.
Proof. rewrite pow2_add. change (pow2 1) with (inject_Z 2). ring. Qed.

Lemma pow2_le (a b : Z) : (a <= b)%Z -> pow2 a <= pow2 b.
Proof. intros H. apply Qpower_le_compat_l; [exact H | discriminate]. Qed.

Lemma pow2_lt_inv (a b : Z) : pow2 a < pow2 b -> (a < b)%Z.
Proof. intros H. apply (Qpower_lt_compat_l_inv _ _ _ H). reflexivity. Qed.

Lemma pow2_of_Z (k : Z) : (0 <= k)%Z -> pow2 k == inject_Z (2 ^ k).
Proof. intros H. unfold pow2. symmetry. apply Zpower_Qpower, H. Qed.

(** Bounds of a positive integer by the powers of two around it. *)
Lemma log2_bounds (n : Z) :
  (0 < n)%Z ->
  pow2 (Z.log2 n) <= inject_Z n /\ inject_Z n < 2 * pow2 (Z.log2 n).
Proof.
  intros Hn. destruct (Z.log2_spec n Hn) as [Hlo Hhi].
  rewrite (pow2_of_Z _ (Z.log2_nonneg n)). split.
  - rewrite <- Zle_Qle. exact Hlo.
  - change 2 with (inject_Z 2). rewrite <- inject_Z_mult, <- Zlt_Qlt.
    rewrite Z.pow_succ_r in Hhi by apply Z.log2_nonneg. exact Hhi.
Qed.

Lemma ilog2_spec (x : Q) :
  0 < x -> pow2 (ilog2 x) <= x /\ x < pow2 (ilog2 x + 1).
Proof.
  destruct x as [n d]. intros Hx.
  assert (Hn : (0 < n)%Z).
  { unfold Qlt in Hx. cbn in Hx. lia. }
  destruct (log2_bounds n Hn) as [HnL HnU].
  destruct (log2_bounds (Zpos d) eq_refl) as [HdL HdU].
  pose proof (pow2_pos (Z.log2 n)) as HA.
  pose proof (pow2_pos (Z.log2 (Zpos d))) as HB.
  assert (HD : 0 < inject_Z (Zpos d)) by reflexivity.
  assert (Hx' : n # d == inject_Z n / inject_Z (Zpos d)) by apply Qmake_Qdiv.
  assert (Hsplit : pow2 (Z.log2 n) ==
                   pow2 (Z.log2 n - Z.log2 (Zpos d)) * pow2 (Z.log2 (Zpos d))).
  { rewrite <- pow2_add. now replace (Z.log2 n - Z.log2 (Zpos d)
                                      + Z.log2 (Zpos d))%Z with (Z.log2 n) by ring. }
  unfold ilog2. cbn [Qnum Qden].
  set (e0 := (Z.log2 n - Z.log2 (Zpos d))%Z) in *.
  set (A := pow2 (Z.log2 n)) in *. set (B := pow2 (Z.log2 (Zpos d))) in *.
  set (N := inject_Z n) in *. set (D := inject_Z (Zpos d)) in *.
  pose proof (pow2_pos e0) as HE.
  destruct (Qle_bool (pow2 e0) (n # d)) eqn:Htest.
  - apply Qle_bool_iff in Htest. split; [exact Htest |].
    rewrite pow2_succ, Hx'. apply Qlt_shift_div_r; [exact HD |].
    set (E := pow2 e0) in *. nra.
  - assert (Hlt : n # d < pow2 e0).
    { apply Qnot_le_lt. intros Hle. apply Qle_bool_iff in Hle. congruence. }
    split.
    + assert (Hhalf : pow2 e0 == 2 * pow2 (e0 - 1)).
      { rewrite <- pow2_succ. now replace (e0 - 1 + 1)%Z with e0 by ring. }
      rewrite Hx'. apply Qle_shift_div_l; [exact HD |].
      set (E := pow2 e0) in *. set (E' := pow2 (e0 - 1)) in *.
      assert (0 < E') by apply pow2_pos. nra.
    + now replace (e0 - 1 + 1)%Z with e0 by ring.
Qed.

Lemma ilog2_mono (x y : Q) : 0 < x -> x <= y -> (ilog2 x <= ilog2 y)%Z.
Proof.
  intros Hx Hxy.
  assert (Hy : 0 < y) by (eapply Qlt_le_trans; eassumption).
  destruct (ilog2_spec x Hx) as [Hlo _].
  destruct (ilog2_spec y Hy) as [_ Hhi].
  assert (H : pow2 (ilog2 x) < pow2 (ilog2 y + 1)).
  { eapply Qle_lt_trans; [exact Hlo |].
    eapply Qle_lt_trans; [exact Hxy | exact Hhi]. }
  apply pow2_lt_inv in H. lia.
Qed.

Lemma rne_cases (x : Q) :
  let f := Qfloor x in
  (x - inject_Z f < 1 # 2 /\ rne x = f)
  \/ (1 # 2 < x - inject_Z f /\ rne x = (f + 1)%Z)
  \/ (x - inject_Z f == 1 # 2
      /\ rne x = if Z.even f then f else (f + 1)%Z).
Proof.
  intros f. unfold rne. fold f.
  destruct (Qcompare_spec (x - inject_Z f) (1 # 2)) as [E | L | G].
  - right. right. split; [exact E | reflexivity].
  - left. split; [exact L | reflexivity].
  - right. left. split; [exact G | reflexivity].
Qed.

Lemma floor_bounds (x : Q) :
  inject_Z (Qfloor x) <= x /\ x < inject_Z (Qfloor x) + 1.
Proof.
  split; [apply Qfloor_le |].
  pose proof (Qlt_floor x) as H. rewrite inject_Z_plus in H. exact H.
Qed.

Lemma rne_Z (z : Z) : rne (inject_Z z) = z.
Proof.
  pose proof (rne_cases (inject_Z z)) as H. cbv zeta in H.
  rewrite Qfloor_Z in H.
  destruct H as [[_ H] | [[H _] | [H _]]]; [exact H | lra | lra].
Qed.

Lemma rne_mono (x y : Q) : x <= y -> (rne x <= rne y)%Z.
Proof.
  intros Hxy.
  pose proof (Qfloor_resp_le x y Hxy) as Hf.
  pose proof (floor_bounds x) as [Hx1 Hx2].
  pose proof (floor_bounds y) as [Hy1 Hy2].
  pose proof (rne_cases x) as Cx. pose proof (rne_cases y) as Cy.
  cbv zeta in Cx, Cy.
  destruct (Z.eq_dec (Qfloor x) (Qfloor y)) as [E | NE].
  - rewrite E in *.
    destruct Cx as [[Hx ->] | [[Hx ->] | [Hx ->]]];
      destruct Cy as [[Hy ->] | [[Hy ->] | [Hy ->]]];
      try lia; try lra; destruct (Z.even (Qfloor y)); lia || lra.
  - assert (Hlt : (Qfloor x + 1 <= Qfloor y)%Z) by lia.
    assert (rne x <= Qfloor x + 1)%Z.
    { destruct Cx as [[_ ->] | [[_ ->] | [_ ->]]];
        try lia; destruct (Z.even (Qfloor x)); lia. }
    assert (Qfloor y <= rne y)%Z.
    { destruct Cy as [[_ ->] | [[_ ->] | [_ ->]]];
        try lia; destruct (Z.even (Qfloor y)); lia. }
    lia.
Qed.

Lemma rne_error (x : Q) :
  x - (1 # 2) <= inject_Z (rne x) /\ inject_Z (rne x) <= x + (1 # 2).
Proof.
  pose proof (floor_bounds x) as [H1 H2].
  pose proof (rne_cases x) as C. cbv zeta in C.
  destruct C as [[H ->] | [[H ->] | [H ->]]].
  - lra.
  - rewrite inject_Z_plus. change (inject_Z 1) with 1. lra.
  - destruct (Z.even (Qfloor x)).
    + lra.
    + rewrite inject_Z_plus. change (inject_Z 1) with 1. lra.
Qed.

Lemma round_pos_eq (x : Q) :
  0 < x ->
  round x = inject_Z (rne (x / pow2 (ilog2 x - 52))) * pow2 (ilog2 x - 52).
Proof.
  destruct x as [[| p | p] d]; intros Hx; try discriminate Hx.
  reflexivity.
Qed.

Lemma round_zero (x : Q) : x == 0 -> round x = 0.
Proof.
  destruct x as [n d]. unfold Qeq. cbn. intros H.
  assert (n = 0%Z) by lia. subst n. reflexivity.
Qed.

Lemma pow2_split (e : Z) : pow2 e == pow2 52 * pow2 (e - 52).
Proof.
  rewrite <- pow2_add. now replace (52 + (e - 52))%Z with e by ring.
Qed.

Lemma scaled_bounds (x : Q) :
  0 < x ->
  pow2 52 <= x / pow2 (ilog2 x - 52) /\ x / pow2 (ilog2 x - 52) <= pow2 53.
Proof.
  intros Hx. destruct (ilog2_spec x Hx) as [Hlo Hhi].
  rewrite pow2_succ, (pow2_split (ilog2 x)) in Hhi.
  rewrite (pow2_split (ilog2 x)) in Hlo.
  pose proof (pow2_pos (ilog2 x - 52)) as Hs.
  split.
  - apply Qle_shift_div_l; [exact Hs | exact Hlo].
  - apply Qle_shift_div_r; [exact Hs |].
    change 53%Z with (52 + 1)%Z. rewrite pow2_succ. lra.
Qed.

Lemma round_binade (x : Q) :
  0 < x -> pow2 (ilog2 x) <= round x /\ round x <= pow2 (ilog2 x + 1).
Proof.
  intros Hx. rewrite (round_pos_eq x Hx).
  destruct (scaled_bounds x Hx) as [Hlo Hhi].
  pose proof (pow2_pos (ilog2 x - 52)) as Hs.
  apply rne_mono in Hlo. apply rne_mono in Hhi.
  change (pow2 52) with (inject_Z (2 ^ 52)) in Hlo.
  change (pow2 53) with (inject_Z (2 ^ 53)) in Hhi.
  rewrite rne_Z in Hlo, Hhi.
  rewrite Zle_Qle in Hlo, Hhi.
  change (inject_Z (2 ^ 52)) with (pow2 52) in Hlo.
  change (inject_Z (2 ^ 53)) with (pow2 53) in Hhi.
  split.
  - rewrite (pow2_split (ilog2 x)).
    apply Qmult_le_compat_r; [exact Hlo | lra].
  - rewrite pow2_succ, (pow2_split (ilog2 x)).
    change 53%Z with (52 + 1)%Z in Hhi. rewrite pow2_succ in Hhi.
    rewrite Qmult_assoc.
    apply Qmult_le_compat_r; [exact Hhi | lra].
Qed.

Lemma round_mono_pos (x y : Q) : 0 < x -> x <= y -> round x <= round y.
Proof.
  intros Hx Hxy.
  assert (Hy : 0 < y) by (eapply Qlt_le_trans; eassumption).
  pose proof (ilog2_mono x y Hx Hxy) as He.
  destruct (Z.eq_dec (ilog2 x) (ilog2 y)) as [E | NE].
  - rewrite (round_pos_eq x Hx), (round_pos_eq y Hy), E.
    pose proof (pow2_pos (ilog2 y - 52)) as Hs.
    apply Qmult_le_compat_r; [| lra].
    rewrite <- Zle_Qle. apply rne_mono.
    apply Qle_shift_div_l; [exact Hs |].
    unfold Qdiv. rewrite <- Qmult_assoc, (Qmult_comm (/ _)).
    rewrite Qmult_inv_r, Qmult_1_r; [exact Hxy | lra].
  - destruct (round_binade x Hx) as [_ Hxu].
    destruct (round_binade y Hy) as [Hyl _].
    eapply Qle_trans; [exact Hxu |].
    eapply Qle_trans; [| exact Hyl].
    apply pow2_le. lia.
Qed.

Lemma round_nonneg (x : Q) : 0 <= x -> 0 <= round x.
Proof.
  intros Hx. destruct (Qeq_dec x 0) as [E | NE].
  - rewrite (round_zero x E). apply Qle_refl.
  - assert (Hpos : 0 < x).
    { apply Qle_lteq in Hx as [H | H]; [exact H | now symmetry in H]. }
    destruct (round_binade x Hpos) as [H _].
    pose proof (pow2_pos (ilog2 x)). lra.
Qed.

(** Rounding to the nearest double is monotone. *)
Lemma round_mono (x y : Q) : 0 <= x -> x <= y -> round x <= round y.
Proof.
  intros Hx Hxy. destruct (Qeq_dec x 0) as [E | NE].
  - rewrite (round_zero x E). apply round_nonneg. lra.
  - apply round_mono_pos; [| exact Hxy].
    apply Qle_lteq in Hx as [H | H]; [exact H | now symmetry in H].
Qed.


Lemma round_relative_error (x : Q) :
  0 < x -> x * (1 - eps) <= round x /\ round x <= x * (1 + eps).
Proof.
  intros Hx. rewrite (round_pos_eq x Hx).
  destruct (ilog2_spec x Hx) as [Hlo _].
  rewrite (pow2_split (ilog2 x)) in Hlo.
  change (pow2 52) with (inject_Z 4503599627370496) in Hlo.
  pose proof (pow2_pos (ilog2 x - 52)) as Hs.
  set (S := pow2 (ilog2 x - 52)) in *.
  destruct (rne_error (x / S)) as [H1 H2].
  assert (Hy : x / S * S == x) by (field; lra).
  set (y := x / S) in *. set (m := inject_Z (rne y)) in *.
  unfold eps.
  assert (Hm1 : (y - (1 # 2)) * S <= m * S)
    by (apply Qmult_le_compat_r; lra).
  assert (Hm2 : m * S <= (y + (1 # 2)) * S)
    by (apply Qmult_le_compat_r; lra).
  change (inject_Z 4503599627370496) with (4503599627370496 # 1) in Hlo.
  split; lra.
Qed.

(** The value the source rounds with [Math.round] is within [eta] of the
    exact percentage. *)
Lemma percentage_error (u : Q) :
  0 <= u -> u <= 1 ->
  u * 100 - eta <= mul (round u) 100 /\ mul (round u) 100 <= u * 100 + eta.
Proof.
  intros H0 H1. unfold mul.
  destruct (Qeq_dec u 0) as [E | NE].
  - rewrite (round_zero u E).
    rewrite (round_zero (0 * 100)) by reflexivity.
    rewrite E. unfold eta. split; lra.
  - assert (Hu : 0 < u).
    { apply Qle_lteq in H0 as [H | H]; [exact H | now symmetry in H]. }
    destruct (round_relative_error u Hu) as [Hv1 Hv2].
    set (v := round u) in *.
    assert (Hv : 0 < v * 100) by (unfold eps in *; lra).
    destruct (round_relative_error (v * 100) Hv) as [Hw1 Hw2].
    set (w := round (v * 100)) in *.
    unfold eps, eta in *. split; lra.
Qed.

End DoubleFacts.

(** On every quotient that issue sets of up to 40 issues give, [Double]
    computes what the processor computes. *)
Lemma double_agrees_with_hardware :
  forallb
    (fun '(a, b) =>
       Qeq_bool (Hardware.percentage a b)
                (Double.mul (Double.div (inject_Z a) (inject_Z b)) (inject_Z 100)))
    (Hardware.quotients 40)
  = true.
Proof. vm_compute. reflexivity. Qed.

(** The same for 200 issues with 1095 and with 1000 penalty points. *)
Lemma double_agrees_with_hardware_at_200 :
  forallb
    (fun '(a, b) =>
       Qeq_bool (Hardware.percentage a b)
                (Double.mul (Double.div (inject_Z a) (inject_Z b)) (inject_Z 100)))
    [ (18905, 20000); (19000, 20000) ]
  = true.
Proof. vm_compute. reflexivity. Qed.

(** ** Compliance score *)

Section Score.

Import AccessibilityAuditor.
Local Open Scope Q_scope.

Lemma len_nonneg {A} (arr : list A) : (0 <= len arr)%Z.
Proof. unfold len. lia. Qed.

Lemma total_is_size (issues : IssueSet.t) :
  fold_left (fun sum arr => (sum + len arr)%Z) (IssueSet.Object_values issues) 0%Z
  = Spec.size issues.
Proof. unfold Spec.size. cbn. lia. Qed.

Lemma compliance_of_empty (issues : IssueSet.t) :
  Spec.size issues = 0%Z -> _calculateCompliance issues = 100%Z.
Proof.
  intros E. unfold _calculateCompliance. rewrite total_is_size, E. reflexivity.
Qed.

Lemma compliance_of_nonempty (issues : IssueSet.t) :
  (0 < Spec.size issues)%Z ->
  _calculateCompliance issues
  = JS.Math_round
      (Double.mul
         (Double.div (inject_Z (100 * Spec.size issues - Spec.points issues))
                     (inject_Z (100 * Spec.size issues)))
         (inject_Z 100)).
Proof.
  intros Hpos. unfold _calculateCompliance. rewrite total_is_size.
  destruct (Z.eqb_spec (Spec.size issues) 0) as [E | _]; [lia |].
  cbv zeta.
  replace (Spec.size issues * 100)%Z with (100 * Spec.size issues)%Z by ring.
  replace (len (IssueSet.critical issues) * 100
           + len (IssueSet.serious issues) * 50
           + len (IssueSet.moderate issues) * 20
           + len (IssueSet.minor issues) * 5)%Z
    with (Spec.points issues) by (unfold Spec.points; ring).
  reflexivity.
Qed.

(** Every issue costs between 5 and 100 points. *)
Lemma points_bounds (issues : IssueSet.t) :
  (5 * Spec.size issues <= Spec.points issues <= 100 * Spec.size issues)%Z.
Proof.
  unfold Spec.points, Spec.size.
  pose proof (len_nonneg (IssueSet.critical issues)).
  pose proof (len_nonneg (IssueSet.serious issues)).
  pose proof (len_nonneg (IssueSet.moderate issues)).
  pose proof (len_nonneg (IssueSet.minor issues)).
  lia.
Qed.

(** [a / b] for integers [0 <= a <= b], [0 < b], as a rational. *)
Lemma ratio_bounds (a b : Z) :
  (0 <= a <= b)%Z -> (0 < b)%Z ->
  0 <= inject_Z a / inject_Z b /\ inject_Z a / inject_Z b <= 1.
Proof.
  intros [Ha Hab] Hb.
  assert (HB : 0 < inject_Z b) by (change 0 with (inject_Z 0); now rewrite <- Zlt_Qlt).
  assert (HA : 0 <= inject_Z a) by (change 0 with (inject_Z 0); now rewrite <- Zle_Qle).
  assert (HAB : inject_Z a <= inject_Z b) by now rewrite <- Zle_Qle.
  split.
  - apply Qle_shift_div_l; [exact HB | lra].
  - apply Qle_shift_div_r; [exact HB | lra].
Qed.

(** The rounded score is an integer next to the value that the two
    double-precision operations produce, which is within [eta] of the
    exact percentage. *)
Lemma score_window (issues : IssueSet.t) :
  (0 < Spec.size issues)%Z ->
  Spec.exact_percentage issues - Double.eta - (1 # 2)
    < inject_Z (_calculateCompliance issues)
  /\ inject_Z (_calculateCompliance issues)
     <= Spec.exact_percentage issues + Double.eta + (1 # 2).
Proof.
  intros Hpos. rewrite (compliance_of_nonempty issues Hpos).
  unfold Spec.exact_percentage, Double.div.
  pose proof (points_bounds issues) as Hp.
  destruct (ratio_bounds (100 * Spec.size issues - Spec.points issues)
                         (100 * Spec.size issues)) as [Hu0 Hu1]; [lia | lia |].
  set (u := inject_Z (100 * Spec.size issues - Spec.points issues)
            / inject_Z (100 * Spec.size issues)) in *.
  destruct (percentage_error u Hu0 Hu1) as [Hw1 Hw2].
  change (inject_Z 100) with 100.
  set (w := Double.mul (Double.round u) 100) in *.
  unfold JS.Math_round.
  destruct (floor_bounds (w + (1 # 2))) as [Hf1 Hf2].
  split; lra.
Qed.

Lemma exact_percentage_bounds (issues : IssueSet.t) :
  (0 < Spec.size issues)%Z ->
  0 <= Spec.exact_percentage issues <= 95.
Proof.
  intros Hpos. unfold Spec.exact_percentage.
  pose proof (points_bounds issues) as Hp.
  assert (HM : 0 < inject_Z (100 * Spec.size issues)).
  { change 0 with (inject_Z 0). rewrite <- Zlt_Qlt. lia. }
  assert (Hd0 : 0 <= inject_Z (100 * Spec.size issues - Spec.points issues)).
  { change 0 with (inject_Z 0). rewrite <- Zle_Qle. lia. }
  assert (Hd1 : 20 * inject_Z (100 * Spec.size issues - Spec.points issues)
                <= 19 * inject_Z (100 * Spec.size issues)).
  { change 20 with (inject_Z 20). change 19 with (inject_Z 19).
    rewrite <- !inject_Z_mult, <- Zle_Qle. lia. }
  change (inject_Z 100) with 100.
  set (d := inject_Z (100 * Spec.size issues - Spec.points issues)) in *.
  set (M := inject_Z (100 * Spec.size issues)) in *.
  assert (H0 : 0 <= d / M) by (apply Qle_shift_div_l; [exact HM | lra]).
  assert (H1 : d / M <= 19 # 20) by (apply Qle_shift_div_r; [exact HM | lra]).
  split; lra.
Qed.

Lemma compliance_range_nonempty (issues : IssueSet.t) :
  (0 < Spec.size issues)%Z -> (0 <= _calculateCompliance issues <= 95)%Z.
Proof.
  intros Hpos.
  destruct (score_window issues Hpos) as [Hlo Hhi].
  destruct (exact_percentage_bounds issues Hpos) as [H0 H95].
  unfold Double.eta in *.
  split.
  - assert (H : inject_Z (-1) < inject_Z (_calculateCompliance issues)).
    { change (inject_Z (-1)) with (-1 # 1). lra. }
    rewrite <- Zlt_Qlt in H. lia.
  - assert (H : inject_Z (_calculateCompliance issues) < inject_Z 96).
    { change (inject_Z 96) with 96. lra. }
    rewrite <- Zlt_Qlt in H. lia.
Qed.

Lemma size_nonneg (issues : IssueSet.t) : (0 <= Spec.size issues)%Z.
Proof.
  unfold Spec.size.
  pose proof (len_nonneg (IssueSet.critical issues)).
  pose proof (len_nonneg (IssueSet.serious issues)).
  pose proof (len_nonneg (IssueSet.moderate issues)).
  pose proof (len_nonneg (IssueSet.minor issues)).
  lia.
Qed.

End Score.

(** ** One more critical issue against one more minor issue *)

Section Monotonicity.

Import AccessibilityAuditor.
Local Open Scope Q_scope.

Lemma size_add_critical (base : IssueSet.t) (x : Issue.t) :
  Spec.size (Spec.add_critical base x) = (Spec.size base + 1)%Z.
Proof.
  unfold Spec.size, Spec.add_critical, len.
  cbn [IssueSet.critical IssueSet.serious IssueSet.moderate IssueSet.minor].
  rewrite length_app. cbn [length]. lia.
Qed.

Lemma size_add_minor (base : IssueSet.t) (x : Issue.t) :
  Spec.size (Spec.add_minor base x) = (Spec.size base + 1)%Z.
Proof.
  unfold Spec.size, Spec.add_minor, len.
  cbn [IssueSet.critical IssueSet.serious IssueSet.moderate IssueSet.minor].
  rewrite length_app. cbn [length]. lia.
Qed.

Lemma points_add_critical (base : IssueSet.t) (x : Issue.t) :
  Spec.points (Spec.add_critical base x) = (Spec.points base + 100)%Z.
Proof.
  unfold Spec.points, Spec.add_critical, len.
  cbn [IssueSet.critical IssueSet.serious IssueSet.moderate IssueSet.minor].
  rewrite length_app. cbn [length]. lia.
Qed.

Lemma points_add_minor (base : IssueSet.t) (x : Issue.t) :
  Spec.points (Spec.add_minor base x) = (Spec.points base + 5)%Z.
Proof.
  unfold Spec.points, Spec.add_minor, len.
  cbn [IssueSet.critical IssueSet.serious IssueSet.moderate IssueSet.minor].
  rewrite length_app. cbn [length]. lia.
Qed.

(** The score grows with the numerator of the quotient. *)
Lemma score_monotone (a b M : Z) :
  (0 <= a <= b)%Z -> (0 < M)%Z ->
  (JS.Math_round (Double.mul (Double.div (inject_Z a) (inject_Z M)) (inject_Z 100))
   <= JS.Math_round (Double.mul (Double.div (inject_Z b) (inject_Z M)) (inject_Z 100)))%Z.
Proof.
  intros [Ha Hab] HM.
  assert (HMq : 0 < inject_Z M) by (change 0 with (inject_Z 0); now rewrite <- Zlt_Qlt).
  assert (HA : 0 <= inject_Z a) by (change 0 with (inject_Z 0); now rewrite <- Zle_Qle).
  assert (HAB : inject_Z a <= inject_Z b) by now rewrite <- Zle_Qle.
  assert (Hu0 : 0 <= inject_Z a / inject_Z M)
    by (apply Qle_shift_div_l; [exact HMq | lra]).
  assert (Hu : inject_Z a / inject_Z M <= inject_Z b / inject_Z M).
  { apply Qle_shift_div_l; [exact HMq |].
    unfold Qdiv. rewrite <- Qmult_assoc, (Qmult_comm (/ _)).
    rewrite Qmult_inv_r, Qmult_1_r; [exact HAB | lra]. }
  unfold Double.div, Double.mul, JS.Math_round.
  pose proof (round_mono _ _ Hu0 Hu) as Hv.
  pose proof (round_nonneg _ Hu0) as Hv0.
  set (va := Double.round (inject_Z a / inject_Z M)) in *.
  set (vb := Double.round (inject_Z b / inject_Z M)) in *.
  change (inject_Z 100) with 100.
  assert (Hw : Double.round (va * 100) <= Double.round (vb * 100))
    by (apply round_mono; lra).
  apply Qfloor_resp_le. lra.
Qed.

(** The exact percentage as a quotient by the number of issues. *)
Lemma exact_percentage_quotient (issues : IssueSet.t) :
  (0 < Spec.size issues)%Z ->
  Spec.exact_percentage issues
  == inject_Z (100 * Spec.size issues - Spec.points issues)
     / inject_Z (Spec.size issues).
Proof.
  intros Hpos. unfold Spec.exact_percentage.
  rewrite (inject_Z_mult 100 (Spec.size issues)).
  assert (HT : ~ inject_Z (Spec.size issues) == 0).
  { intros E. unfold Qeq in E. cbn in E. lia. }
  change (inject_Z 100) with 100. field. exact HT.
Qed.

(** With at most 95 issues, adding 95 to the numerator moves the rounded
    value up by at least one, whatever the error below [eta]. *)
Lemma rounding_gap (a T : Z) :
  (0 < T <= 95)%Z ->
  (Qfloor (inject_Z a / inject_Z T + Double.eta + (1 # 2))
   < Qfloor (inject_Z (a + 95) / inject_Z T - Double.eta + (1 # 2)))%Z.
Proof.
  intros [HT0 HT95].
  pose proof (Z.div_mod (2 * a + T) (2 * T) ltac:(lia)) as Hdm.
  pose proof (Z.mod_pos_bound (2 * a + T) (2 * T) ltac:(lia)) as [Hr0 Hr1].
  set (k := ((2 * a + T) / (2 * T))%Z) in *.
  set (r := ((2 * a + T) mod (2 * T))%Z) in *.
  assert (Hodd : (2 * T + 1 <= r + 190)%Z) by lia.
  assert (HTq : 0 < inject_Z T) by (change 0 with (inject_Z 0); now rewrite <- Zlt_Qlt).
  assert (HT95q : inject_Z T <= 95)
    by (change 95 with (inject_Z 95); now rewrite <- Zle_Qle).
  assert (Hdmq : 2 * inject_Z a + inject_Z T
                 == 2 * (inject_Z T * inject_Z k) + inject_Z r).
  { change 2 with (inject_Z 2).
    rewrite <- !inject_Z_mult, <- !inject_Z_plus. apply inject_Z_injective.
    rewrite Hdm at 1. ring. }
  assert (Hr1q : inject_Z r + 1 <= 2 * inject_Z T).
  { change 2 with (inject_Z 2). change 1 with (inject_Z 1).
    rewrite <- inject_Z_mult, <- inject_Z_plus, <- Zle_Qle. lia. }
  assert (Hoddq : 2 * inject_Z T + 1 <= inject_Z r + 190).
  { change 2 with (inject_Z 2). change 1 with (inject_Z 1).
    change 190 with (inject_Z 190).
    rewrite <- inject_Z_mult, <- !inject_Z_plus, <- Zle_Qle. exact Hodd. }
  rewrite inject_Z_plus. change (inject_Z 95) with 95.
  set (A := inject_Z a) in *. set (Tq := inject_Z T) in *.
  set (K := inject_Z k) in *. set (R := inject_Z r) in *.
  set (X := Tq * K) in *.
  unfold Double.eta.
  assert (Hup : A / Tq + (1 # 1000000000000) + (1 # 2) < K + 1).
  { assert (H : A / Tq < K + (1 # 2) - (1 # 1000000000000)).
    { apply Qlt_shift_div_r; [exact HTq |].
      setoid_replace ((K + (1 # 2) - (1 # 1000000000000)) * Tq)
        with (X + (1 # 2) * Tq - (1 # 1000000000000) * Tq)
        by (unfold X; ring).
      lra. }
    lra. }
  assert (Hdown : K + 1 <= (A + 95) / Tq - (1 # 1000000000000) + (1 # 2)).
  { assert (H : K + (1 # 2) + (1 # 1000000000000) <= (A + 95) / Tq).
    { apply Qle_shift_div_l; [exact HTq |].
      setoid_replace ((K + (1 # 2) + (1 # 1000000000000)) * Tq)
        with (X + (1 # 2) * Tq + (1 # 1000000000000) * Tq)
        by (unfold X; ring).
      lra. }
    lra. }
  assert (H1 : (Qfloor (A / Tq + (1 # 1000000000000) + (1 # 2)) < k + 1)%Z).
  { rewrite Zlt_Qlt. eapply Qle_lt_trans; [apply Qfloor_le |].
    rewrite inject_Z_plus. exact Hup. }
  assert (H2 : (k + 1 <= Qfloor ((A + 95) / Tq - (1 # 1000000000000) + (1 # 2)))%Z).
  { rewrite <- (Qfloor_Z (k + 1)). apply Qfloor_resp_le.
    rewrite inject_Z_plus. exact Hdown. }
  lia.
Qed.

End Monotonicity.

(** ** The score against the nearest integer *)

Section Nearest.
Import AccessibilityAuditor.
Local Open Scope Q_scope.

Lemma floor_unique (x : Q) (k : Z) :
  inject_Z k <= x -> x < inject_Z k + 1 -> Qfloor x = k.
Proof.
  intros Hlo Hhi. destruct (floor_bounds x) as [Hf1 Hf2].
  assert (H1 : (Qfloor x < k + 1)%Z).
  { rewrite Zlt_Qlt, inject_Z_plus. change (inject_Z 1) with 1. lra. }
  assert (H2 : (k < Qfloor x + 1)%Z).
  { rewrite Zlt_Qlt, inject_Z_plus. change (inject_Z 1) with 1. lra. }
  lia.
Qed.

(** Off the ties the two roundings of the specification agree. *)
Lemma roundings_agree_off_ties (q : Q) :
  ~ Spec.tie q -> Spec.round_half_even q = Spec.round_half_up q.
Proof.
  intros Hnt. unfold Spec.round_half_even, Spec.round_half_up, Spec.tie in *.
  destruct (floor_bounds q) as [Hf1 Hf2].
  pose proof (rne_cases q) as H. cbv zeta in H.
  destruct H as [[Hlt ->] | [[Hgt ->] | [Heq _]]]; [| | now elim Hnt].
  - symmetry. apply floor_unique; lra.
  - symmetry. apply floor_unique; rewrite inject_Z_plus;
      change (inject_Z 1) with 1; lra.
Qed.

(** At a tie the score is the half-up rounding of the exact percentage or
    one less. *)
Lemma score_at_tie (issues : IssueSet.t) :
  (0 < Spec.size issues)%Z ->
  Spec.tie (Spec.exact_percentage issues) ->
  _calculateCompliance issues
  = Spec.round_half_up (Spec.exact_percentage issues)
  \/ _calculateCompliance issues
     = (Spec.round_half_up (Spec.exact_percentage issues) - 1)%Z.
Proof.
  intros Hpos Htie.
  destruct (score_window issues Hpos) as [Hlo Hhi].
  unfold Spec.tie in Htie. unfold Spec.round_half_up.
  set (E := Spec.exact_percentage issues) in *.
  set (c := _calculateCompliance issues) in *.
  assert (Hup : Qfloor (E + (1 # 2)) = (Qfloor E + 1)%Z).
  { apply floor_unique; rewrite inject_Z_plus; change (inject_Z 1) with 1; lra. }
  rewrite Hup. unfold Double.eta in *.
  assert (H1 : (Qfloor E - 1 < c)%Z).
  { rewrite Zlt_Qlt. unfold Z.sub. rewrite inject_Z_plus.
    change (inject_Z (- (1))) with (-1 # 1). lra. }
  assert (H2 : (c < Qfloor E + 2)%Z).
  { rewrite Zlt_Qlt, inject_Z_plus. change (inject_Z 2) with 2. lra. }
  lia.
Qed.

(** Off the ties the score is the nearest integer to the exact
    percentage, for the sets that four arrays can hold. *)
Lemma score_off_ties (issues : IssueSet.t) :
  (0 < Spec.size issues < 2 ^ 34)%Z ->
  ~ Spec.tie (Spec.exact_percentage issues) ->
  _calculateCompliance issues
  = Spec.round_half_up (Spec.exact_percentage issues).
Proof.
  intros [Hpos Hbound] Hnt.
  destruct (score_window issues Hpos) as [Hlo Hhi].
  pose proof (exact_percentage_quotient issues Hpos) as HE.
  pose proof (points_bounds issues) as Hp.
  set (T := Spec.size issues) in *.
  set (a := (100 * T - Spec.points issues)%Z) in *.
  set (E := Spec.exact_percentage issues) in *.
  set (c := _calculateCompliance issues) in *.
  pose proof (Z.div_mod (2 * a + T) (2 * T) ltac:(lia)) as Hdm.
  pose proof (Z.mod_pos_bound (2 * a + T) (2 * T) ltac:(lia)) as [Hr0 Hr1].
  set (k := ((2 * a + T) / (2 * T))%Z) in *.
  set (r := ((2 * a + T) mod (2 * T))%Z) in *.
  assert (HT : 0 < inject_Z T) by (change 0 with (inject_Z 0); now rewrite <- Zlt_Qlt).
  assert (HTb : inject_Z T < 17179869184).
  { change 17179869184 with (inject_Z (2 ^ 34)). now rewrite <- Zlt_Qlt. }
  assert (Hsum : E + (1 # 2) == inject_Z k + inject_Z r / (2 * inject_Z T)).
  { rewrite HE.
    assert (Hq : 2 * inject_Z a + inject_Z T
                 == 2 * inject_Z T * inject_Z k + inject_Z r).
    { change 2 with (inject_Z 2).
      rewrite <- !inject_Z_mult, <- !inject_Z_plus. apply inject_Z_injective.
      exact Hdm. }
    assert (HT0 : ~ inject_Z T == 0) by lra.
    setoid_replace (inject_Z a / inject_Z T + (1 # 2))
      with ((2 * inject_Z a + inject_Z T) / (2 * inject_Z T))
      by (field; exact HT0).
    rewrite Hq. field. exact HT0. }
  set (u := inject_Z r / (2 * inject_Z T)) in *.
  assert (Hr : (r <> 0)%Z).
  { intros Hz. apply Hnt. unfold Spec.tie. fold E.
    assert (Hu : u == 0) by (unfold u; rewrite Hz; reflexivity).
    assert (HEk : E == inject_Z k - (1 # 2)) by lra.
    assert (Hf : Qfloor E = (k - 1)%Z).
    { apply floor_unique; unfold Z.sub; rewrite inject_Z_plus;
        change (inject_Z (- (1))) with (-1 # 1); lra. }
    rewrite Hf. unfold Z.sub. rewrite inject_Z_plus.
    change (inject_Z (- (1))) with (-1 # 1). lra. }
  assert (HR1 : 1 <= inject_Z r).
  { change 1 with (inject_Z 1). rewrite <- Zle_Qle. lia. }
  assert (HR2 : inject_Z r + 1 <= 2 * inject_Z T).
  { change 2 with (inject_Z 2). change 1 with (inject_Z 1).
    rewrite <- inject_Z_mult, <- inject_Z_plus, <- Zle_Qle. lia. }
  assert (Hu1 : Double.eta < u).
  { unfold u. apply Qlt_shift_div_l; [lra |]. unfold Double.eta. lra. }
  assert (Hu2 : u < 1 - Double.eta).
  { unfold u. apply Qlt_shift_div_r; [lra |]. unfold Double.eta. lra. }
  unfold Spec.round_half_up. fold E.
  assert (Hfloor : Qfloor (E + (1 # 2)) = k).
  { apply floor_unique; unfold Double.eta in *; lra. }
  rewrite Hfloor. unfold Double.eta in *.
  assert (H1 : (k - 1 < c)%Z).
  { rewrite Zlt_Qlt. unfold Z.sub. rewrite inject_Z_plus.
    change (inject_Z (- (1))) with (-1 # 1). lra. }
  assert (H2 : (c < k + 1)%Z).
  { rewrite Zlt_Qlt, inject_Z_plus. change (inject_Z 1) with 1. lra. }
  lia.
Qed.

End Nearest.

(** C3 fails on the code at a tie. For three serious issues and one
    moderate issue the formula gives 57.5 exactly, which both roundings of
    section 4.2 take to 58; the quotient and the product of the source are
    double-precision operations, their result lies just below 57.5 and
    [Math.round] takes it to 57. Another tie goes the other way: one
    moderate and one minor issue give 87.5 and the score 88. What holds for
    every issue set: the score lies between 0 and 100, it is 100 exactly
    when the set is empty, off the ties it is the nearest integer to the
    exact percentage (for the sets that four arrays can hold), and at a
    tie it is the half-up rounding or one less. *)
Theorem score_at_a_tie_is_not_the_rounding_of_the_formula :
  (Spec.exact_percentage (Sample.issues 0 3 1 0) == 115 # 2)%Q
  /\ Spec.round_half_up (115 # 2) = 58
  /\ Spec.round_half_even (115 # 2) = 58
  /\ AccessibilityAuditor._calculateCompliance (Sample.issues 0 3 1 0) = 57
  /\ (Spec.exact_percentage (Sample.issues 0 0 1 1) == 175 # 2)%Q
  /\ AccessibilityAuditor._calculateCompliance (Sample.issues 0 0 1 1) = 88
  /\ (forall issues : IssueSet.t,
        let compliance := AccessibilityAuditor._calculateCompliance issues in
        let exact := Spec.exact_percentage issues in
        0 <= compliance <= 100
        /\ (compliance = 100 <-> Spec.size issues = 0)
        /\ (0 < Spec.size issues < 2 ^ 34 ->
            ~ Spec.tie exact ->
            compliance = Spec.round_half_up exact
            /\ compliance = Spec.round_half_even exact)
        /\ (0 < Spec.size issues ->
            Spec.tie exact ->
            compliance = Spec.round_half_up exact
            \/ compliance = Spec.round_half_up exact - 1)).
Proof.
  split; [vm_compute; reflexivity |].
  split; [vm_compute; reflexivity |].
  split; [vm_compute; reflexivity |].
  split; [vm_compute; reflexivity |].
  split; [vm_compute; reflexivity |].
  split; [vm_compute; reflexivity |].
  intros issues compliance exact.
  pose proof (size_nonneg issues) as Hnn.
  assert (Hrange : 0 <= compliance <= 100
                   /\ (compliance = 100 <-> Spec.size issues = 0)).
  { destruct (Z.eq_dec (Spec.size issues) 0) as [E | NE].
    - subst compliance. rewrite (compliance_of_empty issues E).
      repeat split; lia.
    - pose proof (compliance_range_nonempty issues ltac:(lia)) as Hr.
      fold compliance in Hr. repeat split; lia. }
  destruct Hrange as [Hr Hiff].
  split; [exact Hr |]. split; [exact Hiff |]. split.
  - intros Hsize Hnt. subst compliance exact.
    rewrite (roundings_agree_off_ties _ Hnt).
    split; apply score_off_ties; assumption.
  - intros Hpos Htie. apply score_at_tie; assumption.
Qed.

(** C7, as stated, fails: from 199 minor issues, one more critical issue
    and one more minor issue both give the score 95 (the percentages 94.525
    and 95 round to the same integer), so the first is not strictly lower. *)
Lemma critical_added_score_not_strictly_lower :
  AccessibilityAuditor._calculateCompliance
    (Spec.add_critical (Sample.issues 0 0 0 199) Sample.issue) = 95
  /\ AccessibilityAuditor._calculateCompliance
       (Spec.add_minor (Sample.issues 0 0 0 199) Sample.issue) = 95
  /\ ~ (AccessibilityAuditor._calculateCompliance
          (Spec.add_critical (Sample.issues 0 0 0 199) Sample.issue)
        < AccessibilityAuditor._calculateCompliance
            (Spec.add_minor (Sample.issues 0 0 0 199) Sample.issue)).
Proof.
  assert (Ha : AccessibilityAuditor._calculateCompliance
                 (Spec.add_critical (Sample.issues 0 0 0 199) Sample.issue) = 95)
    by (vm_compute; reflexivity).
  assert (Hb : AccessibilityAuditor._calculateCompliance
                 (Spec.add_minor (Sample.issues 0 0 0 199) Sample.issue) = 95)
    by (vm_compute; reflexivity).
  rewrite Ha, Hb. repeat split. lia.
Qed.

(** C7, amended. For issue sets that differ only by one more critical issue
    against one more minor issue, the score of the first is never above the
    score of the second, and it is strictly lower whenever the sets hold at
    most 95 issues. *)
Theorem critical_added_score_not_above_minor_added :
  forall (base : IssueSet.t) (x y : Issue.t),
    AccessibilityAuditor._calculateCompliance (Spec.add_critical base x)
    <= AccessibilityAuditor._calculateCompliance (Spec.add_minor base y)
    /\ (Spec.size base + 1 <= 95 ->
        AccessibilityAuditor._calculateCompliance (Spec.add_critical base x)
        < AccessibilityAuditor._calculateCompliance (Spec.add_minor base y)).
Proof.
  intros base x y.
  pose proof (size_nonneg base) as Hnn.
  pose proof (points_bounds base) as Hp.
  assert (HA : 0 < Spec.size (Spec.add_critical base x))
    by (rewrite size_add_critical; lia).
  assert (HB : 0 < Spec.size (Spec.add_minor base y))
    by (rewrite size_add_minor; lia).
  split.
  - rewrite (compliance_of_nonempty _ HA), (compliance_of_nonempty _ HB).
    rewrite size_add_critical, size_add_minor,
      points_add_critical, points_add_minor.
    apply score_monotone; lia.
  - intros H95.
    destruct (score_window _ HA) as [_ Hup].
    destruct (score_window _ HB) as [Hlo _].
    rewrite (exact_percentage_quotient _ HA) in Hup.
    rewrite (exact_percentage_quotient _ HB) in Hlo.
    rewrite size_add_critical, points_add_critical in Hup.
    rewrite size_add_minor, points_add_minor in Hlo.
    pose proof (rounding_gap
                  (100 * (Spec.size base + 1) - (Spec.points base + 100))
                  (Spec.size base + 1) ltac:(lia)) as Hgap.
    replace (100 * (Spec.size base + 1) - (Spec.points base + 100) + 95)
      with (100 * (Spec.size base + 1) - (Spec.points base + 5)) in Hgap by ring.
    set (qa := (inject_Z (100 * (Spec.size base + 1) - (Spec.points base + 100))
                / inject_Z (Spec.size base + 1))%Q) in *.
    set (qb := (inject_Z (100 * (Spec.size base + 1) - (Spec.points base + 5))
                / inject_Z (Spec.size base + 1))%Q) in *.
    set (sa := AccessibilityAuditor._calculateCompliance
                 (Spec.add_critical base x)) in *.
    set (sb := AccessibilityAuditor._calculateCompliance
                 (Spec.add_minor base y)) in *.
    assert (H1 : sa <= Qfloor (qa + Double.eta + (1 # 2))).
    { rewrite <- (Qfloor_Z sa). apply Qfloor_resp_le. exact Hup. }
    assert (H2 : Qfloor (qb - Double.eta + (1 # 2)) <= sb).
    { apply Z.lt_succ_r. rewrite Zlt_Qlt.
      eapply Qle_lt_trans; [apply Qfloor_le |].
      unfold Z.succ. rewrite inject_Z_plus. change (inject_Z 1) with 1%Q.
      lra. }
    lia.
Qed.

(** ** Order and content of the buckets *)

Section BucketOrder.

Import AccessibilityAuditor.

Lemma lands_in_plain (issue : Pa11y.issue) (bucket : string) :
  JS.inherited (Pa11y.type issue) = false ->
  Notions.lands_in bucket issue
  = String.eqb (Spec.bucket (Pa11y.type issue)) bucket.
Proof.
  intros Hni. unfold Notions.lands_in.
  rewrite (category_of_plain_severity _ Hni). reflexivity.
Qed.

Lemma categorize_returns_plain (issues mid : IssueSet.t) (issue : Pa11y.issue) :
  categorize issues issue = Return mid ->
  JS.inherited (Pa11y.type issue) = false.
Proof.
  intros H. destruct (JS.inherited (Pa11y.type issue)) eqn:Hi; [| reflexivity].
  destruct (categorize_inherited issues issue Hi) as [e He]. congruence.
Qed.

(** One step of the loop: the finding goes to the end of the bucket it
    lands in, and the other buckets are left alone. *)
Lemma categorize_step (issues mid : IssueSet.t) (issue : Pa11y.issue) :
  categorize issues issue = Return mid ->
  IssueSet.critical mid
  = IssueSet.critical issues
    ++ map Notions.enrich (filter (Notions.lands_in "critical") [issue])
  /\ IssueSet.serious mid
     = IssueSet.serious issues
       ++ map Notions.enrich (filter (Notions.lands_in "serious") [issue])
  /\ IssueSet.moderate mid
     = IssueSet.moderate issues
       ++ map Notions.enrich (filter (Notions.lands_in "moderate") [issue])
  /\ IssueSet.minor mid
     = IssueSet.minor issues
       ++ map Notions.enrich (filter (Notions.lands_in "minor") [issue]).
Proof.
  intros H. pose proof (categorize_returns_plain _ _ _ H) as Hni.
  rewrite (categorize_follows_spec _ _ Hni) in H.
  cbn [filter]. rewrite !(lands_in_plain _ _ Hni).
  fold (Notions.enrich issue) in H.
  unfold Spec.bucket in *.
  destruct (String.eqb (Pa11y.type issue) "error");
    [| destruct (String.eqb (Pa11y.type issue) "warning");
       [| destruct (String.eqb (Pa11y.type issue) "notice")]];
    cbn in H; injection H as <-; cbn;
    rewrite ?app_nil_r; repeat split; reflexivity.
Qed.

Lemma forEach_buckets (arr : list Pa11y.issue) :
  forall issues issues',
    forEach arr issues = Return issues' ->
    IssueSet.critical issues'
    = IssueSet.critical issues
      ++ map Notions.enrich (filter (Notions.lands_in "critical") arr)
    /\ IssueSet.serious issues'
       = IssueSet.serious issues
         ++ map Notions.enrich (filter (Notions.lands_in "serious") arr)
    /\ IssueSet.moderate issues'
       = IssueSet.moderate issues
         ++ map Notions.enrich (filter (Notions.lands_in "moderate") arr)
    /\ IssueSet.minor issues'
       = IssueSet.minor issues
         ++ map Notions.enrich (filter (Notions.lands_in "minor") arr).
Proof.
  induction arr as [| issue rest IH]; intros issues issues' H.
  - injection H as <-. cbn. rewrite !app_nil_r. repeat split; reflexivity.
  - cbn [forEach] in H.
    destruct (categorize issues issue) as [mid |] eqn:Hstep;
      cbn [JS.bind] in H; [| discriminate H].
    apply IH in H. destruct H as (Hc & Hs & Hm & Hn).
    apply categorize_step in Hstep. destruct Hstep as (Sc & Ss & Sm & Sn).
    rewrite Hc, Hs, Hm, Hn, Sc, Ss, Sm, Sn.
    change (issue :: rest) with ([issue] ++ rest).
    rewrite !filter_app, !map_app, !app_assoc.
    repeat split; reflexivity.
Qed.

End BucketOrder.

(** X1. When [_processResults] returns, each bucket holds, in the order in
    which the engine reported them, exactly the findings whose severity
    the map sends to it, each one enriched with its WCAG level and
    criterion. *)
Theorem buckets_keep_engine_order :
  forall (config : Config.t) (auditResult : Pa11y.result) (w : World)
         (results : AuditResult.t),
    AccessibilityAuditor._processResults config auditResult w = Return results ->
    let issues := AuditResult.issues results in
    let findings := Pa11y.issues auditResult in
    IssueSet.critical issues
    = map Notions.enrich (filter (Notions.lands_in "critical") findings)
    /\ IssueSet.serious issues
       = map Notions.enrich (filter (Notions.lands_in "serious") findings)
    /\ IssueSet.moderate issues
       = map Notions.enrich (filter (Notions.lands_in "moderate") findings)
    /\ IssueSet.minor issues
       = map Notions.enrich (filter (Notions.lands_in "minor") findings).
Proof.
  intros config auditResult w results H issues findings.
  unfold AccessibilityAuditor._processResults in H.
  destruct (AccessibilityAuditor.forEach _ _) as [found |] eqn:Hloop;
    cbn [JS.bind] in H; [| discriminate H].
  injection H as <-. subst issues. cbn [AuditResult.issues].
  apply forEach_buckets in Hloop. exact Hloop.
Qed.

Lemma buckets_keep_engine_order_witness :
  exists results,
    AccessibilityAuditor._processResults Sample.test_config
      (Sample.scan [ Sample.finding "notice" "label";
                     Sample.finding "error" "image-alt";
                     Sample.finding "error" "label" ])
      (Sample.world 0) = Return results
    /\ map Issue.code (IssueSet.critical (AuditResult.issues results))
       = ["image-alt"; "label"].
Proof.
  eexists. split; [reflexivity |].
  rewrite (proj1 (buckets_keep_engine_order Sample.test_config
                    (Sample.scan [ Sample.finding "notice" "label";
                                   Sample.finding "error" "image-alt";
                                   Sample.finding "error" "label" ])
                    (Sample.world 0) _ eq_refl)).
  reflexivity.
Defined.

(** ** The two lookup tables *)

(** X2. For each of the twelve rule codes the tables know, the criterion
    text names the level that [_getWCAGLevel] gives. For every other code
    (apart from the member names of [Object.prototype]) the level defaults
    to AA while the criterion text defaults to one that names Level A. *)
Theorem wcag_tables_agree_on_known_codes_only :
  forall code : string,
    (In code Notions.knownCodes ->
     exists level title,
       AccessibilityAuditor._getWCAGLevel code = JS.Str level
       /\ (level = "A" \/ level = "AA")
       /\ AccessibilityAuditor._getWCAGCriteria code
          = JS.Str ("WCAG 2.1 Level " ++ level ++ " - " ++ title)%string)
    /\ (~ In code Notions.knownCodes ->
        JS.inherited code = false ->
        AccessibilityAuditor._getWCAGLevel code = JS.Str "AA"
        /\ AccessibilityAuditor._getWCAGCriteria code
           = JS.Str "WCAG 2.1 Level A - General Accessibility").
Proof.
  intros code. split.
  - intros Hin. cbn in Hin.
    repeat (destruct Hin as [<- | Hin];
            [do 2 eexists; split; [reflexivity |];
             split; [(left; reflexivity) || (right; reflexivity) | reflexivity]
            |]).
    contradiction.
  - intros Hnot Hni.
    assert (Hown : forall table,
               map fst table = Notions.knownCodes ->
               JS.own_property table code = None).
    { intros table Hkeys. revert Hnot. rewrite <- Hkeys. clear Hkeys.
      induction table as [| [k v] rest IH]; intros Hnot; [reflexivity |].
      cbn [JS.own_property]. cbn [map fst In] in Hnot.
      destruct (String.eqb_spec k code) as [-> | _].
      - exfalso. apply Hnot. now left.
      - apply IH. intros Hin. apply Hnot. now right. }
    unfold AccessibilityAuditor._getWCAGLevel,
      AccessibilityAuditor._getWCAGCriteria, JS.get.
    rewrite (Hown AccessibilityAuditor.levelMap eq_refl),
      (Hown AccessibilityAuditor.criteriaMap eq_refl), Hni.
    split; reflexivity.
Qed.

(** ** Recommendations *)



(** ** The report against the checker *)




(** ** More on the score *)

Section ScoreOrder.

Import AccessibilityAuditor.
Local Open Scope Q_scope.

Lemma inject_Z_pos (z : Z) : (0 < z)%Z -> 0 < inject_Z z.
Proof. intros H. change 0 with (inject_Z 0). now rewrite <- Zlt_Qlt. Qed.

Lemma inject_Z_nonneg (z : Z) : (0 <= z)%Z -> 0 <= inject_Z z.
Proof. intros H. change 0 with (inject_Z 0). now rewrite <- Zle_Qle. Qed.

(** Two quotients compared by cross multiplication. *)
Lemma quotient_le (a M b N : Z) :
  (0 < M)%Z -> (0 < N)%Z -> (a * N <= b * M)%Z ->
  inject_Z a / inject_Z M <= inject_Z b / inject_Z N.
Proof.
  intros HM HN Hc.
  pose proof (inject_Z_pos M HM) as HMq.
  pose proof (inject_Z_pos N HN) as HNq.
  assert (Hq : inject_Z a * inject_Z N <= inject_Z b * inject_Z M)
    by (rewrite <- !inject_Z_mult, <- Zle_Qle; exact Hc).
  apply Qle_shift_div_l; [exact HNq |].
  setoid_replace (inject_Z a / inject_Z M * inject_Z N)
    with (inject_Z a * inject_Z N / inject_Z M)
    by (field; lra).
  apply Qle_shift_div_r; [exact HMq | exact Hq].
Qed.

(** The score grows with the quotient it rounds. *)
Lemma score_monotone_quotient (a M b N : Z) :
  (0 <= a)%Z -> (0 < M)%Z -> (0 < N)%Z -> (a * N <= b * M)%Z ->
  (JS.Math_round (Double.mul (Double.div (inject_Z a) (inject_Z M)) (inject_Z 100))
   <= JS.Math_round (Double.mul (Double.div (inject_Z b) (inject_Z N)) (inject_Z 100)))%Z.
Proof.
  intros Ha HM HN Hc.
  pose proof (quotient_le a M b N HM HN Hc) as Hu.
  assert (Hu0 : 0 <= inject_Z a / inject_Z M).
  { apply Qle_shift_div_l; [apply inject_Z_pos; exact HM |].
    pose proof (inject_Z_nonneg a Ha). lra. }
  unfold Double.div, Double.mul, JS.Math_round.
  pose proof (round_mono _ _ Hu0 Hu) as Hv.
  pose proof (round_nonneg _ Hu0) as Hv0.
  set (va := Double.round (inject_Z a / inject_Z M)) in *.
  set (vb := Double.round (inject_Z b / inject_Z N)) in *.
  change (inject_Z 100) with 100.
  assert (Hw : Double.round (va * 100) <= Double.round (vb * 100))
    by (apply round_mono; lra).
  apply Qfloor_resp_le. lra.
Qed.

(** The set with the lower penalty for each issue has the score that is
    not lower. *)
Lemma score_by_average (A B : IssueSet.t) :
  (0 < Spec.size A)%Z -> (0 < Spec.size B)%Z ->
  (Spec.points A * Spec.size B <= Spec.points B * Spec.size A)%Z ->
  (_calculateCompliance B <= _calculateCompliance A)%Z.
Proof.
  intros HA HB Hc.
  rewrite (compliance_of_nonempty A HA), (compliance_of_nonempty B HB).
  pose proof (points_bounds B) as HpB.
  apply score_monotone_quotient; nia.
Qed.

Lemma score_of_equal_average (A B : IssueSet.t) :
  (0 < Spec.size A)%Z -> (0 < Spec.size B)%Z ->
  (Spec.points A * Spec.size B = Spec.points B * Spec.size A)%Z ->
  _calculateCompliance A = _calculateCompliance B.
Proof.
  intros HA HB Hc.
  pose proof (score_by_average A B HA HB ltac:(lia)).
  pose proof (score_by_average B A HB HA ltac:(lia)).
  lia.
Qed.

End ScoreOrder.

(** X5. The score orders issue sets by their penalty for each issue (100
    for a critical, 50 for a serious, 20 for a moderate and 5 for a minor
    issue, divided by the number of issues): of two sets that are not
    empty, the one with the lower or equal average has the score that is
    higher or equal, whatever the rounding of the two floating-point
    operations; so sets with the same average have the same score. *)
Theorem score_is_ordered_by_average_penalty :
  forall A B : IssueSet.t,
    0 < Spec.size A -> 0 < Spec.size B ->
    (Spec.points A * Spec.size B <= Spec.points B * Spec.size A ->
     AccessibilityAuditor._calculateCompliance B
     <= AccessibilityAuditor._calculateCompliance A)
    /\ (Spec.points A * Spec.size B = Spec.points B * Spec.size A ->
        AccessibilityAuditor._calculateCompliance A
        = AccessibilityAuditor._calculateCompliance B).
Proof.
  intros A B HA HB. split.
  - apply score_by_average; assumption.
  - apply score_of_equal_average; assumption.
Qed.

Lemma score_is_ordered_by_average_penalty_witness :
  AccessibilityAuditor._calculateCompliance (Sample.issues 1 2 0 3)
  <= AccessibilityAuditor._calculateCompliance (Sample.issues 0 1 1 2).
Proof.
  apply (proj1 (score_is_ordered_by_average_penalty
                  (Sample.issues 0 1 1 2) (Sample.issues 1 2 0 3)
                  ltac:(vm_compute; reflexivity)
                  ltac:(vm_compute; reflexivity))).
  vm_compute. discriminate.
Defined.

(** X6. A set that holds issues of one severity only has the score of that
    severity, whatever their number: 0 for critical issues, 50 for serious
    ones, 80 for moderate ones and 95 for minor ones. *)
Theorem score_of_one_severity :
  forall issues : IssueSet.t,
    0 < Spec.size issues ->
    (Spec.size issues = len (IssueSet.critical issues) ->
     AccessibilityAuditor._calculateCompliance issues = 0)
    /\ (Spec.size issues = len (IssueSet.serious issues) ->
        AccessibilityAuditor._calculateCompliance issues = 50)
    /\ (Spec.size issues = len (IssueSet.moderate issues) ->
        AccessibilityAuditor._calculateCompliance issues = 80)
    /\ (Spec.size issues = len (IssueSet.minor issues) ->
        AccessibilityAuditor._calculateCompliance issues = 95).
Proof.
  intros issues Hpos.
  pose proof (len_nonneg (IssueSet.critical issues)).
  pose proof (len_nonneg (IssueSet.serious issues)).
  pose proof (len_nonneg (IssueSet.moderate issues)).
  pose proof (len_nonneg (IssueSet.minor issues)).
  repeat split; intros E.
  - rewrite (score_of_equal_average issues (Sample.issues 1 0 0 0) Hpos
               ltac:(vm_compute; reflexivity)).
    + vm_compute. reflexivity.
    + change (Spec.points (Sample.issues 1 0 0 0)) with 100.
      change (Spec.size (Sample.issues 1 0 0 0)) with 1.
      unfold Spec.points, Spec.size in *. lia.
  - rewrite (score_of_equal_average issues (Sample.issues 0 1 0 0) Hpos
               ltac:(vm_compute; reflexivity)).
    + vm_compute. reflexivity.
    + change (Spec.points (Sample.issues 0 1 0 0)) with 50.
      change (Spec.size (Sample.issues 0 1 0 0)) with 1.
      unfold Spec.points, Spec.size in *. lia.
  - rewrite (score_of_equal_average issues (Sample.issues 0 0 1 0) Hpos
               ltac:(vm_compute; reflexivity)).
    + vm_compute. reflexivity.
    + change (Spec.points (Sample.issues 0 0 1 0)) with 20.
      change (Spec.size (Sample.issues 0 0 1 0)) with 1.
      unfold Spec.points, Spec.size in *. lia.
  - rewrite (score_of_equal_average issues (Sample.issues 0 0 0 1) Hpos
               ltac:(vm_compute; reflexivity)).
    + vm_compute. reflexivity.
    + change (Spec.points (Sample.issues 0 0 0 1)) with 5.
      change (Spec.size (Sample.issues 0 0 0 1)) with 1.
      unfold Spec.points, Spec.size in *. lia.
Qed.

Lemma score_of_one_severity_witness :
  AccessibilityAuditor._calculateCompliance (Sample.issues 0 7 0 0) = 50.
Proof.
  apply (proj1 (proj2 (score_of_one_severity (Sample.issues 0 7 0 0)
                         ltac:(vm_compute; reflexivity)))).
  vm_compute. reflexivity.
Defined.

(** X7. The score of a set that is not empty is the exact percentage
    rounded to an integer below or above it: it is never farther than one
    half and [10^-12] from the exact value, and it is at most 95. *)
Theorem score_is_exact_percentage_rounded :
  forall issues : IssueSet.t,
    0 < Spec.size issues ->
    let score := AccessibilityAuditor._calculateCompliance issues in
    let exact := Spec.exact_percentage issues in
    (score = Qfloor exact \/ score = Qceiling exact)
    /\ (Qabs (inject_Z score - exact) <= (1 # 2) + Double.eta)%Q
    /\ score <= 95.
Proof.
  intros issues Hpos score exact.
  destruct (score_window issues Hpos) as [Hlo Hhi].
  fold score in Hlo, Hhi. fold exact in Hlo, Hhi.
  pose proof (compliance_range_nonempty issues Hpos) as [_ H95].
  fold score in H95.
  split; [| split; [| exact H95]].
  - pose proof (Qfloor_le exact) as Hf.
    pose proof (Qlt_floor exact) as Hf'.
    pose proof (Qle_ceiling exact) as Hc.
    pose proof (Qceiling_lt exact) as Hc'.
    unfold Z.sub in Hc'.
    rewrite inject_Z_plus in Hf', Hc'.
    change (inject_Z 1) with 1%Q in Hf'.
    change (inject_Z (- (1))) with (-1 # 1)%Q in Hc'.
    unfold Double.eta in *.
    assert (H1 : (inject_Z (Qfloor exact + -1) < inject_Z score)%Q).
    { rewrite inject_Z_plus. change (inject_Z (-1)) with (-1 # 1)%Q. lra. }
    assert (H2 : (inject_Z score < inject_Z (Qceiling exact + 1))%Q).
    { rewrite inject_Z_plus. change (inject_Z 1) with 1%Q. lra. }
    rewrite <- Zlt_Qlt in H1, H2.
    assert (H4 : Qceiling exact < Qfloor exact + 2).
    { rewrite Zlt_Qlt. rewrite inject_Z_plus.
      change (inject_Z 2) with 2%Q. lra. }
    assert (H3 : Qfloor exact <= Qceiling exact).
    { rewrite Zle_Qle. lra. }
    lia.
  - apply Qabs_Qle_condition. unfold Double.eta in *. split; lra.
Qed.

Lemma score_is_exact_percentage_rounded_witness :
  AccessibilityAuditor._calculateCompliance (Sample.issues 1 0 0 199) <= 95.
Proof.
  apply (proj2 (proj2 (score_is_exact_percentage_rounded
                         (Sample.issues 1 0 0 199)
                         ltac:(vm_compute; reflexivity)))).
Defined.

(** ** A page without findings *)

(** X8. When the engine reports no finding, [_processResults] returns a
    result with the score 100, all counts 0 and empty buckets; its report
    carries the Gold level and no recommendation. Its status is PASSED
    only when the thresholds read are not negative: below zero, the
    critical threshold fails a page that has no issue at all. A threshold
    that is [NaN] is not below zero and lets the page pass. *)
Theorem page_without_findings :
  forall (config : Config.t) (auditResult : Pa11y.result) (w : World),
    Pa11y.issues auditResult = [] ->
    exists results : AuditResult.t,
      AccessibilityAuditor._processResults config auditResult w = Return results
      /\ AuditResult.compliance results = 100
      /\ AuditResult.issues results = IssueSet.empty
      /\ Summary.total (AuditResult.summary results) = 0
      /\ ReportGenerator._getCertificationLevel results
         = "Gold - Excellent Accessibility"
      /\ ReportGenerator._generateRecommendations results = []
      /\ (AuditResult.status results = PASSED
          <-> ~ JS.gt (JS.Num 0) (Config.maxCriticalIssues config)
              /\ (Config.failOnSerious config = true ->
                  ~ JS.gt (JS.Num 0) (Config.maxSeriousIssues config)))
      /\ (forall maxCritical maxSerious : Z,
            Config.maxCriticalIssues config = JS.Num maxCritical ->
            Config.maxSeriousIssues config = JS.Num maxSerious ->
            (AuditResult.status results = PASSED
             <-> 0 <= maxCritical
                 /\ (Config.failOnSerious config = true -> 0 <= maxSerious))).
Proof.
  intros config auditResult w Hnone.
  unfold AccessibilityAuditor._processResults. rewrite Hnone.
  cbn [AccessibilityAuditor.forEach JS.bind].
  eexists. split; [reflexivity |].
  cbn [AuditResult.compliance AuditResult.issues AuditResult.summary
       AuditResult.status Summary.total].
  repeat (split; [reflexivity |]).
  rewrite determineStatus_bool.
  change (len (IssueSet.critical IssueSet.empty)) with 0.
  change (len (IssueSet.serious IssueSet.empty)) with 0.
  unfold JS.gt.
  assert (Hgen :
            (if JS.gtb (JS.Num 0) (Config.maxCriticalIssues config)
                || Config.failOnSerious config
                   && JS.gtb (JS.Num 0) (Config.maxSeriousIssues config)
             then FAILED else PASSED) = PASSED
            <-> JS.gtb (JS.Num 0) (Config.maxCriticalIssues config) <> true
                /\ (Config.failOnSerious config = true ->
                    JS.gtb (JS.Num 0) (Config.maxSeriousIssues config) <> true)).
  { destruct (JS.gtb (JS.Num 0) (Config.maxCriticalIssues config)),
             (Config.failOnSerious config),
             (JS.gtb (JS.Num 0) (Config.maxSeriousIssues config));
      cbn [andb orb]; split; intros H;
      try reflexivity; try discriminate H;
      try (split; [discriminate | intros; discriminate]);
      try (destruct H as [H1 H2]; try (now elim H1);
           now elim (H2 eq_refl)). }
  split; [exact Hgen |].
  intros maxCritical maxSerious Hc Hs. rewrite Hgen, Hc, Hs, !gtb_Num.
  rewrite !Z.gtb_ltb.
  destruct (Z.ltb_spec maxCritical 0), (Z.ltb_spec maxSerious 0);
    split; intros [H1 H2]; split; try lia; try discriminate;
    try (intros Hf; specialize (H2 Hf); try lia; try discriminate;
         try (now elim H2));
    try (now elim H1).
Qed.

Lemma page_without_findings_witness :
  exists results : AuditResult.t,
    AccessibilityAuditor._processResults Sample.default_config (Sample.scan [])
      (Sample.world 0) = Return results
    /\ AuditResult.compliance results = 100.
Proof.
  destruct (page_without_findings Sample.default_config (Sample.scan [])
              (Sample.world 0) eq_refl) as (results & H & Hc & _).
  exists results. split; [exact H | exact Hc].
Defined.

(** ** The auditor object *)

Lemma audit_returns_processed (config : Config.t)
    (pa11y : string -> string -> World -> Completion Pa11y.result * World)
    (url : string) (w w' : World) (results : AuditResult.t) :
  AccessibilityAuditor.audit config pa11y url w = (Return results, w') ->
  exists auditResult w2,
    AccessibilityAuditor._processResults config auditResult w2 = Return results.
Proof.
  unfold AccessibilityAuditor.audit.
  destruct (pa11y url (Config.wcagLevel config) _) as [[auditResult | e] w2];
    cbn [JS.bind].
  - destruct (AccessibilityAuditor._processResults config auditResult w2)
      as [r | e] eqn:Hp; intros H; inversion H; subst.
    exists auditResult, w2. exact Hp.
  - intros H. inversion H.
Qed.

(** X9. After an audit that succeeds, [getSummary()] and [getIssues()]
    are those of the results returned, and [isPassed()] is the verdict
    that the threshold checker gives on them, provided the thresholds that
    decide are numbers. After an audit that fails, the three still answer
    for the audit that succeeded before it, or with [null] when there was
    none. *)
Theorem auditor_answers_for_last_successful_audit :
  forall (config : Config.t)
         (pa11y : string -> string -> World -> Completion Pa11y.result * World)
         (url : string) (this : AuditorObject.state) (w wc : World),
    let '(outcome, this', _) := AuditorObject.audit config pa11y url this w in
    match outcome with
    | Return results =>
        (Notions.decisive_thresholds_are_numbers config ->
         AuditorObject.isPassed this'
         = Some (ComplianceResult.passed
                   (fst (ComplianceChecker.check config results wc))))
        /\ AuditorObject.getSummary this' = Some (AuditResult.summary results)
        /\ AuditorObject.getIssues this' = Some (AuditResult.issues results)
    | Throw _ =>
        AuditorObject.isPassed this' = AuditorObject.isPassed this
        /\ AuditorObject.getSummary this' = AuditorObject.getSummary this
        /\ AuditorObject.getIssues this' = AuditorObject.getIssues this
    end.
Proof.
  intros config pa11y url this w wc. unfold AuditorObject.audit.
  destruct (AccessibilityAuditor.audit config pa11y url w)
    as [[results | e] w'] eqn:Ha.
  - destruct (audit_returns_processed _ _ _ _ _ _ Ha) as (auditResult & w2 & Hp).
    cbn [AuditorObject.isPassed AuditorObject.getSummary AuditorObject.getIssues].
    repeat split.
    intros Hnum.
    pose proof (status_field_agrees_with_check config auditResult w2 wc results
                  Hnum Hp) as Hs.
    destruct (AuditResult.status results),
             (ComplianceResult.passed
                (fst (ComplianceChecker.check config results wc)));
      try reflexivity.
    + destruct Hs as [Hs _]. specialize (Hs eq_refl). discriminate Hs.
    + destruct Hs as [_ Hs]. specialize (Hs eq_refl). discriminate Hs.
  - repeat split.
Qed.

(** ** The state of the service *)

Section Service.

Variable env : Api.Env.

(** What [POST /api/audit/run] can do. *)
Lemma run_cases (url : option string) (st : Api.State) (w : World) :
  let '(response, st', _) := Api.run env url st w in
  (st' = st
   /\ exists message,
        Api.body response = Api.Error message
        /\ (Api.code response = 400
            /\ (url = None \/ url = Some EmptyString)
            \/ Api.code response = 500
               /\ exists u, url = Some u /\ u <> EmptyString))
  \/ (exists record compliance details auditResult w2 wc u,
        response = {| Api.code := 200;
                      Api.body := Api.Ran true record compliance details |}
        /\ st' = {| Api.latestAudit := Some record;
                    Api.auditHistory := Api.auditHistory st ++ [record] |}
        /\ url = Some u /\ u <> EmptyString
        /\ Api.url record = u
        /\ AccessibilityAuditor._processResults (Api.config env) auditResult w2
           = Return details
        /\ compliance = fst (ComplianceChecker.check (Api.config env) details wc)
        /\ Api.status record = AuditResult.status details
        /\ Api.complianceScore record = AuditResult.compliance details
        /\ Api.summary record = AuditResult.summary details
        /\ Api.compliancePassed record = ComplianceResult.passed compliance).
Proof.
  unfold Api.run.
  destruct url as [u |]; [| left; split; [reflexivity |]; eexists; split;
                            [reflexivity | left; split; [reflexivity | now left]]].
  destruct (String.eqb_spec u EmptyString) as [-> | Hu].
  { left. split; [reflexivity |]. eexists. split; [reflexivity |].
    left. split; [reflexivity | now right]. }
  destruct (AccessibilityAuditor.audit _ _ _ _) as [[details | e] w1] eqn:Ha.
  2:{ left. split; [reflexivity |]. eexists. split; [reflexivity |].
      right. split; [reflexivity |]. exists u. now split. }
  destruct (audit_returns_processed _ _ _ _ _ _ Ha) as (auditResult & w2 & Hp).
  destruct (ComplianceChecker.check (Api.config env) details w1)
    as [compliance wc'] eqn:Hc.
  destruct (ReportFiles.ensureOutputDir _ _ _ _) as [[[] | e] w3].
  2:{ left. split; [reflexivity |]. eexists. split; [reflexivity |].
      right. split; [reflexivity |]. exists u. now split. }
  destruct (ReportFiles.generateReport _ _ _ _ _) as [[[filepath report] | e] w4].
  2:{ left. split; [reflexivity |]. eexists. split; [reflexivity |].
      right. split; [reflexivity |]. exists u. now split. }
  right. do 3 eexists. exists auditResult, w2, w1, u.
  split; [reflexivity |]. split; [reflexivity |].
  split; [reflexivity |]. split; [exact Hu |]. split; [reflexivity |].
  split; [exact Hp |]. split; [now rewrite Hc |].
  repeat split.
Qed.

Lemma last_of_app {A} (arr : list A) (x : A) :
  Notions.last_of (arr ++ [x]) = Some x.
Proof. unfold Notions.last_of. rewrite rev_app_distr. reflexivity. Qed.

Lemma last_of_skipn {A} (n : nat) (arr : list A) :
  (n < length arr)%nat ->
  Notions.last_of (skipn n arr) = Notions.last_of arr.
Proof.
  intros Hn. rewrite <- (firstn_skipn n arr) at 2.
  destruct (skipn n arr) as [| x rest] eqn:Hs.
  - apply (f_equal (@length A)) in Hs. rewrite length_skipn in Hs.
    cbn in Hs. lia.
  - unfold Notions.last_of. rewrite rev_app_distr.
    destruct (rev (x :: rest)) as [| y ys] eqn:Hr; [| reflexivity].
    apply (f_equal (@length A)) in Hr. rewrite length_rev in Hr.
    cbn in Hr. lia.
Qed.

Lemma last_of_slice_last {A} (n : nat) (arr : list A) :
  (0 < n)%nat -> Notions.last_of (Lib.slice_last n arr) = Notions.last_of arr.
Proof.
  intros Hn. unfold Lib.slice_last.
  destruct arr as [| x rest]; [reflexivity |].
  apply last_of_skipn. cbn [length]. lia.
Qed.

Lemma slice_last_suffix {A} (n : nat) (arr : list A) :
  exists older,
    arr = older ++ Lib.slice_last n arr
    /\ length (Lib.slice_last n arr) = Nat.min n (length arr).
Proof.
  unfold Lib.slice_last. exists (firstn (length arr - n) arr).
  split; [now rewrite firstn_skipn |]. rewrite length_skipn. lia.
Qed.

Lemma handle_keeps_in_step (request : Api.Request) (st : Api.State) (w : World) :
  Notions.in_step st ->
  let '(_, st', _) := Api.handle env request st w in Notions.in_step st'.
Proof.
  intros Hst. destruct request; cbn [Api.handle]; try exact Hst;
    try (destruct (Api.download env filename w); exact Hst).
  pose proof (run_cases url st w) as H.
  destruct (Api.run env url st w) as [[response st'] w'].
  destruct H as [[-> _] | (record & ? & ? & ? & ? & ? & ? & _ & -> & _)].
  - exact Hst.
  - unfold Notions.in_step. cbn [Api.latestAudit Api.auditHistory].
    now rewrite last_of_app.
Qed.

Lemma serve_keeps_in_step (requests : list (Z * Api.Request)) :
  forall (st : Api.State) (w : World),
    Notions.in_step st -> Notions.in_step (fst (Api.serve env requests st w)).
Proof.
  induction requests as [| [elapsed request] rest IH]; intros st w Hst.
  - exact Hst.
  - cbn [Api.serve].
    pose proof (handle_keeps_in_step request st (elapse elapsed w) Hst) as H.
    destruct (Api.handle env request st (elapse elapsed w)) as [[r st'] w'].
    apply IH. exact H.
Qed.

Lemma serve_appends (requests : list (Z * Api.Request)) :
  forall (st : Api.State) (w : World),
  exists added,
    Api.auditHistory (fst (Api.serve env requests st w))
    = Api.auditHistory st ++ added
    /\ (length added <= length (filter Notions.is_run requests))%nat.
Proof.
  induction requests as [| [elapsed request] rest IH]; intros st w.
  - exists []. split; [now rewrite app_nil_r | cbn; lia].
  - cbn [Api.serve filter].
    destruct request;
      cbn [Api.handle Notions.is_run snd];
      try (destruct (IH st (elapse elapsed w)) as (added & -> & Hlen);
           exists added; split; [reflexivity | exact Hlen]);
      try (destruct (Api.download env filename (elapse elapsed w))
             as [response w'];
           destruct (IH st w') as (added & -> & Hlen);
           exists added; split; [reflexivity | exact Hlen]).
    pose proof (run_cases url st (elapse elapsed w)) as H.
    destruct (Api.run env url st (elapse elapsed w)) as [[response st'] w'].
    destruct (IH st' w') as (added & -> & Hlen).
    destruct H as [[-> _] | (record & ? & ? & ? & ? & ? & ? & _ & -> & _)].
    + exists added. split; [reflexivity | cbn [length]; lia].
    + cbn [Api.auditHistory]. exists (record :: added).
      split; [now rewrite <- app_assoc | cbn [length]; lia].
Qed.

End Service.

(** X10. However the service was used since it started, the latest audit
    it returns is the newest record of the history it returns, and it has
    no latest audit (404) exactly as long as the history is empty. *)
Theorem latest_is_newest_of_history :
  forall (env : Api.Env) (requests : list (Z * Api.Request)) (w : World),
    let st := fst (Api.serve env requests Api.initial w) in
    match Api.body (Api.history st) with
    | Api.History records =>
        match Api.body (Api.latest st) with
        | Api.Audit record =>
            Api.code (Api.latest st) = 200
            /\ Notions.last_of records = Some record
        | Api.Error _ => Api.code (Api.latest st) = 404 /\ records = []
        | _ => False
        end
    | _ => False
    end.
Proof.
  intros env requests w st.
  pose proof (serve_keeps_in_step env requests Api.initial w eq_refl) as H.
  fold st in H. unfold Notions.in_step in H.
  unfold Api.history, Api.latest. cbn [Api.body].
  rewrite H.
  rewrite <- (last_of_slice_last 20 (Api.auditHistory st)) by lia.
  destruct (Lib.slice_last 20 (Api.auditHistory st)) as [| x rest] eqn:Hs.
  - cbn. split; reflexivity.
  - destruct (Notions.last_of (x :: rest)) as [record |] eqn:Hl.
    + cbn. split; reflexivity.
    + unfold Notions.last_of in Hl.
      destruct (rev (x :: rest)) as [| y ys] eqn:Hr; [| discriminate Hl].
      apply (f_equal (@length _)) in Hr. rewrite length_rev in Hr.
      cbn in Hr. lia.
Qed.

(** X11. [POST /api/audit/run] answers 400 exactly when the body has no
    URL or an empty one, and a request that is answered 400 or 500 leaves
    the latest audit and the history as they were. A request answered 200
    appends one record and makes it the latest; the record carries the URL
    requested, its [compliancePassed] is the [passed] of the checker's
    result in the answer, and, when the thresholds that decide are
    numbers, it is [true] exactly when its [status] is PASSED. *)
Theorem run_records_or_leaves_state :
  forall (env : Api.Env) (url : option string) (st : Api.State) (w : World),
    let '(response, st', _) := Api.run env url st w in
    match Api.body response with
    | Api.Ran success record compliance details =>
        Api.code response = 200
        /\ success = true
        /\ st' = {| Api.latestAudit := Some record;
                    Api.auditHistory := Api.auditHistory st ++ [record] |}
        /\ url = Some (Api.url record)
        /\ Api.compliancePassed record = ComplianceResult.passed compliance
        /\ (Notions.decisive_thresholds_are_numbers (Api.config env) ->
            (Api.compliancePassed record = true
             <-> Api.status record = PASSED))
        /\ Api.complianceScore record = AuditResult.compliance details
    | Api.Error _ =>
        st' = st
        /\ (Api.code response = 400 \/ Api.code response = 500)
        /\ (Api.code response = 400 <-> url = None \/ url = Some EmptyString)
    | _ => False
    end.
Proof.
  intros env url st w.
  pose proof (run_cases env url st w) as H.
  destruct (Api.run env url st w) as [[response st'] w'].
  destruct H as [[-> (message & -> & Hcode)]
                | (record & compliance & details & auditResult & w2 & wc & u
                   & -> & -> & -> & Hu & Hurl & Hp & Hc & Hs & Hsc & _ & Hcp)].
  - split; [reflexivity |].
    destruct Hcode as [[-> Hurl] | [-> (u & -> & Hu)]].
    + split; [now left |]. split; [intros _; exact Hurl | reflexivity].
    + split; [now right |]. split; [discriminate |].
      intros [H | H]; [discriminate H | injection H as ->; now elim Hu].
  - cbn [Api.body Api.code].
    split; [reflexivity |]. split; [reflexivity |]. split; [reflexivity |].
    split; [now rewrite Hurl |]. split; [exact Hcp |].
    split; [| exact Hsc].
    intros Hnum. rewrite Hcp, Hs, Hc. symmetry.
    apply (status_field_agrees_with_check _ _ _ _ _ Hnum Hp).
Qed.

(** X12. The history is only ever appended to: after any requests it is
    the history from before followed by at most one record for each run
    requested, and no request removes or reorders a record.
    [GET /api/audit/history] returns the end of it: all the records while
    there are at most twenty, the last twenty after that, in the order in
    which they were made. *)
Theorem history_is_append_only :
  forall (env : Api.Env) (requests : list (Z * Api.Request))
         (st : Api.State) (w : World),
    let st' := fst (Api.serve env requests st w) in
    (exists added,
       Api.auditHistory st' = Api.auditHistory st ++ added
       /\ (length added <= length (filter Notions.is_run requests))%nat)
    /\ (exists older records,
          Api.history st' = {| Api.code := 200; Api.body := Api.History records |}
          /\ Api.auditHistory st' = older ++ records
          /\ length records = Nat.min 20 (length (Api.auditHistory st'))).
Proof.
  intros env requests st w st'. split.
  - apply serve_appends.
  - destruct (slice_last_suffix 20 (Api.auditHistory st')) as (older & H1 & H2).
    exists older, (Lib.slice_last 20 (Api.auditHistory st')).
    split; [reflexivity |]. split; [exact H1 | exact H2].
Qed.

(** ** The order of strings *)

Section StringOrder.

Lemma compare_units_refl (a : list N) : Lib.compare_units a a = Eq.
Proof.
  induction a as [| x a IH]; [reflexivity |].
  cbn [Lib.compare_units]. now rewrite N.compare_refl.
Qed.

Lemma compare_units_antisym (a : list N) :
  forall b, Lib.compare_units a b = CompOpp (Lib.compare_units b a).
Proof.
  induction a as [| x a IH]; intros [| y b]; cbn [Lib.compare_units];
    try reflexivity.
  rewrite (N.compare_antisym y x).
  destruct (y ?= x)%N; cbn [CompOpp]; [apply IH | reflexivity | reflexivity].
Qed.

Lemma compare_units_lt_trans (a : list N) :
  forall b c,
    Lib.compare_units a b = Lt -> Lib.compare_units b c = Lt ->
    Lib.compare_units a c = Lt.
Proof.
  induction a as [| x a IH]; intros [| y b] [| z c];
    cbn [Lib.compare_units]; try congruence.
  destruct (N.compare_spec x y) as [E12 | L12 | G12];
    destruct (N.compare_spec y z) as [E23 | L23 | G23];
    intros H12 H23; try discriminate H12; try discriminate H23.
  - rewrite E12, E23, N.compare_refl. now apply (IH b c).
  - rewrite E12. now rewrite (proj2 (N.compare_lt_iff _ _) L23).
  - rewrite <- E23. now rewrite (proj2 (N.compare_lt_iff _ _) L12).
  - now rewrite (proj2 (N.compare_lt_iff _ _) (N.lt_trans _ _ _ L12 L23)).
Qed.

Lemma compare_units_eq (a : list N) :
  forall b, Lib.compare_units a b = Eq -> a = b.
Proof.
  induction a as [| x a IH]; intros [| y b]; cbn [Lib.compare_units];
    try discriminate; [reflexivity |].
  destruct (N.compare_spec x y) as [-> | |]; try discriminate.
  intros H. now rewrite (IH b H).
Qed.

Lemma leb_refl (s : string) : Lib.leb s s = true.
Proof. unfold Lib.leb, Lib.compare. now rewrite compare_units_refl. Qed.

Lemma leb_total (s1 s2 : string) :
  Lib.leb s1 s2 = true \/ Lib.leb s2 s1 = true.
Proof.
  unfold Lib.leb, Lib.compare.
  rewrite (compare_units_antisym (Lib.units s2) (Lib.units s1)).
  destruct (Lib.compare_units (Lib.units s1) (Lib.units s2)); cbn; auto.
Qed.

Lemma leb_trans (s1 s2 s3 : string) :
  Lib.leb s1 s2 = true -> Lib.leb s2 s3 = true -> Lib.leb s1 s3 = true.
Proof.
  unfold Lib.leb, Lib.compare.
  destruct (Lib.compare_units (Lib.units s1) (Lib.units s2)) eqn:H12;
    try discriminate;
    destruct (Lib.compare_units (Lib.units s2) (Lib.units s3)) eqn:H23;
    try discriminate; intros _ _.
  - apply compare_units_eq in H12. rewrite H12, H23. reflexivity.
  - apply compare_units_eq in H12. rewrite H12, H23. reflexivity.
  - apply compare_units_eq in H23. rewrite <- H23, H12. reflexivity.
  - now rewrite (compare_units_lt_trans _ _ _ H12 H23).
Qed.

Lemma sort_insert_in (x y : string) (sorted : list string) :
  In y (Lib.sort_insert x sorted) <-> y = x \/ In y sorted.
Proof.
  induction sorted as [| z rest IH]; cbn [Lib.sort_insert].
  - cbn. intuition.
  - destruct (Lib.leb x z); cbn [In]; [intuition |].
    rewrite IH. intuition.
Qed.

Lemma sort_in (y : string) (arr : list string) :
  In y (Lib.sort arr) <-> In y arr.
Proof.
  induction arr as [| x rest IH]; [reflexivity |].
  cbn [Lib.sort In]. rewrite sort_insert_in, IH. intuition.
Qed.

Lemma sort_insert_ascending (x : string) (sorted : list string) :
  Notions.ascending sorted -> Notions.ascending (Lib.sort_insert x sorted).
Proof.
  induction sorted as [| z rest IH]; intros Hs; cbn [Lib.sort_insert].
  - cbn. split; [intros ? [] | exact I].
  - destruct Hs as [Hz Hrest].
    destruct (Lib.leb x z) eqn:Hxz.
    + split; [| split; assumption].
      intros y [<- | Hy]; [exact Hxz |].
      apply (leb_trans x z y Hxz). now apply Hz.
    + split; [| now apply IH].
      intros y Hy. apply sort_insert_in in Hy as [-> | Hy]; [| now apply Hz].
      destruct (leb_total x z) as [H | H]; [congruence | exact H].
Qed.

Lemma sort_ascending (arr : list string) : Notions.ascending (Lib.sort arr).
Proof.
  induction arr as [| x rest IH]; [exact I |].
  cbn [Lib.sort]. now apply sort_insert_ascending.
Qed.

Lemma ascending_last_greatest (front : list string) (m : string) :
  Notions.ascending (front ++ [m]) ->
  forall y, In y (front ++ [m]) -> Lib.leb y m = true.
Proof.
  induction front as [| x rest IH]; cbn [app Notions.ascending In].
  - intros _ y [<- | []]. apply leb_refl.
  - intros [Hx Hrest] y [<- | Hy].
    + apply Hx. apply in_or_app. right. now left.
    + now apply IH.
Qed.

(** The first of the names sorted and reversed is the greatest. *)
Lemma reversed_sort_head (arr : list string) (m : string) (rest : list string) :
  rev (Lib.sort arr) = m :: rest ->
  In m arr /\ forall y, In y arr -> Lib.leb y m = true.
Proof.
  intros H.
  assert (E : Lib.sort arr = rev rest ++ [m]).
  { rewrite <- (rev_involutive (Lib.sort arr)), H. reflexivity. }
  pose proof (sort_ascending arr) as Hs. rewrite E in Hs.
  split.
  - apply sort_in. rewrite E. apply in_or_app. right. now left.
  - intros y Hy. apply (ascending_last_greatest _ _ Hs).
    rewrite <- E. now apply sort_in.
Qed.

(** An ASCII character is one code unit, its own number. *)
Lemma units_ascii (c : ascii) (rest : string) :
  (N_of_ascii c < 128)%N ->
  Lib.units (String c rest) = N_of_ascii c :: Lib.units rest.
Proof.
  intros Hc. cbn [Lib.units].
  destruct (N.ltb_spec (N_of_ascii c) 128); [reflexivity | lia].
Qed.

(** Any other character starts with a code unit from 128 on. *)
Lemma units_not_ascii (c : ascii) (rest : string) :
  (128 <= N_of_ascii c)%N ->
  exists u us, Lib.units (String c rest) = u :: us /\ (128 <= u)%N.
Proof.
  intros Hc. cbn [Lib.units]. set (b := N_of_ascii c) in *.
  assert (Hm : forall tail, exists u us,
             65533%N :: tail = u :: us /\ (128 <= u)%N)
    by (intros tail; do 2 eexists; split; [reflexivity | lia]).
  destruct (N.ltb_spec b 128); [lia |].
  destruct (N.ltb_spec b 194); [apply Hm |].
  destruct (N.ltb_spec b 224).
  { destruct rest as [| c1 rest1]; [apply Hm |].
    destruct (Lib.continuation c1) as [x1 |]; [| apply Hm].
    do 2 eexists. split; [reflexivity | lia]. }
  destruct (N.ltb_spec b 240).
  { destruct rest as [| c1 rest1]; [apply Hm |].
    destruct (Lib.continuation c1) as [x1 |]; [| apply Hm].
    cbv zeta.
    match goal with
    | |- context [if ?t then _ else _] => destruct t eqn:Hv
    end; [| apply Hm].
    apply andb_true_iff in Hv as [Hv _]. apply N.leb_le in Hv.
    destruct rest1 as [| c2 rest2]; [apply Hm |].
    destruct (Lib.continuation c2) as [x2 |]; [| apply Hm].
    do 2 eexists. split; [reflexivity | lia]. }
  destruct (N.ltb_spec b 245); [| apply Hm].
  destruct rest as [| c1 rest1]; [apply Hm |].
  destruct (Lib.continuation c1) as [x1 |]; [| apply Hm].
  cbv zeta.
  match goal with
  | |- context [if ?t then _ else _] => destruct t
  end; [| apply Hm].
  destruct rest1 as [| c2 rest2]; [apply Hm |].
  destruct (Lib.continuation c2) as [x2 |]; [| apply Hm].
  destruct rest2 as [| c3 rest3]; [apply Hm |].
  destruct (Lib.continuation c3) as [x3 |]; [| apply Hm].
  do 2 eexists. split; [reflexivity |].
  apply N.le_trans with 55296%N; [lia | apply N.le_add_r].
Qed.

(** Against an ASCII string the order of the code units is the order of
    the bytes. *)
Lemma compare_ascii (a : string) :
  Notions.ascii_only a = true ->
  forall b, Lib.compare a b = String.compare a b.
Proof.
  unfold Lib.compare.
  induction a as [| c a IH]; intros Ha b.
  - destruct b as [| d b]; [reflexivity |].
    cbn [String.compare]. change (Lib.units EmptyString) with (@nil N).
    destruct (N.lt_ge_cases (N_of_ascii d) 128) as [Hd | Hd].
    + now rewrite (units_ascii d b Hd).
    + destruct (units_not_ascii d b Hd) as (u & us & -> & _). reflexivity.
  - cbn [Notions.ascii_only] in Ha. apply andb_true_iff in Ha as [Hc Ha].
    apply N.ltb_lt in Hc. rewrite (units_ascii c a Hc).
    destruct b as [| d b]; [reflexivity |].
    cbn [String.compare]. unfold Ascii.compare.
    destruct (N.lt_ge_cases (N_of_ascii d) 128) as [Hd | Hd].
    + rewrite (units_ascii d b Hd). cbn [Lib.compare_units].
      destruct (N_of_ascii c ?= N_of_ascii d)%N; [now apply IH | reflexivity ..].
    + destruct (units_not_ascii d b Hd) as (u & us & -> & Hu).
      cbn [Lib.compare_units].
      rewrite (proj2 (N.compare_lt_iff _ _)) by lia.
      rewrite (proj2 (N.compare_lt_iff (N_of_ascii c) (N_of_ascii d))) by lia.
      reflexivity.
Qed.

Lemma leb_ascii (a b : string) :
  Notions.ascii_only a = true -> Lib.leb a b = String.leb a b.
Proof.
  intros Ha. unfold Lib.leb, String.leb. now rewrite (compare_ascii a Ha b).
Qed.

Lemma string_length_append (a b : string) :
  String.length (a ++ b) = (String.length a + String.length b)%nat.
Proof. induction a as [| c a IH]; cbn; [reflexivity | now rewrite IH]. Qed.

Lemma string_append_assoc (a b c : string) :
  (a ++ (b ++ c) = (a ++ b) ++ c)%string.
Proof. induction a as [| x a IH]; cbn; [reflexivity | now rewrite IH]. Qed.

Lemma substring_all (p : string) : String.substring 0 (String.length p) p = p.
Proof. induction p as [| c p IH]; cbn; [reflexivity | now rewrite IH]. Qed.

Lemma substring_suffix (a p : string) :
  String.substring (String.length a) (String.length p) (a ++ p) = p.
Proof.
  induction a as [| c a IH]; cbn [String.length String.append String.substring].
  - apply substring_all.
  - exact IH.
Qed.

Lemma endsWith_append (a p q : string) :
  String.length p = String.length q ->
  Lib.endsWith (a ++ p) q = String.eqb p q.
Proof.
  intros Hlen. unfold Lib.endsWith. rewrite string_length_append, <- Hlen.
  replace (String.length a + String.length p - String.length p)%nat
    with (String.length a) by lia.
  rewrite substring_suffix.
  destruct (Nat.leb_spec (String.length p) (String.length a + String.length p));
    [reflexivity | lia].
Qed.

(** The names that [generateReport] makes are ASCII. *)
Lemma ascii_only_append (a b : string) :
  Notions.ascii_only (a ++ b)
  = Notions.ascii_only a && Notions.ascii_only b.
Proof.
  induction a as [| c a IH]; [reflexivity |].
  cbn [String.append Notions.ascii_only]. now rewrite IH, andb_assoc.
Qed.

Lemma ascii_only_uint (d : Decimal.uint) :
  Notions.ascii_only (NilEmpty.string_of_uint d) = true.
Proof. induction d; cbn [NilEmpty.string_of_uint Notions.ascii_only]; auto. Qed.

Lemma ascii_only_num (n : Z) : Notions.ascii_only (JS.num_to_string n) = true.
Proof.
  unfold JS.num_to_string.
  destruct n as [| p | p]; cbn [Z.to_int NilZero.string_of_int];
    [reflexivity | |];
    unfold NilZero.string_of_uint;
    pose proof (ascii_only_uint (Pos.to_uint p)) as H;
    destruct (Pos.to_uint p); first [reflexivity | exact H].
Qed.

Lemma ascii_only_concat (parts : list string) :
  Forall (fun s => Notions.ascii_only s = true) parts ->
  Notions.ascii_only (String.concat EmptyString parts) = true.
Proof.
  induction 1 as [| x rest Hx Hrest IH]; [reflexivity |].
  destruct rest as [| y rest']; [exact Hx |].
  change (String.concat EmptyString (x :: y :: rest'))
    with (x ++ EmptyString ++ String.concat EmptyString (y :: rest'))%string.
  now rewrite !ascii_only_append, Hx, IH.
Qed.

Lemma ascii_only_pad (width : nat) (n : Z) :
  Notions.ascii_only (Lib.pad width n) = true.
Proof.
  unfold Lib.pad. rewrite ascii_only_append, ascii_only_num, andb_true_r.
  apply ascii_only_concat. apply Forall_forall.
  intros s Hs. apply repeat_spec in Hs. now subst s.
Qed.

Lemma ascii_only_isoDate (t : Z) : Notions.ascii_only (Lib.isoDate t) = true.
Proof.
  unfold Lib.isoDate.
  destruct (Lib.civil_from_days (t / 86400000)) as [[y m] d].
  rewrite !ascii_only_append, !ascii_only_pad.
  destruct ((0 <=? y) && (y <=? 9999)); [now rewrite ascii_only_pad |].
  destruct (y <? 0); rewrite ascii_only_append, ascii_only_pad; reflexivity.
Qed.

Lemma jsonReportName_ascii (t : Z) :
  Notions.ascii_only (ReportFiles.jsonReportName t) = true.
Proof.
  unfold ReportFiles.jsonReportName.
  now rewrite !ascii_only_append, ascii_only_isoDate.
Qed.

Lemma jsonReportName_is_report_name (t : Z) :
  CheckScript.isReportName (ReportFiles.jsonReportName t) = true.
Proof.
  unfold CheckScript.isReportName, ReportFiles.jsonReportName.
  apply andb_true_iff. split; [reflexivity |].
  rewrite string_append_assoc. now rewrite endsWith_append.
Qed.

End StringOrder.

(** ** The compliance-check script *)

(** X13. Among the entries of the reports directory the script chooses by
    name alone: it considers the names that begin with
    [compliance-report] and end in [.json], finds none exactly when the
    directory holds no such name, and otherwise takes the one that is
    greatest in the order of the UTF-16 code units, in which [sort]
    compares strings, whatever the dates of the files. Against an ASCII
    name that order is the order of the bytes. *)
Theorem script_takes_greatest_report_name :
  forall names : list string,
    (CheckScript.candidates names = []
     <-> forall f, In f names -> CheckScript.isReportName f = false)
    /\ (forall latest others,
          CheckScript.candidates names = latest :: others ->
          In latest names
          /\ CheckScript.isReportName latest = true
          /\ (forall f, In f names -> CheckScript.isReportName f = true ->
                        Lib.leb f latest = true)
          /\ (forall f, In f names -> CheckScript.isReportName f = true ->
                        Notions.ascii_only f = true ->
                        String.leb f latest = true)).
Proof.
  intros names. unfold CheckScript.candidates. split.
  - split.
    + intros E f Hf.
      destruct (CheckScript.isReportName f) eqn:Hr; [| reflexivity].
      assert (Hin : In f (rev (Lib.sort (filter CheckScript.isReportName names)))).
      { rewrite <- in_rev. apply sort_in. apply filter_In. now split. }
      rewrite E in Hin. destruct Hin.
    + intros Hnone.
      destruct (rev (Lib.sort (filter CheckScript.isReportName names)))
        as [| m rest] eqn:E; [reflexivity |].
      destruct (reversed_sort_head _ _ _ E) as [Hin _].
      apply filter_In in Hin as [Hin Hr].
      rewrite (Hnone m Hin) in Hr. discriminate Hr.
  - intros latest others E.
    destruct (reversed_sort_head _ _ _ E) as [Hin Hmax].
    apply filter_In in Hin as [Hin Hr].
    split; [exact Hin |]. split; [exact Hr |]. split.
    + intros f Hf Hfr. apply Hmax. apply filter_In. now split.
    + intros f Hf Hfr Ha. rewrite <- (leb_ascii f latest Ha).
      apply Hmax. apply filter_In. now split.
Qed.

(** X14. The name under which [generateReport] writes a report is one the
    script considers, whatever the instant, and the name of the HTML
    report of the same instant is not: when the directory lists a report
    written by [generateReport], the script finds a report whose name is
    that one or a greater one. *)
Theorem script_finds_generated_report :
  forall (t : Z) (names : list string),
    CheckScript.isReportName (ReportFiles.jsonReportName t) = true
    /\ CheckScript.isReportName (ReportFiles.htmlReportName t) = false
    /\ (In (ReportFiles.jsonReportName t) names ->
        exists latest others,
          CheckScript.candidates names = latest :: others
          /\ String.leb (ReportFiles.jsonReportName t) latest = true).
Proof.
  intros t names.
  pose proof (jsonReportName_is_report_name t) as Hjson.
  split; [exact Hjson |]. split.
  - unfold CheckScript.isReportName, ReportFiles.htmlReportName.
    apply andb_false_iff. right.
    rewrite string_append_assoc. now rewrite endsWith_append.
  - intros Hin.
    destruct (CheckScript.candidates names) as [| latest others] eqn:E.
    + exfalso.
      assert (Hc : In (ReportFiles.jsonReportName t)
                      (CheckScript.candidates names)).
      { unfold CheckScript.candidates. rewrite <- in_rev. apply sort_in.
        apply filter_In. now split. }
      rewrite E in Hc. destruct Hc.
    + exists latest, others. split; [reflexivity |].
      unfold CheckScript.candidates in E.
      destruct (reversed_sort_head _ _ _ E) as [_ Hmax].
      rewrite <- (leb_ascii _ latest (jsonReportName_ascii t)).
      apply Hmax. apply filter_In. now split.
Qed.

Lemma script_finds_generated_report_witness :
  exists latest others,
    CheckScript.candidates
      [ "notes.txt"; ReportFiles.jsonReportName 1767225600000;
        ReportFiles.htmlReportName 1767225600000 ]
    = latest :: others
    /\ String.leb (ReportFiles.jsonReportName 1767225600000) latest = true.
Proof.
  apply (proj2 (proj2 (script_finds_generated_report 1767225600000
                         [ "notes.txt"; ReportFiles.jsonReportName 1767225600000;
                           ReportFiles.htmlReportName 1767225600000 ]))).
  right. left. reflexivity.
Defined.

(** X15. The script exits with 0 only when it has read a report and the
    counts of that report are within the thresholds of the configuration
    in force when the script runs: the critical count at most
    [maxCriticalIssues] and, when [failOnSerious] is set, the serious
    count at most [maxSeriousIssues]. In every other case (no directory,
    no report, a report that cannot be read, counts above the thresholds)
    it exits with 1. The status and the certification stored in the
    report, and the fields of the audit result that the report does not
    give back, play no part. *)
Theorem script_exit_code :
  forall (__dirname : string) (config : Config.t) (fs : Fs.t)
         (absent : JS.IsoString * string * string) (w : World),
    let reportsDir :=
      path.join [__dirname; ".."; Config.reportOutputDir config] in
    let code :=
      CheckScript.exitCode
        (fst (CheckScript.checkCompliance __dirname config fs absent w)) in
    (code = 0 \/ code = 1)
    /\ (code = 0 <->
        exists names latest others report,
          Fs.existsSync fs reportsDir = true
          /\ Fs.readdirSync fs reportsDir = Return names
          /\ CheckScript.candidates names = latest :: others
          /\ Fs.readReport fs (path.join [reportsDir; latest]) = Return report
          /\ JS.le (JS.Num (JsonReport.critical (JsonReport.r_summary report)))
                   (Config.maxCriticalIssues config)
          /\ (Config.failOnSerious config = true ->
              JS.le (JS.Num (JsonReport.serious (JsonReport.r_summary report)))
                    (Config.maxSeriousIssues config))).
Proof.
  intros __dirname config fs absent w reportsDir code.
  subst code. unfold CheckScript.checkCompliance. fold reportsDir.
  destruct (Fs.existsSync fs reportsDir) eqn:Hdir; cbn [negb].
  2:{ cbn. split; [now right |]. split; [discriminate |].
      intros (? & ? & ? & ? & H & _). discriminate H. }
  destruct (Fs.readdirSync fs reportsDir) as [names | e] eqn:Hnames.
  2:{ cbn. split; [now right |]. split; [discriminate |].
      intros (? & ? & ? & ? & _ & H & _). discriminate H. }
  destruct (CheckScript.candidates names) as [| latest others] eqn:Hcand.
  { cbn. split; [now right |]. split; [discriminate |].
    intros (? & ? & ? & ? & _ & H & H' & _).
    injection H as <-. rewrite Hcand in H'. discriminate H'. }
  destruct (Fs.readReport fs (path.join [reportsDir; latest]))
    as [report | e] eqn:Hread.
  2:{ cbn. split; [now right |]. split; [discriminate |].
      intros (? & ? & ? & ? & _ & H & H' & H'' & _).
      injection H as <-. rewrite Hcand in H'. injection H' as <- <-.
      rewrite Hread in H''. discriminate H''. }
  pose proof (check_passed_field config (CheckScript.rebuild absent report) w)
    as Hpassed.
  rewrite overall_pass_bool in Hpassed.
  destruct (ComplianceChecker.check config (CheckScript.rebuild absent report) w)
    as [complianceResult w'].
  cbn [fst CheckScript.exitCode]. cbn [fst] in Hpassed. rewrite Hpassed.
  cbn [CheckScript.rebuild AuditResult.summary Summary.critical Summary.serious].
  unfold JS.le.
  destruct (JS.leb (JS.Num (JsonReport.critical (JsonReport.r_summary report)))
                   (Config.maxCriticalIssues config)) eqn:Hc;
    destruct (Config.failOnSerious config) eqn:Hf;
    destruct (JS.leb (JS.Num (JsonReport.serious (JsonReport.r_summary report)))
                     (Config.maxSeriousIssues config)) eqn:Hs;
    cbn [andb orb negb];
    (split; [(now left) || (now right) |]);
    split;
    try discriminate;
    try (intros _; exists names, latest, others, report;
         repeat (split; [first [reflexivity | assumption] |]);
         intros; first [assumption | discriminate]);
    intros (names' & latest' & others' & report' & _ & H1 & H2 & H3 & H4 & H5);
    injection H1 as <-; rewrite Hcand in H2; injection H2 as <- <-;
    rewrite Hread in H3; injection H3 as <-;
    try congruence; specialize (H5 eq_refl); congruence.
Qed.

(** ** Paths of files in the reports directory *)

Section PlainNames.

Lemma split_nonempty (p : string) : path.split p <> [].
Proof.
  destruct p as [| c rest]; cbn [path.split]; [discriminate |].
  destruct (Ascii.eqb c path.slash); [discriminate |].
  destruct (path.split rest); discriminate.
Qed.

Lemma split_plain (name : string) :
  Notions.has_slash name = false -> path.split name = [name].
Proof.
  induction name as [| c rest IH]; cbn [Notions.has_slash path.split];
    [reflexivity |].
  intros H. apply orb_false_iff in H as [Hc Hrest].
  rewrite Hc, (IH Hrest). reflexivity.
Qed.

Lemma split_snoc (p name : string) :
  Notions.has_slash name = false ->
  path.split (p ++ "/" ++ name) = path.split p ++ [name].
Proof.
  intros Hname. induction p as [| c rest IH].
  - cbn [String.append path.split app].
    change (Ascii.eqb "/" path.slash) with true. cbn iota.
    now rewrite (split_plain name Hname).
  - cbn [String.append path.split] in *. rewrite IH.
    destruct (Ascii.eqb c path.slash); [reflexivity |].
    pose proof (split_nonempty rest) as Hne.
    destruct (path.split rest) as [| seg segs]; [now elim Hne | reflexivity].
Qed.

Lemma normalizeString_snoc (allowAboveRoot : bool) (name : string)
    (segs : list string) :
  String.eqb name EmptyString = false ->
  String.eqb name "." = false ->
  String.eqb name ".." = false ->
  forall res,
    path.normalizeString allowAboveRoot (segs ++ [name]) res
    = path.normalizeString allowAboveRoot segs res ++ [name].
Proof.
  intros H0 H1 H2.
  induction segs as [| seg rest IH]; intros res.
  - cbn [app path.normalizeString]. rewrite H0, H1, H2. reflexivity.
  - cbn [app path.normalizeString].
    destruct (String.eqb seg EmptyString || String.eqb seg "."); [apply IH |].
    destruct (String.eqb seg "..").
    + destruct res as [| last before]; [apply IH |].
      destruct (String.eqb last ".."); apply IH.
    + apply IH.
Qed.

Lemma normalizeString_segments (allowAboveRoot : bool) (segs : list string) :
  forall res,
    Forall (fun s => s <> EmptyString) res ->
    Forall (fun s => s <> EmptyString)
           (path.normalizeString allowAboveRoot segs res).
Proof.
  induction segs as [| seg rest IH]; intros res Hres.
  - cbn [path.normalizeString]. now apply Forall_rev.
  - cbn [path.normalizeString].
    destruct (String.eqb_spec seg EmptyString) as [-> | Hseg]; cbn [orb];
      [now apply IH |].
    destruct (String.eqb seg "."); [now apply IH |].
    destruct (String.eqb seg "..").
    + destruct res as [| last before].
      * apply IH. destruct allowAboveRoot; repeat constructor. discriminate.
      * destruct (String.eqb last "..").
        -- apply IH. destruct allowAboveRoot; [| exact Hres].
           constructor; [discriminate | exact Hres].
        -- apply IH. now inversion Hres.
    + apply IH. now constructor.
Qed.

Lemma ends_with_slash_append (a b : string) :
  b <> EmptyString ->
  path.ends_with_slash (a ++ b) = path.ends_with_slash b.
Proof.
  intros Hb. induction a as [| c rest IH]; [reflexivity |].
  cbn [String.append path.ends_with_slash]. rewrite <- IH.
  destruct (rest ++ b)%string eqn:E; [| reflexivity].
  destruct rest; [cbn in E; now elim Hb | discriminate E].
Qed.

Lemma ends_with_slash_plain (name : string) :
  Notions.has_slash name = false -> path.ends_with_slash name = false.
Proof.
  induction name as [| c rest IH]; cbn [Notions.has_slash path.ends_with_slash];
    [reflexivity |].
  intros H. apply orb_false_iff in H as [Hc Hrest].
  destruct rest; [exact Hc | now apply IH].
Qed.

Lemma ends_with_slash_slash (a : string) :
  path.ends_with_slash (a ++ "/") = true.
Proof. rewrite ends_with_slash_append by discriminate. reflexivity. Qed.

Lemma concat_snoc (parts : list string) (name : string) :
  parts <> [] ->
  String.concat "/" (parts ++ [name])
  = (String.concat "/" parts ++ "/" ++ name)%string.
Proof.
  induction parts as [| x rest IH]; [congruence |]. intros _.
  destruct rest as [| y rest'].
  - reflexivity.
  - cbn [app String.concat] in *. rewrite IH by discriminate.
    now rewrite <- !string_append_assoc.
Qed.

Lemma append_empty (a b : string) :
  (a ++ b)%string = EmptyString -> a = EmptyString /\ b = EmptyString.
Proof. destruct a; cbn; [tauto | discriminate]. Qed.

Lemma concat_segments_empty (segs : list string) :
  Forall (fun s => s <> EmptyString) segs ->
  String.concat "/" segs = EmptyString -> segs = [].
Proof.
  intros Hs E. destruct segs as [| x rest]; [reflexivity |].
  inversion Hs as [| ? ? Hx _]; subst.
  destruct rest; cbn [String.concat] in E.
  - now elim Hx.
  - apply append_empty in E as [E _]. now elim Hx.
Qed.

(** Joining a plain name to an absolute path. *)
Lemma normalize_child (p name : string) :
  path.starts_with_slash p = true ->
  Notions.plain name = true ->
  let dir := path.normalize p in
  let file := path.normalize (p ++ "/" ++ name) in
  file = (dir ++ "/" ++ name)%string
  \/ (path.ends_with_slash dir = true /\ file = (dir ++ name)%string).
Proof.
  intros Habs Hplain dir file.
  unfold Notions.plain in Hplain.
  apply andb_true_iff in Hplain as [Hplain Hslash].
  apply andb_true_iff in Hplain as [Hplain Hdd].
  apply andb_true_iff in Hplain as [Hne Hd].
  apply negb_true_iff in Hne, Hd, Hdd, Hslash.
  assert (Hname : name <> EmptyString)
    by (intros ->; discriminate Hne).
  assert (Hp : p <> EmptyString) by (intros ->; discriminate Habs).
  subst dir file. unfold path.normalize.
  destruct (String.eqb_spec p EmptyString) as [E | _]; [now elim Hp |].
  destruct (String.eqb_spec (p ++ "/" ++ name) EmptyString) as [E | _].
  { apply append_empty in E as [E _]. now elim Hp. }
  assert (Habs' : path.starts_with_slash (p ++ "/" ++ name) = true).
  { destruct p; [now elim Hp | exact Habs]. }
  rewrite Habs, Habs'. cbn [negb].
  rewrite (split_snoc p name Hslash).
  rewrite (normalizeString_snoc false name (path.split p) Hne Hd Hdd []).
  rewrite (ends_with_slash_append p ("/" ++ name)) by discriminate.
  change ("/" ++ name)%string with (String "/" name).
  assert (Htrail : path.ends_with_slash (String "/" name) = false).
  { cbn [path.ends_with_slash]. destruct name; [now elim Hname |].
    now apply ends_with_slash_plain. }
  rewrite Htrail.
  pose proof (normalizeString_segments false (path.split p) [] (Forall_nil _))
    as Hsegs.
  set (N := path.normalizeString false (path.split p) []) in *.
  destruct N as [| x rest] eqn:EN.
  - cbn [app String.concat].
    destruct (String.eqb_spec name EmptyString) as [E | _]; [now elim Hname |].
    change (String.eqb EmptyString EmptyString) with true. cbn iota.
    right. split; reflexivity.
  - rewrite (concat_snoc (x :: rest) name) by discriminate.
    change ("/" ++ name)%string with (String "/" name).
    destruct (String.eqb_spec (String.concat "/" (x :: rest)) EmptyString)
      as [E | _].
    { apply (concat_segments_empty _ Hsegs) in E. discriminate E. }
    destruct (String.eqb_spec
                (String.concat "/" (x :: rest) ++ String "/" name) EmptyString)
      as [E | _].
    { apply append_empty in E as [_ E]. discriminate E. }
    destruct (path.ends_with_slash p).
    + right. split.
      * change ("/" ++ String.concat "/" (x :: rest) ++ "/")%string
          with (("/" ++ String.concat "/" (x :: rest)) ++ "/")%string.
        apply ends_with_slash_slash.
      * cbn [String.append]. f_equal.
        now rewrite <- !string_append_assoc.
    + left. cbn [String.append]. f_equal.
Qed.

Lemma join_child (__dirname dir name : string) :
  path.starts_with_slash __dirname = true ->
  Notions.plain name = true ->
  let reportsDir := path.join [__dirname; ".."; dir] in
  let filepath := path.join [__dirname; ".."; dir; name] in
  filepath = (reportsDir ++ "/" ++ name)%string
  \/ (path.ends_with_slash reportsDir = true
      /\ filepath = (reportsDir ++ name)%string).
Proof.
  intros Habs Hplain reportsDir filepath.
  assert (Hname : String.eqb name EmptyString = false).
  { unfold Notions.plain in Hplain.
    destruct (String.eqb name EmptyString); [discriminate Hplain | reflexivity]. }
  assert (Hd : String.eqb __dirname EmptyString = false).
  { destruct __dirname; [discriminate Habs | reflexivity]. }
  subst reportsDir filepath. unfold path.join. cbn [filter].
  rewrite Hd, Hname. cbn [negb].
  change (String.eqb ".." EmptyString) with false. cbn [negb].
  destruct (String.eqb dir EmptyString); cbn [negb].
  - change [__dirname; ".."; name] with ([__dirname; ".."] ++ [name]).
    rewrite concat_snoc by discriminate.
    apply normalize_child; [| exact Hplain].
    cbn [String.concat]. destruct __dirname; [discriminate Habs | exact Habs].
  - change [__dirname; ".."; dir; name] with ([__dirname; ".."; dir] ++ [name]).
    rewrite concat_snoc by discriminate.
    apply normalize_child; [| exact Hplain].
    cbn [String.concat]. destruct __dirname; [discriminate Habs | exact Habs].
Qed.

(** The path that [normalize] makes of a plain name joined to an absolute
    path, in its segments. *)
Lemma normalize_child_segments (p name : string) :
  path.starts_with_slash p = true ->
  Notions.plain name = true ->
  path.normalize (p ++ "/" ++ name)
  = ("/" ++ String.concat "/"
              (path.normalizeString false (path.split p) [] ++ [name]))%string.
Proof.
  intros Habs Hplain.
  unfold Notions.plain in Hplain.
  apply andb_true_iff in Hplain as [Hplain Hslash].
  apply andb_true_iff in Hplain as [Hplain Hdd].
  apply andb_true_iff in Hplain as [Hne Hd].
  apply negb_true_iff in Hne, Hd, Hdd, Hslash.
  assert (Hname : name <> EmptyString) by (intros ->; discriminate Hne).
  assert (Hp : p <> EmptyString) by (intros ->; discriminate Habs).
  unfold path.normalize.
  destruct (String.eqb_spec (p ++ "/" ++ name) EmptyString) as [E | _].
  { apply append_empty in E as [E _]. now elim Hp. }
  assert (Habs' : path.starts_with_slash (p ++ "/" ++ name) = true).
  { destruct p; [now elim Hp | exact Habs]. }
  rewrite Habs'. cbn [negb].
  rewrite (split_snoc p name Hslash).
  rewrite (normalizeString_snoc false name (path.split p) Hne Hd Hdd []).
  rewrite (ends_with_slash_append p ("/" ++ name)) by discriminate.
  change ("/" ++ name)%string with (String "/" name).
  assert (Htrail : path.ends_with_slash (String "/" name) = false).
  { cbn [path.ends_with_slash]. destruct name; [now elim Hname |].
    now apply ends_with_slash_plain. }
  rewrite Htrail.
  set (N := path.normalizeString false (path.split p) []).
  destruct (String.eqb_spec (String.concat "/" (N ++ [name])) EmptyString)
    as [E | _]; [| reflexivity].
  exfalso. destruct N as [| x rest].
  - cbn in E. now elim Hname.
  - rewrite concat_snoc in E by discriminate.
    apply append_empty in E as [_ E]. discriminate E.
Qed.

Lemma split_segments (p : string) :
  Forall (fun s => Notions.has_slash s = false) (path.split p).
Proof.
  induction p as [| c rest IH]; cbn [path.split].
  - repeat constructor.
  - destruct (Ascii.eqb c path.slash) eqn:Hc.
    + constructor; [reflexivity | exact IH].
    + destruct (path.split rest) as [| seg segs]; [repeat constructor;
        cbn [Notions.has_slash]; now rewrite Hc |].
      inversion IH as [| ? ? Hseg Hsegs]; subst.
      constructor; [| exact Hsegs].
      cbn [Notions.has_slash]. now rewrite Hc, Hseg.
Qed.

Lemma split_cons (x rest : string) :
  Notions.has_slash x = false ->
  path.split (x ++ "/" ++ rest) = x :: path.split rest.
Proof.
  intros Hx. induction x as [| c x IH].
  - reflexivity.
  - cbn [Notions.has_slash] in Hx. apply orb_false_iff in Hx as [Hc Hx].
    cbn [String.append path.split] in *. rewrite Hc, (IH Hx). reflexivity.
Qed.

Lemma split_concat (segs : list string) :
  Forall (fun s => Notions.plain s = true) segs ->
  segs <> [] ->
  path.split (String.concat "/" segs) = segs.
Proof.
  induction 1 as [| x rest Hx Hrest IH]; [congruence |]. intros _.
  assert (Hs : Notions.has_slash x = false).
  { unfold Notions.plain in Hx. apply andb_true_iff in Hx as [_ Hx].
    now apply negb_true_iff. }
  destruct rest as [| y rest'].
  - cbn [String.concat]. now apply split_plain.
  - change (String.concat "/" (x :: y :: rest'))
      with (x ++ "/" ++ String.concat "/" (y :: rest'))%string.
    rewrite (split_cons x _ Hs), IH by discriminate. reflexivity.
Qed.

Lemma normalizeString_plain (segs : list string) :
  Forall (fun s => Notions.has_slash s = false) segs ->
  forall res,
    Forall (fun s => Notions.plain s = true) res ->
    Forall (fun s => Notions.plain s = true)
           (path.normalizeString false segs res).
Proof.
  induction 1 as [| seg rest Hseg Hrest IH]; intros res Hres.
  - cbn [path.normalizeString]. now apply Forall_rev.
  - cbn [path.normalizeString].
    destruct (String.eqb seg EmptyString) eqn:H0; cbn [orb]; [now apply IH |].
    destruct (String.eqb seg ".") eqn:H1; [now apply IH |].
    destruct (String.eqb seg "..") eqn:H2.
    + destruct res as [| last before]; [now apply IH |].
      destruct (String.eqb last ".."); [now apply IH |].
      apply IH. now inversion Hres.
    + apply IH. constructor; [| exact Hres].
      unfold Notions.plain. now rewrite H0, H1, H2, Hseg.
Qed.

Lemma normalizeString_of_plain (segs : list string) :
  Forall (fun s => Notions.plain s = true) segs ->
  forall res, path.normalizeString false segs res = rev res ++ segs.
Proof.
  induction 1 as [| seg rest Hseg Hrest IH]; intros res.
  - cbn [path.normalizeString]. now rewrite app_nil_r.
  - unfold Notions.plain in Hseg.
    apply andb_true_iff in Hseg as [Hseg _].
    apply andb_true_iff in Hseg as [Hseg H2].
    apply andb_true_iff in Hseg as [H0 H1].
    apply negb_true_iff in H0, H1, H2.
    cbn [path.normalizeString]. rewrite H0, H1, H2. cbn [orb].
    rewrite IH. cbn [rev]. now rewrite <- app_assoc.
Qed.

(** An absolute path made of plain segments is resolved to itself. *)
Lemma resolve_of_plain (segs : list string) :
  Forall (fun s => Notions.plain s = true) segs ->
  segs <> [] ->
  path.split (path.resolve ("/" ++ String.concat "/" segs))
  = EmptyString :: segs.
Proof.
  intros Hsegs Hne. unfold path.resolve.
  assert (Hsplit : path.split ("/" ++ String.concat "/" segs)
                   = EmptyString :: segs).
  { change ("/" ++ String.concat "/" segs)%string
      with (String "/" (String.concat "/" segs)).
    cbn [path.split]. change (Ascii.eqb "/" path.slash) with true. cbn iota.
    now rewrite split_concat. }
  rewrite Hsplit. cbn [path.normalizeString String.eqb orb].
  rewrite (normalizeString_of_plain segs Hsegs []). cbn [rev app].
  exact Hsplit.
Qed.

Lemma last_snoc {A} (l : list A) (x d : A) : last (l ++ [x]) d = x.
Proof.
  induction l as [| y l IH]; [reflexivity |].
  cbn [app last]. destruct (l ++ [x]) eqn:E; [| exact IH].
  destruct l; discriminate E.
Qed.

(** What [res.download] does with a plain name in an absolute directory
    depends on the name alone: it is refused exactly when it starts with
    a dot. *)
Lemma refused_child (p name : string) :
  path.starts_with_slash p = true ->
  Notions.plain name = true ->
  Server.refused (path.normalize (p ++ "/" ++ name))
  = Server.starts_with_dot name.
Proof.
  intros Habs Hplain.
  rewrite (normalize_child_segments p name Habs Hplain).
  set (N := path.normalizeString false (path.split p) []).
  assert (HN : Forall (fun s => Notions.plain s = true) (N ++ [name])).
  { apply Forall_app. split; [| now repeat constructor].
    apply normalizeString_plain; [apply split_segments | constructor]. }
  unfold Server.refused.
  rewrite (resolve_of_plain (N ++ [name]) HN) by (destruct N; discriminate).
  change (EmptyString :: N ++ [name]) with ((EmptyString :: N) ++ [name]).
  rewrite last_snoc, existsb_app. cbn [existsb]. rewrite orb_false_r.
  destruct (Server.starts_with_dot name) eqn:Hdot; [| apply andb_false_r].
  rewrite andb_true_r. apply orb_true_iff. right.
  unfold Notions.plain in Hplain.
  destruct name as [| c [| c2 rest]]; [discriminate Hdot | | exact Hdot].
  cbn [Server.starts_with_dot] in Hdot. apply Ascii.eqb_eq in Hdot. subst c.
  discriminate Hplain.
Qed.

Lemma refused_join (__dirname dir name : string) :
  path.starts_with_slash __dirname = true ->
  Notions.plain name = true ->
  Server.refused (path.join [__dirname; ".."; dir; name])
  = Server.starts_with_dot name.
Proof.
  intros Habs Hplain.
  assert (Hname : String.eqb name EmptyString = false).
  { unfold Notions.plain in Hplain.
    destruct (String.eqb name EmptyString); [discriminate Hplain | reflexivity]. }
  assert (Hd : String.eqb __dirname EmptyString = false).
  { destruct __dirname; [discriminate Habs | reflexivity]. }
  unfold path.join. cbn [filter].
  rewrite Hd, Hname. cbn [negb].
  change (String.eqb ".." EmptyString) with false. cbn [negb].
  destruct (String.eqb dir EmptyString); cbn [negb].
  - change [__dirname; ".."; name] with ([__dirname; ".."] ++ [name]).
    rewrite concat_snoc by discriminate.
    apply refused_child; [| exact Hplain].
    cbn [String.concat]. destruct __dirname; [discriminate Habs | exact Habs].
  - change [__dirname; ".."; dir; name] with ([__dirname; ".."; dir] ++ [name]).
    rewrite concat_snoc by discriminate.
    apply refused_child; [| exact Hplain].
    cbn [String.concat]. destruct __dirname; [discriminate Habs | exact Habs].
Qed.

End PlainNames.



(** ** The configuration read from the environment *)

Section Digits.

Lemma digits_of_uint_acc (d : Decimal.uint) :
  forall a : positive,
    EnvConfig.digits 10 (NilEmpty.string_of_uint d) (Some (Zpos a))
    = Some (Zpos (Pos.of_uint_acc d a)).
Proof.
  induction d; intros a;
    cbn [NilEmpty.string_of_uint EnvConfig.digits Pos.of_uint_acc];
    [reflexivity | ..];
    match goal with
    | |- context [EnvConfig.digit 10 ?c] =>
        let v := eval vm_compute in (EnvConfig.digit 10 c) in
        change (EnvConfig.digit 10 c) with v
    end;
    cbv iota beta; rewrite <- IHd; do 2 f_equal; lia.
Qed.

Lemma digits_of_uint_zero (d : Decimal.uint) :
  EnvConfig.digits 10 (NilEmpty.string_of_uint d) (Some 0)
  = Some (Z.of_N (Pos.of_uint d)).
Proof.
  induction d;
    cbn [NilEmpty.string_of_uint EnvConfig.digits Pos.of_uint];
    [reflexivity | ..];
    match goal with
    | |- context [EnvConfig.digit 10 ?c] =>
        let v := eval vm_compute in (EnvConfig.digit 10 c) in
        change (EnvConfig.digit 10 c) with v
    end;
    cbv iota beta; cbn [Z.mul Z.add];
    first [exact IHd | apply digits_of_uint_acc].
Qed.

Lemma digits_of_uint (d : Decimal.uint) :
  d <> Decimal.Nil ->
  EnvConfig.digits 10 (NilEmpty.string_of_uint d) None
  = Some (Z.of_N (Pos.of_uint d)).
Proof.
  destruct d; intros Hd; [now elim Hd | ..];
    cbn [NilEmpty.string_of_uint EnvConfig.digits Pos.of_uint];
    match goal with
    | |- context [EnvConfig.digit 10 ?c] =>
        let v := eval vm_compute in (EnvConfig.digit 10 c) in
        change (EnvConfig.digit 10 c) with v
    end;
    cbv iota beta;
    first [apply digits_of_uint_zero | apply digits_of_uint_acc].
Qed.

(** A character that is printable ASCII is not white space. *)
Lemma skipWhiteSpace_printable (c : ascii) (rest : string) :
  (33 <= nat_of_ascii c < 128)%nat ->
  EnvConfig.skipWhiteSpace (String c rest) = String c rest.
Proof.
  intros Hc. cbn [EnvConfig.skipWhiteSpace].
  set (b := nat_of_ascii c) in *.
  destruct (Nat.eqb_spec b 9); [lia |]. destruct (Nat.eqb_spec b 10); [lia |].
  destruct (Nat.eqb_spec b 11); [lia |]. destruct (Nat.eqb_spec b 12); [lia |].
  destruct (Nat.eqb_spec b 13); [lia |]. destruct (Nat.eqb_spec b 32); [lia |].
  cbn [orb].
  destruct rest as [| c2 rest2]; [reflexivity |].
  destruct (Nat.eqb_spec b 194); [lia |]. cbn [andb].
  destruct rest2 as [| c3 rest3]; [reflexivity |].
  destruct (Nat.eqb_spec b 225); [lia |]. destruct (Nat.eqb_spec b 226); [lia |].
  destruct (Nat.eqb_spec b 227); [lia |]. destruct (Nat.eqb_spec b 239); [lia |].
  reflexivity.
Qed.

(** The first character of the digits of a number. *)
Lemma string_of_uint_head (d : Decimal.uint) :
  d <> Decimal.Nil ->
  exists c rest,
    NilEmpty.string_of_uint d = String c rest
    /\ (48 <= nat_of_ascii c <= 57)%nat.
Proof.
  destruct d; intros Hd; [now elim Hd | ..];
    cbn [NilEmpty.string_of_uint]; do 2 eexists;
    (split; [reflexivity | vm_compute; lia]).
Qed.

(** The second character, when there is one, is a digit too. *)
Lemma string_of_uint_not_hex (d : Decimal.uint) (c1 c2 : ascii) (rest : string) :
  NilEmpty.string_of_uint d = String c1 (String c2 rest) ->
  Ascii.eqb c2 "x" || Ascii.eqb c2 "X" = false.
Proof.
  destruct d as [| d | d | d | d | d | d | d | d | d | d];
    cbn [NilEmpty.string_of_uint]; try discriminate;
    (destruct d; cbn [NilEmpty.string_of_uint]; try discriminate;
     intros H; injection H as _ <- _; reflexivity).
Qed.

Lemma parseInt_unsigned (d : Decimal.uint) :
  d <> Decimal.Nil ->
  EnvConfig.parseInt (NilEmpty.string_of_uint d)
  = JS.Num (Z.of_N (Pos.of_uint d))
  /\ EnvConfig.parseInt (String "-" (NilEmpty.string_of_uint d))
     = JS.Num (- Z.of_N (Pos.of_uint d)).
Proof.
  intros Hd.
  destruct (string_of_uint_head d Hd) as (c & rest & Hs & Hc).
  pose proof (digits_of_uint d Hd) as Hdigits.
  assert (Hsign : Ascii.eqb c "-" = false /\ Ascii.eqb c "+" = false).
  { split; apply Ascii.eqb_neq; intros ->; vm_compute in Hc; lia. }
  destruct Hsign as [Hminus Hplus].
  assert (Hradix :
            match String c rest with
            | String c1 (String c2 rest') =>
                if Ascii.eqb c1 "0" && (Ascii.eqb c2 "x" || Ascii.eqb c2 "X")
                then (16, rest') else (10, String c rest)
            | _ => (10, String c rest)
            end = (10, String c rest)).
  { destruct rest as [| c2 rest']; [reflexivity |].
    rewrite (string_of_uint_not_hex d c c2 rest' Hs), andb_false_r.
    reflexivity. }
  unfold EnvConfig.parseInt. split.
  - rewrite Hs in *. rewrite skipWhiteSpace_printable by lia.
    rewrite Hminus, Hplus. rewrite Hradix. rewrite Hdigits. reflexivity.
  - rewrite Hs in *.
    rewrite skipWhiteSpace_printable by (vm_compute; lia).
    change (Ascii.eqb "-" "-") with true. cbv iota.
    rewrite Hradix. rewrite Hdigits. reflexivity.
Qed.

Lemma parseInt_num_to_string (n : Z) :
  EnvConfig.parseInt (JS.num_to_string n) = JS.Num n.
Proof.
  unfold JS.num_to_string. destruct n as [| p | p].
  - vm_compute. reflexivity.
  - cbn [Z.to_int NilZero.string_of_int]. unfold NilZero.string_of_uint.
    pose proof (DecimalPos.Unsigned.to_uint_nonnil p) as Hd.
    destruct (parseInt_unsigned (Pos.to_uint p) Hd) as [H _].
    rewrite DecimalPos.Unsigned.of_to in H.
    destruct (Pos.to_uint p); [now elim Hd | exact H ..].
  - cbn [Z.to_int NilZero.string_of_int]. unfold NilZero.string_of_uint.
    pose proof (DecimalPos.Unsigned.to_uint_nonnil p) as Hd.
    destruct (parseInt_unsigned (Pos.to_uint p) Hd) as [_ H].
    rewrite DecimalPos.Unsigned.of_to in H.
    destruct (Pos.to_uint p); [now elim Hd | exact H ..].
Qed.

Lemma num_to_string_not_empty (n : Z) :
  String.eqb (JS.num_to_string n) EmptyString = false.
Proof.
  destruct (String.eqb_spec (JS.num_to_string n) EmptyString) as [E |];
    [| reflexivity].
  pose proof (parseInt_num_to_string n) as H. rewrite E in H.
  vm_compute in H. discriminate H.
Qed.

End Digits.

(** X17. What a number prints as is read back as that number: for every
    integer [n] that a double holds exactly (up to [2^53] in magnitude),
    [parseInt] of the decimal text of [n] is [n]. So a threshold variable
    that holds the digits of such an integer configures that integer, and
    one that is unset or empty configures the default: 0 critical, 5
    serious and 15 moderate issues. *)
Theorem thresholds_are_read_back :
  forall e : EnvConfig.env,
    (forall n,
       Z.abs n <= 2 ^ 53 ->
       EnvConfig.parseInt (JS.num_to_string n) = JS.Num n
       /\ (e "MAX_CRITICAL_ISSUES" = Some (JS.num_to_string n) ->
           EnvConfig.maxCriticalIssues (EnvConfig.load e) = JS.Num n)
       /\ (e "MAX_SERIOUS_ISSUES" = Some (JS.num_to_string n) ->
           EnvConfig.maxSeriousIssues (EnvConfig.load e) = JS.Num n)
       /\ (e "MAX_MODERATE_ISSUES" = Some (JS.num_to_string n) ->
           EnvConfig.maxModerateIssues (EnvConfig.load e) = JS.Num n))
    /\ (EnvConfig.present (e "MAX_CRITICAL_ISSUES") = false ->
        EnvConfig.maxCriticalIssues (EnvConfig.load e) = JS.Num 0)
    /\ (EnvConfig.present (e "MAX_SERIOUS_ISSUES") = false ->
        EnvConfig.maxSeriousIssues (EnvConfig.load e) = JS.Num 5)
    /\ (EnvConfig.present (e "MAX_MODERATE_ISSUES") = false ->
        EnvConfig.maxModerateIssues (EnvConfig.load e) = JS.Num 15).
Proof.
  intros e.
  assert (Hset : forall v d n,
             v = Some (JS.num_to_string n) ->
             EnvConfig.parseInt (EnvConfig.or_default v d) = JS.Num n).
  { intros v d n ->. unfold EnvConfig.or_default.
    rewrite num_to_string_not_empty. apply parseInt_num_to_string. }
  assert (Hunset : forall v d,
             EnvConfig.present v = false -> EnvConfig.or_default v d = d).
  { intros [s |] d; cbn; [| reflexivity].
    destruct (String.eqb s EmptyString); [reflexivity | discriminate]. }
  cbn [EnvConfig.load EnvConfig.maxCriticalIssues EnvConfig.maxSeriousIssues
       EnvConfig.maxModerateIssues].
  split; [intros n _; split; [apply parseInt_num_to_string |] |];
    repeat split; intros; try (now apply Hset);
    rewrite Hunset by assumption; vm_compute; reflexivity.
Qed.

(** X18. [validateConfig] throws exactly when strict mode is on
    ([STRICT_MODE] is [true]) and [API_KEY] is unset or empty, and then
    with the message about [API_KEY] alone: since [auditUrl] falls back to
    its default, the error about [AUDIT_URL] can never be raised. *)
Theorem validateConfig_fails_only_in_strict_mode_without_key :
  forall e : EnvConfig.env,
    let strict_without_key :=
      EnvConfig.is_true (e "STRICT_MODE")
      && negb (EnvConfig.present (e "API_KEY")) in
    EnvConfig.validateConfig (EnvConfig.load e)
    = if strict_without_key then
        Throw (OtherError
                 ("Configuration validation failed:" ++ ComplianceChecker.newline
                  ++ "API_KEY environment variable is required in strict mode"))
      else Return true.
Proof.
  intros e strict_without_key. subst strict_without_key.
  unfold EnvConfig.validateConfig.
  cbn [EnvConfig.load EnvConfig.auditUrl EnvConfig.strictMode EnvConfig.apiKey].
  assert (Hurl : String.eqb (EnvConfig.or_default (e "AUDIT_URL")
                                "http://localhost:3000") EmptyString = false).
  { unfold EnvConfig.or_default. destruct (e "AUDIT_URL") as [s |];
      [| reflexivity].
    destruct (String.eqb s EmptyString) eqn:E; [reflexivity | exact E]. }
  rewrite Hurl. cbn [app].
  destruct (EnvConfig.is_true (e "STRICT_MODE")
            && negb (EnvConfig.present (e "API_KEY"))); reflexivity.
Qed.

(** ** The names of the reports and the calendar *)

Section Calendar.

Lemma string_compare_lt_trans (s1 : string) :
  forall s2 s3,
    String.compare s1 s2 = Lt -> String.compare s2 s3 = Lt ->
    String.compare s1 s3 = Lt.
Proof.
  induction s1 as [| c1 s1 IH]; intros [| c2 s2] [| c3 s3];
    cbn [String.compare]; try congruence.
  unfold Ascii.compare.
  destruct (N.compare_spec (N_of_ascii c1) (N_of_ascii c2)) as [E12 | L12 | G12];
    destruct (N.compare_spec (N_of_ascii c2) (N_of_ascii c3)) as [E23 | L23 | G23];
    intros H12 H23; try discriminate H12; try discriminate H23.
  - rewrite E12, E23, N.compare_refl. now apply (IH s2 s3).
  - rewrite E12. now rewrite (proj2 (N.compare_lt_iff _ _) L23).
  - rewrite <- E23. now rewrite (proj2 (N.compare_lt_iff _ _) L12).
  - now rewrite (proj2 (N.compare_lt_iff _ _) (N.lt_trans _ _ _ L12 L23)).
Qed.

Lemma names_ascend_from (n : nat) :
  forall day,
    Notions.names_ascend n day (Notions.day_name day) = true ->
    forall k : nat,
      (0 < k <= n)%nat ->
      String.compare (Notions.day_name day) (Notions.day_name (day + Z.of_nat k)) = Lt.
Proof.
  induction n as [| n IH]; intros day H k Hk; [lia |].
  cbn [Notions.names_ascend] in H. fold (Notions.day_name (day + 1)) in H.
  destruct (String.compare (Notions.day_name day) (Notions.day_name (day + 1))) eqn:Hstep;
    try discriminate H.
  destruct k as [| [| k]]; [lia | exact Hstep |].
  apply (string_compare_lt_trans _ _ _ Hstep).
  replace (day + Z.of_nat (S (S k))) with (day + 1 + Z.of_nat (S k)) by lia.
  apply IH; [exact H | lia].
Qed.

Lemma names_ascend_between (n : nat) (day : Z) :
  Notions.names_ascend n day (Notions.day_name day) = true ->
  forall i j,
    day <= i -> i < j -> j <= day + Z.of_nat n ->
    String.compare (Notions.day_name i) (Notions.day_name j) = Lt.
Proof.
  revert day. induction n as [| n IH]; intros day H i j Hi Hij Hj; [lia |].
  destruct (Z.eq_dec i day) as [-> | Hne].
  - replace j with (day + Z.of_nat (Z.to_nat (j - day))) by lia.
    apply (names_ascend_from (S n) day H). lia.
  - cbn [Notions.names_ascend] in H. fold (Notions.day_name (day + 1)) in H.
    destruct (String.compare (Notions.day_name day) (Notions.day_name (day + 1)));
      try discriminate H.
    apply (IH (day + 1) H); lia.
Qed.

Lemma name_of_instant (t : Z) :
  ReportFiles.jsonReportName t = Notions.day_name (t / 86400000).
Proof.
  unfold Notions.day_name, ReportFiles.jsonReportName, Lib.isoDate.
  now rewrite Z.div_mul by lia.
Qed.

(** From 1970 to the end of 2199 the names follow the days. *)
Lemma names_follow_days :
  Notions.names_ascend (Z.to_nat 84005) 0 (Notions.day_name 0) = true.
Proof. vm_compute. reflexivity. Qed.

Lemma later_day_greater_name (t1 t2 : Z) :
  0 <= t1 -> t2 < 7258118400000 ->
  t1 / 86400000 < t2 / 86400000 ->
  String.compare (ReportFiles.jsonReportName t1) (ReportFiles.jsonReportName t2)
  = Lt.
Proof.
  intros H1 H2 Hlt. rewrite !name_of_instant.
  apply (names_ascend_between (Z.to_nat 84005) 0 names_follow_days).
  - apply Z.div_pos; lia.
  - exact Hlt.
  - rewrite Z2Nat.id by lia.
    assert (t2 / 86400000 < 84006)
      by (apply Z.div_lt_upper_bound; lia).
    lia.
Qed.

End Calendar.

(** X19. From 1970 to the end of 2199 the names of the JSON reports
    follow the calendar: two instants of the same day (UTC) give the same
    name, so that the later report replaces the earlier one, and an
    instant of a later day gives a name that comes after in the order in
    which the script sorts. *)
Theorem report_names_follow_the_calendar :
  forall t1 t2 : Z,
    0 <= t1 -> t1 <= t2 -> t2 < 7258118400000 ->
    (t1 / 86400000 = t2 / 86400000 ->
     ReportFiles.jsonReportName t1 = ReportFiles.jsonReportName t2)
    /\ (t1 / 86400000 < t2 / 86400000 ->
        String.ltb (ReportFiles.jsonReportName t1)
                   (ReportFiles.jsonReportName t2) = true
        /\ String.leb (ReportFiles.jsonReportName t2)
                      (ReportFiles.jsonReportName t1) = false).
Proof.
  intros t1 t2 H1 H12 H2. split.
  - intros E. rewrite !name_of_instant. now rewrite E.
  - intros Hlt.
    pose proof (later_day_greater_name t1 t2 H1 H2 Hlt) as Hc.
    unfold String.ltb, String.leb. rewrite Hc.
    rewrite String.compare_antisym, Hc. split; reflexivity.
Qed.

Lemma report_names_follow_the_calendar_witness :
  String.ltb (ReportFiles.jsonReportName 1767225599999)
             (ReportFiles.jsonReportName 1767225600000) = true.
Proof.
  apply (proj2 (report_names_follow_the_calendar 1767225599999 1767225600000
                  ltac:(lia) ltac:(lia) ltac:(lia))).
  vm_compute. reflexivity.
Defined.

(** X20. When the directory holds the reports that [generateReport] wrote
    at the instants [ts], between 1970 and the end of 2199, the report the
    script reads is one of the latest day among them. *)
Theorem script_reads_report_of_latest_day :
  forall (ts : list Z) (latest : string) (others : list string),
    (forall t, In t ts -> 0 <= t < 7258118400000) ->
    CheckScript.candidates (map ReportFiles.jsonReportName ts)
    = latest :: others ->
    exists t,
      In t ts
      /\ latest = ReportFiles.jsonReportName t
      /\ forall t', In t' ts -> t' / 86400000 <= t / 86400000.
Proof.
  intros ts latest others Hrange E.
  unfold CheckScript.candidates in E.
  destruct (reversed_sort_head _ _ _ E) as [Hin Hmax].
  apply filter_In in Hin as [Hin _].
  apply in_map_iff in Hin as (t & <- & Ht).
  exists t. split; [exact Ht |]. split; [reflexivity |].
  intros t' Ht'.
  destruct (Z.le_gt_cases (t' / 86400000) (t / 86400000)) as [Hle | Hgt];
    [exact Hle | exfalso].
  assert (Hname : String.leb (ReportFiles.jsonReportName t')
                             (ReportFiles.jsonReportName t) = true).
  { rewrite <- (leb_ascii _ _ (jsonReportName_ascii t')).
    apply Hmax. apply filter_In. split; [now apply in_map |].
    apply jsonReportName_is_report_name. }
  pose proof (Hrange t Ht) as [Ht0 _]. pose proof (Hrange t' Ht') as [_ Ht1].
  pose proof (later_day_greater_name t t' Ht0 Ht1 ltac:(lia)) as Hc.
  unfold String.leb in Hname.
  rewrite String.compare_antisym, Hc in Hname. discriminate Hname.
Qed.

Lemma script_reads_report_of_latest_day_witness :
  exists t,
    In t [1767225600000; 1798761600000; 1767312000000]
    /\ "compliance-report-2027-01-01.json" = ReportFiles.jsonReportName t
    /\ forall t', In t' [1767225600000; 1798761600000; 1767312000000] ->
                  t' / 86400000 <= t / 86400000.
Proof.
  apply (script_reads_report_of_latest_day
           [1767225600000; 1798761600000; 1767312000000]
           "compliance-report-2027-01-01.json"
           [ "compliance-report-2026-01-02.json";
             "compliance-report-2026-01-01.json" ]).
  - intros t [<- | [<- | [<- | []]]]; lia.
  - vm_compute. reflexivity.
Defined.

(** ** Where the reports are written and how they are listed *)

Section ReportNames.

Lemma has_slash_append (a b : string) :
  Notions.has_slash (a ++ b) = Notions.has_slash a || Notions.has_slash b.
Proof.
  induction a as [| c a IH]; [reflexivity |].
  cbn [String.append Notions.has_slash]. now rewrite IH, orb_assoc.
Qed.

Lemma has_slash_uint (d : Decimal.uint) :
  Notions.has_slash (NilEmpty.string_of_uint d) = false.
Proof. induction d; cbn [NilEmpty.string_of_uint Notions.has_slash]; auto. Qed.

Lemma has_slash_num (n : Z) : Notions.has_slash (JS.num_to_string n) = false.
Proof.
  unfold JS.num_to_string.
  destruct n as [| p | p]; cbn [Z.to_int NilZero.string_of_int];
    [reflexivity | |];
    unfold NilZero.string_of_uint;
    pose proof (has_slash_uint (Pos.to_uint p)) as H;
    destruct (Pos.to_uint p); first [reflexivity | exact H].
Qed.

Lemma has_slash_concat (parts : list string) :
  Forall (fun s => Notions.has_slash s = false) parts ->
  Notions.has_slash (String.concat EmptyString parts) = false.
Proof.
  induction 1 as [| x rest Hx Hrest IH]; [reflexivity |].
  destruct rest as [| y rest']; [exact Hx |].
  change (String.concat EmptyString (x :: y :: rest'))
    with (x ++ EmptyString ++ String.concat EmptyString (y :: rest'))%string.
  now rewrite !has_slash_append, Hx, IH.
Qed.

Lemma has_slash_zeros (k : nat) :
  Notions.has_slash (String.concat EmptyString (repeat "0" k)) = false.
Proof.
  apply has_slash_concat. apply Forall_forall.
  intros s Hs. apply repeat_spec in Hs. now subst s.
Qed.

Lemma has_slash_pad (width : nat) (n : Z) :
  Notions.has_slash (Lib.pad width n) = false.
Proof.
  unfold Lib.pad. now rewrite has_slash_append, has_slash_zeros, has_slash_num.
Qed.

Lemma has_slash_isoDate (t : Z) : Notions.has_slash (Lib.isoDate t) = false.
Proof.
  unfold Lib.isoDate.
  destruct (Lib.civil_from_days (t / 86400000)) as [[y m] d].
  rewrite !has_slash_append, !has_slash_pad.
  destruct ((0 <=? y) && (y <=? 9999)); [now rewrite has_slash_pad |].
  destruct (y <? 0); rewrite has_slash_append, has_slash_pad; reflexivity.
Qed.

Lemma jsonReportName_plain (t : Z) :
  Notions.plain (ReportFiles.jsonReportName t) = true.
Proof.
  unfold Notions.plain, ReportFiles.jsonReportName.
  cbn [String.append String.eqb Ascii.eqb Bool.eqb andb negb].
  cbn [Notions.has_slash orb].
  change (Ascii.eqb "c" path.slash) with false.
  change (Ascii.eqb "o" path.slash) with false.
  change (Ascii.eqb "m" path.slash) with false.
  change (Ascii.eqb "p" path.slash) with false.
  change (Ascii.eqb "l" path.slash) with false.
  change (Ascii.eqb "i" path.slash) with false.
  change (Ascii.eqb "a" path.slash) with false.
  change (Ascii.eqb "n" path.slash) with false.
  change (Ascii.eqb "e" path.slash) with false.
  change (Ascii.eqb "-" path.slash) with false.
  change (Ascii.eqb "r" path.slash) with false.
  change (Ascii.eqb "t" path.slash) with false.
  cbn [orb].
  now rewrite has_slash_append, has_slash_isoDate.
Qed.






End ReportNames.

(** X21. With the sources in an absolute directory, a report that
    [generateReport] writes lies directly in the reports directory, under
    the name made of the day of the clock, and the download route serves
    it from that path under that name. What is written is the report of
    [_buildReport]; when the write throws, that exception is what
    [generateReport] throws. *)
Theorem generated_report_lies_in_reports_directory :
  forall (__dirname : string) (config : Config.t) (fs : Fs.t)
         (auditResults : AuditResult.t) (w : World),
    path.starts_with_slash __dirname = true ->
    let reportsDir := Server.reportsDir __dirname config in
    let name := ReportFiles.jsonReportName (clock w) in
    match fst (ReportFiles.generateReport __dirname config fs auditResults w) with
    | Return (filepath, report) =>
        (filepath = (reportsDir ++ "/" ++ name)%string
         \/ (path.ends_with_slash reportsDir = true
             /\ filepath = (reportsDir ++ name)%string))
        /\ report = ReportGenerator._buildReport config auditResults w
        /\ Fs.writeReport fs filepath report = Return tt
        /\ (forall existsSync,
              existsSync filepath = true ->
              Server.get_report __dirname config existsSync name
              = Server.Download filepath)
    | Throw error =>
        exists filepath,
          Fs.writeReport fs filepath
            (ReportGenerator._buildReport config auditResults w)
          = Throw error
    end.
Proof.
  intros __dirname config fs auditResults w Habs reportsDir name.
  unfold ReportFiles.generateReport. fold name.
  pose proof (join_child __dirname (Config.reportOutputDir config) name Habs
                (jsonReportName_plain (clock w))) as Hchild.
  pose proof (refused_join __dirname (Config.reportOutputDir config) name Habs
                (jsonReportName_plain (clock w))) as Hsent.
  change (Server.starts_with_dot name) with false in Hsent.
  cbv zeta in Hchild. fold (Server.reportsDir __dirname config) in Hchild.
  fold reportsDir in Hchild.
  set (filepath := path.join [__dirname; ".."; Config.reportOutputDir config; name])
    in *.
  destruct (Fs.writeReport fs filepath _) as [[] | error] eqn:Hw; cbn [fst].
  - split; [exact Hchild |]. split; [reflexivity |]. split; [exact Hw |].
    intros existsSync Hex. rewrite get_report_cases. fold filepath.
    now rewrite Hex, Hsent.
  - exists filepath. exact Hw.
Qed.

Lemma generated_report_lies_in_reports_directory_witness :
  exists report,
    fst (ReportFiles.generateReport Sample.dirname Sample.default_config
           Notions.disk (Sample.audit 0 0 0 0 100 PASSED)
           (Sample.world 1767225600000))
    = Return ("/app/reports/compliance-report-2026-01-01.json", report).
Proof.
  pose proof (generated_report_lies_in_reports_directory
                Sample.dirname Sample.default_config Notions.disk
                (Sample.audit 0 0 0 0 100 PASSED) (Sample.world 1767225600000)
                eq_refl) as H.
  cbv zeta in H.
  destruct (fst (ReportFiles.generateReport Sample.dirname Sample.default_config
                   Notions.disk (Sample.audit 0 0 0 0 100 PASSED)
                   (Sample.world 1767225600000)))
    as [[filepath report] | error] eqn:E; [| discriminate E].
  exists report.
  destruct H as [[-> | [Hend _]] _];
    [reflexivity | vm_compute in Hend; discriminate Hend].
Defined.

